(** * A shallow embedding of [scripts/kim/main.py]

    The development follows the layout of the Python module: the parameter
    store ([zipp], [unzip], [init_tparams]), batch preparation
    ([prepare_data]), the recurrent step of [lstm_layer], the attention
    normalisation of [build_model], the [rmsprop] optimizer, and the
    gradient clipping and control loop of [train].

    Integer data (token ids, lemma ids, labels, counters) is modelled by [Z]
    and [nat]; the arrays built by [prepare_data] hold rationals; the
    symbolic tensor expressions of the model and of the optimizers are
    read over the real numbers. *)

From stdpp Require Import base option list gmap strings.
From Stdlib Require Import ZArith QArith Reals Lra Lia.

Close Scope Q_scope.
Close Scope R_scope.
Close Scope Z_scope.

(** Python exceptions that the modelled code can raise. *)
Inductive exn : Type :=
  | KeyError
  | IndexError
  | ValueError
  | AttributeError
  | TypeError.

(** A computation that either raises or returns. *)
Definition py (A : Type) : Type := exn + A.

Definition ret {A} (a : A) : py A := inr a.
Definition raise {A} (e : exn) : py A := inl e.
Definition bind {A B} (m : py A) (k : A -> py B) : py B :=
  match m with
  | inl e => inl e
  | inr a => k a
  end.

(** [for x in l: s = body(x, s)], stopping at the first exception. *)
Fixpoint for_each {A S} (body : A -> S -> py S) (l : list A) (s : S) : py S :=
  match l with
  | [] => ret s
  | a :: l' => bind (body a s) (for_each body l')
  end.

(** ** Parameter store *)

Module Store.

Abbreviation key := string (only parsing).

(** A Theano shared variable is a reference into a heap of arrays. *)
Abbreviation loc := nat (only parsing).

(** An [OrderedDict]: keys are unique, insertion order is kept. *)
Definition odict (V : Type) : Type := list (key * V).

Fixpoint od_get {V} (d : odict V) (k : key) : option V :=
  match d with
  | [] => None
  | (k', v) :: d' => if decide (k = k') then Some v else od_get d' k
  end.

(** [d[k] = v]: overwrite in place when [k] is bound, append otherwise. *)
Fixpoint od_set {V} (d : odict V) (k : key) (v : V) : odict V :=
  match d with
  | [] => [(k, v)]
  | (k', v') :: d' =>
      if decide (k = k') then (k', v) :: d' else (k', v') :: od_set d' k v
  end.

Section store.
Context {tensor : Type}.

Abbreviation heap := (gmap loc tensor) (only parsing).

(** [theano.shared(value)] allocates a fresh shared variable. *)
Definition shared (value : tensor) (h : heap) : heap * loc :=
  let l := fresh (dom h) in (<[l := value]> h, l).

(** [init_tparams]: one fresh shared variable per parameter. *)
Fixpoint init_tparams_loop (items : odict tensor) (tparams : odict loc)
    (h : heap) : heap * odict loc :=
  match items with
  | [] => (h, tparams)
  | (kk, pp) :: rest =>
      let '(h1, l) := shared pp h in
      init_tparams_loop rest (od_set tparams kk l) h1
  end.

Definition init_tparams (params : odict tensor) (h : heap) : heap * odict loc :=
  init_tparams_loop params [] h.

(** [zipp]: push parameters to the shared variables. *)
Fixpoint zipp (params : odict tensor) (tparams : odict loc) (h : heap)
    : py heap :=
  match params with
  | [] => ret h
  | (kk, vv) :: rest =>
      match od_get tparams kk with
      | None => raise KeyError
      | Some l => zipp rest tparams (<[l := vv]> h)
      end
  end.

(** [unzip]: pull parameters from the shared variables.  A shared
    variable always holds a value; a location absent from the heap is
    reported as [AttributeError]. *)
Fixpoint unzip_loop (items : odict loc) (h : heap) (new_params : odict tensor)
    : py (odict tensor) :=
  match items with
  | [] => ret new_params
  | (kk, vv) :: rest =>
      match h !! vv with
      | None => raise AttributeError
      | Some a => unzip_loop rest h (od_set new_params kk a)
      end
  end.

Definition unzip (zipped : odict loc) (h : heap) : py (odict tensor) :=
  unzip_loop zipped h [].

(** [itemlist] *)
Definition itemlist {V} (tparams : odict V) : list V := tparams.*2.

(** What [unzip] reads for one entry of the store. *)
Definition pulled (h : heap) (e : key * loc) (r : key * tensor) : Prop :=
  e.1 = r.1 /\ h !! e.2 = Some r.2.

End store.

End Store.

(** ** Batch preparation *)

Module Batch.

(** *** Arrays

    A numpy array of rank [k] is a [k]-fold nested list, indexed from the
    outermost axis.  Reading or writing outside an axis raises
    [IndexError]. *)

Definition upd {A} (l : list A) (i : nat) (f : A -> py A) : py (list A) :=
  match l !! i with
  | Some a => bind (f a) (fun a' => ret (<[i := a']> l))
  | None => raise IndexError
  end.

Definition index {A} (l : list A) (i : nat) : py A :=
  match l !! i with
  | Some a => ret a
  | None => raise IndexError
  end.

(** [m[r, c] = v] *)
Definition set2 {A} (m : list (list A)) (r c : nat) (v : A) : py (list (list A)) :=
  upd m r (fun row => upd row c (fun _ => ret v)).

(** [t[a, b, c] <- f (t[a, b, c])] *)
Definition upd3 {A} (t : list (list (list A))) (a b c : nat) (f : A -> py A)
    : py (list (list (list A))) :=
  upd t a (fun m => upd m b (fun row => upd row c f)).

Definition get2 {A} (m : list (list A)) (r c : nat) : option A :=
  match m !! r with
  | Some row => row !! c
  | None => None
  end.

Definition get3 {A} (t : list (list (list A))) (a b c : nat) : option A :=
  match t !! a with
  | Some m => get2 m b c
  | None => None
  end.

(** [numpy.zeros((a, b))], [numpy.zeros((a, b, c))], [numpy.zeros((a, b, c, d))] *)
Definition zeros2 {A} (z : A) (a b : nat) : list (list A) :=
  replicate a (replicate b z).
Definition zeros3 {A} (z : A) (a b c : nat) : list (list (list A)) :=
  replicate a (zeros2 z b c).
Definition zeros4 {A} (z : A) (a b c d : nat) : list (list (list (list A))) :=
  replicate a (zeros3 z b c d).

(** [enumerate(l)], counting from [k]. *)
Fixpoint enumerate_from {A} (k : nat) (l : list A) : list (nat * A) :=
  match l with
  | [] => []
  | a :: l' => (k, a) :: enumerate_from (S k) l'
  end.

Definition enumerate {A} (l : list A) : list (nat * A) := enumerate_from 0 l.

(** [m[:n, c] = vals]: the slice has [min n (len m)] rows and [vals] must
    have as many elements. *)
Definition assign_col_prefix {A} (m : list (list A)) (n c : nat) (vals : list A)
    : py (list (list A)) :=
  if decide (length vals = n `min` length m)
  then for_each (fun '(r, v) m => set2 m r c v) (enumerate vals) m
  else raise ValueError.

(** [m[:n, c] = v] for a scalar [v]. *)
Definition fill_col_prefix {A} (m : list (list A)) (n c : nat) (v : A)
    : py (list (list A)) :=
  for_each (fun r m => set2 m r c v) (seq 0 (n `min` length m)) m.

(** [row[:] = v]: [v] has the length of [row], or one element that is
    broadcast. *)
Definition assign_row {A} (v : list A) (row : list A) : py (list A) :=
  if decide (length v = length row) then ret v
  else match v with
       | [a] => ret (replicate (length row) a)
       | _ => raise ValueError
       end.

(** *** [prepare_data] *)

Record options := { dim_kb : nat }.

(** The knowledge relation table: source lemma, then target lemma, to
    feature vector. *)
Abbreviation kb_table := (gmap Z (gmap Z (list Q))) (only parsing).

Record batch := {
  x : list (list Z);
  x_mask : list (list Q);
  kb_x : list (list (list (list Q)));
  y : list (list Z);
  y_mask : list (list Q);
  kb_y : list (list (list (list Q)));
  kb_att : list (list (list Q));
  l : list Z
}.

(** The values that the returned tuple can hold. *)
Inductive pyval :=
  | PyNone
  | PyInt2 (a : list (list Z))
  | PyFloat2 (a : list (list Q))
  | PyFloat4 (a : list (list (list (list Q))))
  | PyFloat3 (a : list (list (list Q)))
  | PyInt1 (a : list Z).

(** [return x, x_mask, kb_x, y, y_mask, kb_y, kb_att, l] *)
Definition tuple_of (b : batch) : list pyval :=
  [PyInt2 (x b); PyFloat2 (x_mask b); PyFloat4 (kb_x b); PyInt2 (y b);
   PyFloat2 (y_mask b); PyFloat4 (kb_y b); PyFloat3 (kb_att b); PyInt1 (l b)].

(** [return None, None, None, None, None, None, None] *)
Definition none_tuple : list pyval :=
  [PyNone; PyNone; PyNone; PyNone; PyNone; PyNone; PyNone].

(** The filtering loop under [if maxlen is not None]; the four accumulators
    are [new_seqs_x], [new_lengths_x], [new_seqs_y], [new_lengths_y]. *)
Fixpoint filter_loop (maxlen : Z)
    (items : list (nat * (list Z * (nat * list Z))))
    (acc : list (list Z) * list nat * list (list Z) * list nat)
    : list (list Z) * list nat * list (list Z) * list nat :=
  match items with
  | [] => acc
  | (l_x, (s_x, (l_y, s_y))) :: rest =>
      let '(new_seqs_x, new_lengths_x, new_seqs_y, new_lengths_y) := acc in
      if bool_decide (Z.of_nat l_x < maxlen)%Z
         && bool_decide (Z.of_nat l_y < maxlen)%Z
      then filter_loop maxlen rest
             (new_seqs_x ++ [s_x], new_lengths_x ++ [l_x],
              new_seqs_y ++ [s_y], new_lengths_y ++ [l_y])
      else filter_loop maxlen rest acc
  end.

(** [numpy.max] of a list of lengths. *)
Definition numpy_max (ls : list nat) : py nat :=
  match ls with
  | [] => raise ValueError
  | _ => ret (max_list ls)
  end.

(** The loop over [enumerate(s_xl)] and [enumerate(s_yl)] that fills [kb_x]
    and [kb_att] for the example in column [idx]. *)
Definition fill_kb_x (kb_dict : kb_table) (idx : nat) (s_xl s_yl : list Z)
    (st : list (list (list (list Q))) * list (list (list Q)))
    : py (list (list (list (list Q))) * list (list (list Q))) :=
  for_each (fun '(sid, s) =>
    for_each (fun '(tid, t) '(kb_x, kb_att) =>
      match kb_dict !! s with
      | Some row =>
          match row !! t with
          | Some v =>
              bind (upd3 kb_x sid idx tid (assign_row v)) (fun kb_x =>
              bind (upd3 kb_att sid idx tid (fun _ => ret 1%Q)) (fun kb_att =>
              ret (kb_x, kb_att)))
          | None => ret (kb_x, kb_att)
          end
      | None => ret (kb_x, kb_att)
      end) (enumerate s_yl)) (enumerate s_xl) st.

(** The loop over [enumerate(s_yl)] and [enumerate(s_xl)] that fills [kb_y]. *)
Definition fill_kb_y (kb_dict : kb_table) (idx : nat) (s_xl s_yl : list Z)
    (kb_y : list (list (list (list Q)))) : py (list (list (list (list Q)))) :=
  for_each (fun '(sid, s) =>
    for_each (fun '(tid, t) kb_y =>
      match kb_dict !! s with
      | Some row =>
          match row !! t with
          | Some v => upd3 kb_y sid idx tid (assign_row v)
          | None => ret kb_y
          end
      | None => ret kb_y
      end) (enumerate s_xl)) (enumerate s_yl) kb_y.

(** The body of the loop over the zipped examples. *)
Definition fill_example (kb_dict : kb_table) (lengths_x lengths_y : list nat)
    (e : nat * (list Z * (list Z * (list Z * (list Z * Z))))) (b : batch)
    : py batch :=
  let '(idx, (s_x, (s_y, (s_xl, (s_yl, ll))))) := e in
  bind (index lengths_x idx) (fun len_x =>
  bind (assign_col_prefix (x b) len_x idx s_x) (fun x' =>
  bind (fill_col_prefix (x_mask b) len_x idx 1%Q) (fun x_mask' =>
  bind (index lengths_y idx) (fun len_y =>
  bind (assign_col_prefix (y b) len_y idx s_y) (fun y' =>
  bind (fill_col_prefix (y_mask b) len_y idx 1%Q) (fun y_mask' =>
  bind (upd (l b) idx (fun _ => ret ll)) (fun l' =>
  bind (fill_kb_x kb_dict idx s_xl s_yl (kb_x b, kb_att b)) (fun '(kb_x', kb_att') =>
  bind (fill_kb_y kb_dict idx s_xl s_yl (kb_y b)) (fun kb_y' =>
  ret {| x := x'; x_mask := x_mask'; kb_x := kb_x'; y := y'; y_mask := y_mask';
         kb_y := kb_y'; kb_att := kb_att'; l := l' |}))))))))).

(** The part of [prepare_data] after the filter: allocate and fill. *)
Definition build_batch (seqs_x seqs_y seqs_x_lemma seqs_y_lemma : list (list Z))
    (labels : list Z) (options : options) (kb_dict : kb_table)
    (lengths_x lengths_y : list nat) : py batch :=
  let n_samples := length seqs_x in
  bind (numpy_max lengths_x) (fun maxlen_x =>
  bind (numpy_max lengths_y) (fun maxlen_y =>
  for_each (fill_example kb_dict lengths_x lengths_y)
    (enumerate (zip seqs_x (zip seqs_y (zip seqs_x_lemma (zip seqs_y_lemma labels)))))
    {| x := zeros2 0%Z maxlen_x n_samples;
       y := zeros2 0%Z maxlen_y n_samples;
       x_mask := zeros2 0%Q maxlen_x n_samples;
       y_mask := zeros2 0%Q maxlen_y n_samples;
       l := replicate n_samples 0%Z;
       kb_x := zeros4 0%Q maxlen_x n_samples maxlen_y (dim_kb options);
       kb_y := zeros4 0%Q maxlen_y n_samples maxlen_x (dim_kb options);
       kb_att := zeros3 0%Q maxlen_x n_samples maxlen_y |})).

Definition prepare_data (seqs_x seqs_y seqs_x_lemma seqs_y_lemma : list (list Z))
    (labels : list Z) (options : options) (kb_dict : kb_table)
    (maxlen : option Z) : py (list pyval) :=
  let lengths_x := length <$> seqs_x in
  let lengths_y := length <$> seqs_y in
  match maxlen with
  | Some maxlen =>
      let '(seqs_x, lengths_x, seqs_y, lengths_y) :=
        filter_loop maxlen (zip lengths_x (zip seqs_x (zip lengths_y seqs_y)))
          ([], [], [], []) in
      if bool_decide (length lengths_x < 1) || bool_decide (length lengths_y < 1)
      then ret none_tuple
      else bind (build_batch seqs_x seqs_y seqs_x_lemma seqs_y_lemma labels
                   options kb_dict lengths_x lengths_y)
             (fun b => ret (tuple_of b))
  | None =>
      bind (build_batch seqs_x seqs_y seqs_x_lemma seqs_y_lemma labels
              options kb_dict lengths_x lengths_y)
        (fun b => ret (tuple_of b))
  end.

(** *** Predicates of the padding properties *)

(** Every cell of [m] within [d1 x d2] exists, and holds [z] unless it lies
    in [region]. *)
Definition confined2 {A} (z : A) (d1 d2 : nat) (region : nat -> nat -> Prop)
    (m : list (list A)) : Prop :=
  forall r c, r < d1 -> c < d2 ->
    exists v, get2 m r c = Some v /\ (v = z \/ region r c).

Definition confined3 {A} (z : A) (d1 d2 d3 : nat)
    (region : nat -> nat -> nat -> Prop) (t : list (list (list A))) : Prop :=
  forall a b c, a < d1 -> b < d2 -> c < d3 ->
    exists v, get3 t a b c = Some v /\ (v = z \/ region a b c).

(** Position [r] lies within the true length of sequence [i] of [seqs]. *)
Definition within (seqs : list (list Z)) (r i : nat) : bool :=
  match seqs !! i with
  | Some s => bool_decide (r < length s)
  | None => false
  end.

(** A [d1 x d2] mask whose columns before [k] are filled: ones within the
    true length, zeros elsewhere. *)
Definition masked (seqs : list (list Z)) (d1 d2 k : nat) (m : list (list Q))
    : Prop :=
  forall r c, r < d1 -> c < d2 ->
    get2 m r c
      = Some (if bool_decide (c < k) && within seqs r c then 1%Q else 0%Q).

(** Token sequences and their lemma sequences are parallel. *)
Definition parallel (seqs seqs_lemma : list (list Z)) : Prop :=
  Forall2 (fun s sl => length sl = length s) seqs seqs_lemma.

(** Every example passes the length filter, when there is one. *)
Definition all_pass (maxlen : option Z) (seqs_x seqs_y : list (list Z)) : Prop :=
  forall m, maxlen = Some m ->
    Forall (fun s => (Z.of_nat (length s) < m)%Z) seqs_x /\
    Forall (fun s => (Z.of_nat (length s) < m)%Z) seqs_y.

(** The state of the batch arrays after [k] examples have been written:
    ids and knowledge cells are zero outside the true lengths, and the
    first [k] mask columns are filled. *)
Definition padded (seqs_x seqs_y : list (list Z)) (dim k : nat) (b : batch)
    : Prop :=
  let Lx := max_list (length <$> seqs_x) in
  let Ly := max_list (length <$> seqs_y) in
  let n := length seqs_x in
  let both p i h := within seqs_x p i = true /\ within seqs_y h i = true in
  confined2 0%Z Lx n (fun r c => within seqs_x r c = true) (x b) /\
  confined2 0%Z Ly n (fun r c => within seqs_y r c = true) (y b) /\
  masked seqs_x Lx n k (x_mask b) /\
  masked seqs_y Ly n k (y_mask b) /\
  confined3 (replicate dim 0%Q) Lx n Ly both (kb_x b) /\
  confined3 (replicate dim 0%Q) Ly n Lx (fun h i p => both p i h) (kb_y b) /\
  confined3 0%Q Lx n Ly both (kb_att b).

(** *** The presence matrix *)

(** [s in kb_dict and t in kb_dict[s]] *)
Definition related (kb_dict : gmap Z (gmap Z (list Q))) (s t : Z) : bool :=
  match kb_dict !! s with
  | Some row => bool_decide (is_Some (row !! t))
  | None => false
  end.

(** The sequences that survive the filter, with their lengths. *)
Definition kept (maxlen : option Z) (seqs_x seqs_y : list (list Z))
    : list (list Z) * list nat * list (list Z) * list nat :=
  match maxlen with
  | Some m =>
      filter_loop m
        (zip (length <$> seqs_x) (zip seqs_x (zip (length <$> seqs_y) seqs_y)))
        ([], [], [], [])
  | None => (seqs_x, length <$> seqs_x, seqs_y, length <$> seqs_y)
  end.

(** The tuples that the fill loop of [prepare_data] visits: column [i] of
    the batch is written from tuple [i]. *)
Definition examples (maxlen : option Z)
    (seqs_x seqs_y seqs_x_lemma seqs_y_lemma : list (list Z)) (labels : list Z)
    : list (list Z * (list Z * (list Z * (list Z * Z)))) :=
  let '(seqs_x, _, seqs_y, _) := kept maxlen seqs_x seqs_y in
  zip seqs_x (zip seqs_y (zip seqs_x_lemma (zip seqs_y_lemma labels))).

(** 1 when the premise lemma at position [p] of example [i] maps to its
    hypothesis lemma at position [h] in the knowledge table, else 0. *)
Definition presence (kb_dict : gmap Z (gmap Z (list Q)))
    (exs : list (list Z * (list Z * (list Z * (list Z * Z))))) (p i h : nat) : Q :=
  match exs !! i with
  | Some (_, (_, (s_xl, (s_yl, _)))) =>
      match s_xl !! p, s_yl !! h with
      | Some s, Some t => if related kb_dict s t then 1%Q else 0%Q
      | _, _ => 0%Q
      end
  | None => 0%Q
  end.

(** [t] holds the presence indicator at the positions already visited and
    zero at the others. *)
Definition agrees (kb_dict : gmap Z (gmap Z (list Q)))
    (exs : list (list Z * (list Z * (list Z * (list Z * Z)))))
    (visited : nat -> nat -> nat -> Prop) (t : list (list (list Q))) : Prop :=
  forall p i h v, get3 t p i h = Some v ->
    (visited p i h -> v = presence kb_dict exs p i h) /\
    (~ visited p i h -> v = 0%Q).

(** Positions visited before the inner loop reaches [(sid, tid)] of
    example [k]. *)
Definition before (k sid tid p i h : nat) : Prop :=
  i < k \/ (i = k /\ (p < sid \/ (p = sid /\ h < tid))).

(** *** Sample inputs

    Two examples with premise lengths 3 and 1 and hypothesis lengths 1 and
    2; lemma 7 is related to lemma 9 by the feature vector [(1, 0)]. *)

Definition sample_seqs_x : list (list Z) := [[1; 2; 3]; [4]]%Z.
Definition sample_seqs_y : list (list Z) := [[5]; [6; 7]]%Z.
Definition sample_seqs_x_lemma : list (list Z) := [[7; 8; 7]; [8]]%Z.
Definition sample_seqs_y_lemma : list (list Z) := [[9]; [9; 9]]%Z.
Definition sample_labels : list Z := [0; 1]%Z.
Definition sample_options : options := {| dim_kb := 2 |}.
Definition sample_kb_dict : gmap Z (gmap Z (list Q)) :=
  {[ 7%Z := {[ 9%Z := [1%Q; 0%Q] ]} ]}.

Definition sample_batch : batch :=
  {| x := [[1; 4]; [2; 0]; [3; 0]]%Z;
     x_mask := [[1; 1]; [1; 0]; [1; 0]]%Q;
     kb_x := [[[[1; 0]; [0; 0]]; [[0; 0]; [0; 0]]];
              [[[0; 0]; [0; 0]]; [[0; 0]; [0; 0]]];
              [[[1; 0]; [0; 0]]; [[0; 0]; [0; 0]]]]%Q;
     y := [[5; 6]; [0; 7]]%Z;
     y_mask := [[1; 1]; [0; 1]]%Q;
     kb_y := [[[[0; 0]; [0; 0]; [0; 0]]; [[0; 0]; [0; 0]; [0; 0]]];
              [[[0; 0]; [0; 0]; [0; 0]]; [[0; 0]; [0; 0]; [0; 0]]]]%Q;
     kb_att := [[[1; 0]; [0; 0]]; [[0; 0]; [0; 0]]; [[1; 0]; [0; 0]]]%Q;
     l := [0; 1]%Z |}.

(** Three examples of which [maxlen = 3] drops the first (premise length
    3); the two kept have premise lengths 1 and 2 and hypothesis length 1.
    Every lemma sequence has the length of its token sequence. *)
Definition drop_seqs_x : list (list Z) := [[1; 2; 3]; [4]; [5; 6]]%Z.
Definition drop_seqs_y : list (list Z) := [[5]; [6]; [7]]%Z.
Definition drop_seqs_x_lemma : list (list Z) := [[7; 7; 8]; [8]; [8; 8]]%Z.
Definition drop_seqs_y_lemma : list (list Z) := [[9]; [9]; [9]]%Z.
Definition drop_labels : list Z := [0; 1; 2]%Z.

Definition drop_batch : batch :=
  {| x := [[4; 5]; [0; 6]]%Z;
     x_mask := [[1; 1]; [0; 1]]%Q;
     kb_x := [[[[1; 0]]; [[0; 0]]]; [[[1; 0]]; [[0; 0]]]]%Q;
     y := [[6; 7]]%Z;
     y_mask := [[1; 1]]%Q;
     kb_y := [[[[0; 0]; [0; 0]]; [[0; 0]; [0; 0]]]]%Q;
     kb_att := [[[1]; [0]]; [[1]; [0]]]%Q;
     l := [0; 1]%Z |}.

End Batch.

(** ** Tensor expressions over the reals

    A symbolic Theano tensor is read as a function from indices to reals;
    the extent of an axis is given where a reduction runs over it. *)

Module Tensor.
Local Open Scope R_scope.

(** [sum] of [f 0 .. f (n - 1)]. *)
Fixpoint rsum (n : nat) (f : nat -> R) : R :=
  match n with
  | O => 0
  | S n' => rsum n' f + f n'
  end.

(** [max] of [f 0 .. f (n - 1)]; an empty axis has no cell to hold it. *)
Fixpoint rmax (n : nat) (f : nat -> R) : R :=
  match n with
  | O => 0
  | S O => f O
  | S n' => Rmax (rmax n' f) (f n')
  end.

(** The sum of [f] over the positions that the mask marks valid. *)
Definition rsum_valid (mask : nat -> R) (n : nat) (f : nat -> R) : R :=
  rsum n (fun k => if Req_dec_T (mask k) 1 then f k else 0).

(** A validity mask holds zeros and ones. *)
Definition is_mask (mask : nat -> R) : Prop :=
  forall k, mask k = 0 \/ mask k = 1.

Definition sigmoid (x : R) : R := 1 / (1 + exp (- x)).

End Tensor.

(** ** The recurrent layer *)

Module Lstm.
Import Tensor.
Local Open Scope R_scope.

(** [tensor.dot] of an [n x inner] and an [inner x m] matrix. *)
Definition dot (a b : nat -> nat -> R) (inner : nat) : nat -> nat -> R :=
  fun s j => rsum inner (fun k => a s k * b k j).

(** [_slice] on a matrix: columns [n*dim .. (n+1)*dim - 1]. *)
Definition _slice (_x : nat -> nat -> R) (n dim : nat) : nat -> nat -> R :=
  fun s j => _x s (n * dim + j)%nat.

(** What [_step] returns: [h, c, i, f, o, preact]. *)
Record step_out := {
  out_h : nat -> nat -> R;
  out_c : nat -> nat -> R;
  out_i : nat -> nat -> R;
  out_f : nat -> nat -> R;
  out_o : nat -> nat -> R;
  out_preact : nat -> nat -> R
}.

Section layer.
Context (dim : nat) (U : nat -> nat -> R).

(** One time step of the lstm; [m_] is indexed by example, the matrices by
    example and unit. *)
Definition _step (m_ : nat -> R) (x_ h_ c_ : nat -> nat -> R) : step_out :=
  let preact := fun s j => dot h_ U dim s j + x_ s j in
  let i := fun s j => sigmoid (_slice preact 0 dim s j) in
  let f := fun s j => sigmoid (_slice preact 1 dim s j) in
  let o := fun s j => sigmoid (_slice preact 2 dim s j) in
  let c := fun s j => tanh (_slice preact 3 dim s j) in
  let c := fun s j => f s j * c_ s j + i s j * c s j in
  let c := fun s j => m_ s * c s j + (1 - m_ s) * c_ s j in
  let h := fun s j => o s j * tanh (c s j) in
  let h := fun s j => m_ s * h s j + (1 - m_ s) * h_ s j in
  {| out_h := h; out_c := c; out_i := i; out_f := f; out_o := o;
     out_preact := preact |}.

(** [theano.scan] of [_step] from the zero state: the hidden and cell state
    after [t] steps.  [mask] and [state_below] are indexed by time first;
    [state_below] is already projected by [W] and [b]. *)
Fixpoint scan (mask : nat -> nat -> R) (state_below : nat -> nat -> nat -> R)
    (t : nat) : (nat -> nat -> R) * (nat -> nat -> R) :=
  match t with
  | O => (fun _ _ => 0, fun _ _ => 0)
  | S t' =>
      let '(h_, c_) := scan mask state_below t' in
      let r := _step (mask t') (state_below t') h_ c_ in
      (out_h r, out_c r)
  end.

(** [lstm_layer]: [rval[0][t]] and [rval[1][t]], the states emitted at
    step [t]. *)
Definition lstm_layer (W : nat -> nat -> R) (b : nat -> R) (nin : nat)
    (state_below : nat -> nat -> nat -> R) (mask : option (nat -> nat -> R))
    (t : nat) : (nat -> nat -> R) * (nat -> nat -> R) :=
  let mask := match mask with Some m => m | None => fun _ _ => 1 end in
  let state_below := fun t s j => dot (state_below t) W nin s j + b j in
  scan mask state_below (S t).

End layer.

End Lstm.

(** ** The attention normalisation of [build_model] *)

Module Attention.
Import Tensor.
Local Open Scope R_scope.

Section attention.
(** Extents: premise steps, hypothesis steps, context width. *)
Context (n_timesteps_x1 n_timesteps_x2 dimctx : nat).
(** [ctx1], [ctx2]: step, sample, unit; masks: step, sample;
    [kb_att]: premise step, sample, hypothesis step. *)
Context (ctx1 ctx2 : nat -> nat -> nat -> R).
Context (x1_mask x2_mask : nat -> nat -> R).
Context (kb_att : nat -> nat -> nat -> R).
Context (attention_lambda : R).

(** [weight_matrix]: sample, premise step, hypothesis step. *)
Definition weight_matrix (i p h : nat) : R :=
  rsum dimctx (fun d => ctx1 p i d * ctx2 h i d)
  + attention_lambda * kb_att p i h.

(** [weight_matrix_1], [weight_matrix_2]: premise step, hypothesis step,
    sample. *)
Definition weight_matrix_1 (p h i : nat) : R :=
  exp (weight_matrix i p h
       - rmax n_timesteps_x1 (fun p' => weight_matrix i p' h))
  * x1_mask p i.

Definition weight_matrix_2 (p h i : nat) : R :=
  exp (weight_matrix i p h
       - rmax n_timesteps_x2 (fun h' => weight_matrix i p h'))
  * x2_mask h i.

Definition alpha (p h i : nat) : R :=
  weight_matrix_1 p h i / rsum n_timesteps_x1 (fun p' => weight_matrix_1 p' h i).

Definition beta (p h i : nat) : R :=
  weight_matrix_2 p h i / rsum n_timesteps_x2 (fun h' => weight_matrix_2 p h' i).

End attention.

(** *** Sample input

    One example with one premise step and two hypothesis steps, all valid,
    and all scores zero. *)

Definition sample_ctx : nat -> nat -> nat -> R := fun _ _ _ => 0.
Definition sample_mask : nat -> nat -> R := fun _ _ => 1.

End Attention.

(** ** The [rmsprop] optimizer *)

Module Rmsprop.
Local Open Scope R_scope.

(** A tensor is the list of its entries; the shared variables of the
    optimizer are kept in the order of [tparams]. *)
Record state := {
  tparams : list (list R);
  zipped_grads : list (list R);
  running_grads : list (list R);
  running_grads2 : list (list R);
  updir : list (list R)
}.

(** Entry-wise combination of two lists of tensors. *)
Definition map2 (f : R -> R -> R) (a b : list (list R)) : list (list R) :=
  zip_with (zip_with f) a b.

(** The updates of [f_grad_shared]: [zgup + rgup + rg2up]. *)
Definition f_grad_shared (grads : list (list R)) (st : state) : state :=
  {| tparams := tparams st;
     zipped_grads := zip_with (fun zg g => g) (zipped_grads st) grads;
     running_grads :=
       map2 (fun rg g => 0.95 * rg + 0.05 * g) (running_grads st) grads;
     running_grads2 :=
       map2 (fun rg2 g => 0.95 * rg2 + 0.05 * g ^ 2) (running_grads2 st) grads;
     updir := updir st |}.

(** One entry of [updir_new]. *)
Definition updir_new (ud zg rg rg2 : R) : R :=
  0.9 * ud - 1e-4 * zg / sqrt (rg2 - rg ^ 2 + 1e-4).

(** The updates of [f_update]: [updir_new + param_up]; every right-hand
    side reads the values from before the call. *)
Definition f_update (lr : R) (st : state) : state :=
  let udn :=
    zip_with (fun ud '(zg, (rg, rg2)) =>
      zip_with (fun ud '(zg, (rg, rg2)) => updir_new ud zg rg rg2)
        ud (zip zg (zip rg rg2)))
      (updir st)
      (zip (zipped_grads st) (zip (running_grads st) (running_grads2 st))) in
  {| tparams := map2 Rplus (tparams st) udn;
     zipped_grads := zipped_grads st;
     running_grads := running_grads st;
     running_grads2 := running_grads2 st;
     updir := udn |}.

(** Entry [j] of tensor [k]. *)
Definition entry (ts : list (list R)) (k j : nat) : option R :=
  match ts !! k with
  | Some t => t !! j
  | None => None
  end.

(** The moving variance estimate of the update rule. *)
Definition movingVar (rg rg2 : R) : R := rg2 - rg ^ 2.

End Rmsprop.

(** ** Gradient clipping in [train] *)

Module Clip.
Local Open Scope R_scope.

(** [(g**2).sum()] *)
Definition sumsq (g : list R) : R := foldr (fun e acc => e ^ 2 + acc) 0 g.

(** [g2]: the loop [for g in grads: g2 += (g**2).sum()]. *)
Definition g2 (grads : list (list R)) : R :=
  fold_left (fun acc g => acc + sumsq g) grads 0.

(** The block under [if clip_c > 0.]. *)
Definition clip (clip_c : R) (grads : list (list R)) : list (list R) :=
  if Rlt_dec 0 clip_c then
    let g2 := g2 grads in
    map (fun g =>
           if Rlt_dec (clip_c ^ 2) g2
           then map (fun e => e / sqrt g2 * clip_c) g
           else g) grads
  else grads.

(** The global L2 norm of the concatenated gradients. *)
Definition norm (grads : list (list R)) : R := sqrt (g2 grads).

End Clip.

(** ** The control loop of [train] *)

Module Train.
Import Batch.

(** *** Floating-point values

    Costs and accuracies are floats; what the loop observes of them is
    their order and whether they are NaN or infinite.  Finite values are
    rationals. *)

Inductive float :=
  | Fin (q : Q)
  | Inf (positive : bool)
  | NaN.

Definition isnan (a : float) : bool :=
  match a with NaN => true | _ => false end.

Definition isinf (a : float) : bool :=
  match a with Inf _ => true | _ => false end.

(** [a <= b]; false when either side is NaN. *)
Definition fle (a b : float) : bool :=
  match a, b with
  | NaN, _ => false
  | _, NaN => false
  | Inf false, _ => true
  | _, Inf true => true
  | Inf true, _ => false
  | _, Inf false => false
  | Fin p, Fin q => Qle_bool p q
  end.

(** [a > b]; false when either side is NaN. *)
Definition fgt (a b : float) : bool :=
  match a, b with
  | NaN, _ => false
  | _, NaN => false
  | Inf false, _ => false
  | _, Inf true => false
  | Inf true, _ => true
  | _, Inf false => true
  | Fin p, Fin q => negb (Qle_bool p q)
  end.

(** [1.0 - a] *)
Definition one_minus (a : float) : float :=
  match a with
  | Fin q => Fin (1 - q)
  | Inf s => Inf (negb s)
  | NaN => NaN
  end.

(** [numpy.array(l).min()]: NaN propagates; an empty array raises. *)
Definition fmin (a b : float) : float :=
  if isnan a then NaN else if isnan b then NaN
  else if fle a b then a else b.

Definition array_min (l : list float) : py float :=
  match l with
  | [] => raise ValueError
  | a :: l' => ret (foldl fmin a l')
  end.

(** [numpy.mod(a, b)]; the remainder by zero is zero. *)
Definition numpy_mod (a b : Z) : Z :=
  if decide (b = 0%Z) then 0%Z else (a mod b)%Z.

(** *** State and configuration *)

(** What a run leaves behind, in order: parameter updates with the
    learning rate passed, skipped batches, checkpoints, validations with
    their error, learning-rate halvings, debugger breakpoints and the
    non-finite cost message. *)
Inductive event :=
  | EvUpdate (lr : Q)
  | EvSkip
  | EvSave
  | EvValid (valid_err : float)
  | EvHalve
  | EvDebugger
  | EvNaN.

Record config := {
  patience : Z;
  max_epochs : nat;
  finish_after : Z;
  validFreq : Z;
  saveFreq : Z;
  maxlen : option Z;
  model_options : options;
  kb_dict : gmap Z (gmap Z (list Q))
}.

Definition wait_N : Z := 1.

(** One mini-batch of the iterator: [x1, x2, x1_lemma, x2_lemma, y]. *)
Definition minibatch : Type :=
  list (list Z) * list (list Z) * list (list Z) * list (list Z) * list Z.

Section loop.
(** [M] is the state of the compiled graph: the shared variables of the
    model and of the optimizer, and the dropout switch.  [params] is a
    snapshot of the parameters as plain arrays. *)
Context {M params : Type}.
Context (f_grad_shared : list pyval -> M -> float * M).
Context (f_update : Q -> M -> M).
Context (use_noise : Q -> M -> M).
Context (unzip : M -> params).
Context (zipp : params -> M -> M).
Context (pred_acc : M -> float).

Record tstate := {
  uidx : Z;
  lrate : Q;
  history_errs : list float;
  best_p : option params;
  bad_counter : Z;
  wait_counter : Z;
  best_epoch_num : nat;
  lr_change_list : list nat;
  n_samples : nat;
  machine : M;
  trace : list event
}.

Definition set_uidx (v : Z) (st : tstate) : tstate :=
  {| uidx := v; lrate := lrate st; history_errs := history_errs st;
     best_p := best_p st; bad_counter := bad_counter st;
     wait_counter := wait_counter st; best_epoch_num := best_epoch_num st;
     lr_change_list := lr_change_list st; n_samples := n_samples st;
     machine := machine st; trace := trace st |}.

Definition set_history_errs (v : list float) (st : tstate) : tstate :=
  {| uidx := uidx st; lrate := lrate st; history_errs := v;
     best_p := best_p st; bad_counter := bad_counter st;
     wait_counter := wait_counter st; best_epoch_num := best_epoch_num st;
     lr_change_list := lr_change_list st; n_samples := n_samples st;
     machine := machine st; trace := trace st |}.

Definition set_wait_counter (v : Z) (st : tstate) : tstate :=
  {| uidx := uidx st; lrate := lrate st; history_errs := history_errs st;
     best_p := best_p st; bad_counter := bad_counter st;
     wait_counter := v; best_epoch_num := best_epoch_num st;
     lr_change_list := lr_change_list st; n_samples := n_samples st;
     machine := machine st; trace := trace st |}.

Definition set_n_samples (v : nat) (st : tstate) : tstate :=
  {| uidx := uidx st; lrate := lrate st; history_errs := history_errs st;
     best_p := best_p st; bad_counter := bad_counter st;
     wait_counter := wait_counter st; best_epoch_num := best_epoch_num st;
     lr_change_list := lr_change_list st; n_samples := v;
     machine := machine st; trace := trace st |}.

Definition set_machine (v : M) (st : tstate) : tstate :=
  {| uidx := uidx st; lrate := lrate st; history_errs := history_errs st;
     best_p := best_p st; bad_counter := bad_counter st;
     wait_counter := wait_counter st; best_epoch_num := best_epoch_num st;
     lr_change_list := lr_change_list st; n_samples := n_samples st;
     machine := v; trace := trace st |}.

Definition log (e : event) (st : tstate) : tstate :=
  {| uidx := uidx st; lrate := lrate st; history_errs := history_errs st;
     best_p := best_p st; bad_counter := bad_counter st;
     wait_counter := wait_counter st; best_epoch_num := best_epoch_num st;
     lr_change_list := lr_change_list st; n_samples := n_samples st;
     machine := machine st; trace := trace st ++ [e] |}.

(** [best_p = unzip(tparams); best_epoch_num = eidx; wait_counter = 0] *)
Definition snapshot_best (eidx : nat) (st : tstate) : tstate :=
  {| uidx := uidx st; lrate := lrate st; history_errs := history_errs st;
     best_p := Some (unzip (machine st)); bad_counter := bad_counter st;
     wait_counter := 0%Z; best_epoch_num := eidx;
     lr_change_list := lr_change_list st; n_samples := n_samples st;
     machine := machine st; trace := trace st |}.

(** *** The validation block *)

(** The two tests of the new validation error against the history. *)
Definition record_result (eidx : nat) (valid_err : float) (st : tstate)
    : py tstate :=
  bind (array_min (history_errs st)) (fun m =>
  let st :=
    if bool_decide (uidx st = 0%Z) || fle valid_err m
    then snapshot_best eidx st else st in
  bind (array_min (history_errs st)) (fun m =>
  ret (if fgt valid_err m
       then set_wait_counter (wait_counter st + 1)%Z st else st))).

(** The block under [if wait_counter >= wait_N]. *)
Definition decay (eidx : nat) (st : tstate) : py tstate :=
  if bool_decide (wait_counter st >= wait_N)%Z then
    match best_p st with
    | None => raise AttributeError
    | Some bp =>
        ret {| uidx := uidx st; lrate := (lrate st * 0.5)%Q;
               history_errs := history_errs st; best_p := best_p st;
               bad_counter := (bad_counter st + 1)%Z; wait_counter := 0%Z;
               best_epoch_num := best_epoch_num st;
               lr_change_list := lr_change_list st ++ [eidx];
               n_samples := n_samples st; machine := zipp bp (machine st);
               trace := trace st ++ [EvHalve] |}
    end
  else ret st.

(** The block under [if numpy.mod(uidx, validFreq) == 0], given the
    validation accuracy; the flag tells whether the loop breaks with
    [estop = True].  The validation and test costs and the test accuracy
    are only printed there and are left out.  [pdb.set_trace()] is
    recorded as [EvDebugger]; what is done in the debugger is not the
    program's, and the check is taken to go on from there.  No accuracy
    that [pred_acc] computes leads to it ([TrainAbort]). *)
Definition validate (cfg : config) (eidx : nat) (valid_acc : float)
    (st : tstate) : py (tstate * bool) :=
  let valid_err := one_minus valid_acc in
  let st := set_history_errs (history_errs st ++ [valid_err]) st in
  let st := log (EvValid valid_err) st in
  bind (record_result eidx valid_err st) (fun st =>
  bind (decay eidx st) (fun st =>
  if bool_decide (bad_counter st > patience cfg)%Z then ret (st, true)
  else ret (if isnan valid_err then log EvDebugger st else st, false))).

(** *** The loop over the mini-batches *)

(** How the body of the inner loop ends: falls through or [continue],
    [break] with [estop = True], or [return None]. *)
Inductive flow :=
  | Next (st : tstate)
  | Break (st : tstate)
  | Return (st : tstate).

(** The part of the body after the test of the cost: checkpoint,
    validation, update budget. *)
Definition after_update (cfg : config) (eidx : nat) (st : tstate) : py flow :=
  let st :=
    if bool_decide (numpy_mod (uidx st) (saveFreq cfg) = 0%Z)
    then log EvSave st else st in
  bind (if bool_decide (numpy_mod (uidx st) (validFreq cfg) = 0%Z)
        then
          let st := set_machine (use_noise 0%Q (machine st)) st in
          validate cfg eidx (pred_acc (machine st)) st
        else ret (st, false)) (fun '(st, estop) =>
  if estop then ret (Break st)
  else if bool_decide (uidx st >= finish_after cfg)%Z
       then ret (Break st)
       else ret (Next st)).

(** The body of the loop over the mini-batches; timing and progress
    messages are left out. *)
Definition body (cfg : config) (eidx : nat) (mb : minibatch) (st : tstate)
    : py flow :=
  let '(x1, x2, x1_lemma, x2_lemma, y) := mb in
  let st := set_n_samples (n_samples st + length x1) st in
  let st := set_uidx (uidx st + 1)%Z st in
  let st := set_machine (use_noise 1%Q (machine st)) st in
  bind (prepare_data x1 x2 x1_lemma x2_lemma y (model_options cfg)
          (kb_dict cfg) (maxlen cfg)) (fun prepared =>
  match prepared with
  | [x1; x1_mask; x1_kb; x2; x2_mask; x2_kb; kb_att; y] =>
      match x1 with
      | PyNone => ret (Next (log EvSkip (set_uidx (uidx st - 1)%Z st)))
      | _ =>
          let '(cost, m) := f_grad_shared prepared (machine st) in
          let st := log (EvUpdate (lrate st))
                      (set_machine (f_update (lrate st) m) st) in
          if isnan cost || isinf cost then ret (Return (log EvNaN st))
          else after_update cfg eidx st
      end
  | _ => raise ValueError
  end).

(** [for x1, x2, x1_lemma, x2_lemma, y in train: ...] *)
Fixpoint batches (cfg : config) (eidx : nat) (mbs : list minibatch)
    (st : tstate) : py flow :=
  match mbs with
  | [] => ret (Next st)
  | mb :: rest =>
      bind (body cfg eidx mb st) (fun f =>
      match f with
      | Next st => batches cfg eidx rest st
      | _ => ret f
      end)
  end.

(** [for eidx in range(max_epochs): ...]; [train_data eidx] is what the
    iterator serves in epoch [eidx]. *)
Fixpoint epochs (cfg : config) (train_data : nat -> list minibatch)
    (eidxs : list nat) (st : tstate) : py flow :=
  match eidxs with
  | [] => ret (Next st)
  | eidx :: rest =>
      let st := set_n_samples 0 st in
      bind (batches cfg eidx (train_data eidx) st) (fun f =>
      match f with
      | Next st => epochs cfg train_data rest st
      | _ => ret f
      end)
  end.

(** [train]: the loops, then the restore of the best parameters and the
    final save; the returned value is [None] on every path that
    returns. *)
Definition train (cfg : config) (train_data : nat -> list minibatch)
    (st : tstate) : py (pyval * tstate) :=
  bind (epochs cfg train_data (seq 0 (max_epochs cfg)) st) (fun f =>
  match f with
  | Return st => ret (PyNone, st)
  | Next st | Break st =>
      match best_p st with
      | Some bp => ret (PyNone, log EvSave (set_machine (zipp bp (machine st)) st))
      | None => raise TypeError
      end
  end).

(** A run of validation checks on the accuracies [accs]: the state after
    the last check made, whether that check stopped the loop, and the
    accuracies left unchecked. *)
Fixpoint checks (cfg : config) (eidx : nat) (accs : list float) (st : tstate)
    : py (tstate * bool * list float) :=
  match accs with
  | [] => ret (st, false, [])
  | a :: rest =>
      bind (validate cfg eidx a st) (fun '(st, estop) =>
      if estop then ret (st, true, rest) else checks cfg eidx rest st)
  end.

(** Every accuracy of [accs] gives an error above the minimum of the
    history it is appended to. *)
Fixpoint worsening (hist : list float) (accs : list float) : Prop :=
  match accs with
  | [] => True
  | a :: rest =>
      (exists m, array_min (hist ++ [one_minus a]) = inr m /\
                 fgt (one_minus a) m = true) /\
      worsening (hist ++ [one_minus a]) rest
  end.

(** The state after one learning-rate decay. *)
Definition decayed (eidx : nat) (bp : params) (st : tstate) : tstate :=
  {| uidx := uidx st; lrate := (lrate st * 0.5)%Q;
     history_errs := history_errs st; best_p := best_p st;
     bad_counter := (bad_counter st + 1)%Z; wait_counter := 0%Z;
     best_epoch_num := best_epoch_num st;
     lr_change_list := lr_change_list st ++ [eidx];
     n_samples := n_samples st; machine := zipp bp (machine st);
     trace := trace st ++ [EvHalve] |}.

End loop.


(** *** Sample run

    The graph state counts the updates applied; the cost is always 1; the
    validation accuracy is 0.5 after the first update and 0.25 in every
    other state of the graph. *)

Definition sample_f_grad_shared (prepared : list pyval) (m : nat) : float * nat :=
  (Fin 1, m).
Definition sample_f_update (lr : Q) (m : nat) : nat := S m.
Definition sample_use_noise (v : Q) (m : nat) : nat := m.
Definition sample_unzip (m : nat) : nat := m.
Definition sample_zipp (p m : nat) : nat := p.
Definition sample_pred_acc (m : nat) : float :=
  if Nat.eqb m 1 then Fin 0.5 else Fin 0.25.

Definition sample_config : config :=
  {| patience := 1; max_epochs := 1; finish_after := 100; validFreq := 1;
     saveFreq := 1000; maxlen := Some 3%Z; model_options := sample_options;
     kb_dict := sample_kb_dict |}.

(** A mini-batch whose only example has a premise of length 3, and one
    whose only example has length 1 on both sides. *)
Definition long_minibatch : minibatch :=
  ([[1; 2; 3]], [[4]], [[7; 8; 7]], [[9]], [0])%Z.
Definition short_minibatch : minibatch :=
  ([[4]], [[5]], [[8]], [[9]], [1])%Z.

(** What [prepare_data] returns for [short_minibatch]. *)
Definition short_batch : batch :=
  {| x := [[4]]%Z; x_mask := [[1]]%Q; kb_x := [[[[0; 0]]]]%Q;
     y := [[5]]%Z; y_mask := [[1]]%Q; kb_y := [[[[0; 0]]]]%Q;
     kb_att := [[[0]]]%Q; l := [1]%Z |}.

(** The state in which [train] enters its loops. *)
Definition initial (lrate : Q) (m : nat) : @tstate nat nat :=
  {| uidx := 0; lrate := lrate; history_errs := []; best_p := None;
     bad_counter := 0; wait_counter := 0; best_epoch_num := 0;
     lr_change_list := []; n_samples := 0; machine := m; trace := [] |}.

(** A state in the middle of a run, with one validation error recorded. *)
Definition midrun : @tstate nat nat :=
  {| uidx := 5; lrate := 0.01; history_errs := [Fin 0.1]; best_p := Some 7;
     bad_counter := 0; wait_counter := 0; best_epoch_num := 0;
     lr_change_list := []; n_samples := 80; machine := 9; trace := [] |}.

End Train.

(** ** Loading parameters from an archive *)

Module Archive.
Import Store.

Section archive.
Context {tensor : Type}.

(** The loop of [load_params]; [pp] is the archive that [numpy.load]
    returned, [items] what is left of [params.items()].  The second
    component collects the keys that the loop warned about. *)
Fixpoint load_params_loop (pp : gmap string tensor) (items : odict tensor)
    (params : odict tensor) (warned : list string)
    : odict tensor * list string :=
  match items with
  | [] => (params, warned)
  | (kk, vv) :: rest =>
      match pp !! kk with
      | None => load_params_loop pp rest params (warned ++ [kk])
      | Some a => load_params_loop pp rest (od_set params kk a) warned
      end
  end.

Definition load_params (pp : gmap string tensor) (params : odict tensor)
    : odict tensor * list string :=
  load_params_loop pp params params [].

End archive.

End Archive.

(** ** The errors of array indexing and assignment *)

Module ArrayError.

(** [IndexError] or [ValueError]. *)
Definition array_error (e : exn) : Prop := e = IndexError \/ e = ValueError.

End ArrayError.

(** ** The length filter of [prepare_data] *)

Module Filter.

(** [l_x < maxlen and l_y < maxlen] for a pair of a premise and a
    hypothesis. *)
Definition passes (maxlen : Z) (p : list Z * list Z) : bool :=
  bool_decide (Z.of_nat (length p.1) < maxlen)%Z
  && bool_decide (Z.of_nat (length p.2) < maxlen)%Z.

(** The pairs that pass, in their order. *)
Definition passing (maxlen : Z) (seqs_x seqs_y : list (list Z))
    : list (list Z * list Z) :=
  List.filter (passes maxlen) (zip seqs_x seqs_y).

End Filter.

(** ** Shapes of the batch arrays *)

Module Shape.

(** [m.shape == (d1, d2)] and so on for ranks 3 and 4. *)
Definition shape2 {A} (d1 d2 : nat) (m : list (list A)) : Prop :=
  length m = d1 /\ Forall (fun row => length row = d2) m.

Definition shape3 {A} (d1 d2 d3 : nat) (t : list (list (list A))) : Prop :=
  length t = d1 /\ Forall (shape2 d2 d3) t.

Definition shape4 {A} (d1 d2 d3 d4 : nat) (t : list (list (list (list A))))
    : Prop :=
  length t = d1 /\ Forall (shape3 d2 d3 d4) t.

End Shape.

(** ** The shapes that [prepare_data] allocates *)

Module BatchShape.
Import Batch Shape.

(** The eight arrays of a batch of [n] examples with [Lx] premise steps,
    [Ly] hypothesis steps and knowledge vectors of width [dim]. *)
Definition batch_shape (Lx Ly n dim : nat) (b : batch) : Prop :=
  shape2 Lx n (x b) /\ shape2 Lx n (x_mask b) /\
  shape4 Lx n Ly dim (kb_x b) /\
  shape2 Ly n (y b) /\ shape2 Ly n (y_mask b) /\
  shape4 Ly n Lx dim (kb_y b) /\
  shape3 Lx n Ly (kb_att b) /\
  length (l b) = n.

End BatchShape.

(** ** The knowledge vectors of a batch *)

Module Knowledge.
Import Batch.

(** What [kb[sid, idx, tid, :] = v] leaves in a cell of width [dim]: [v]
    itself, or its only element at every position. *)
Definition expand (dim : nat) (v : list Q) : list Q :=
  if decide (length v = dim) then v
  else match v with
       | [a] => replicate dim a
       | _ => []
       end.

(** The cell for the lemma pair [(s, t)]: the expanded vector of
    [kb_dict[s][t]], or zeros when the table has no such entry. *)
Definition cell (kb_dict : gmap Z (gmap Z (list Q))) (dim : nat) (s t : Z)
    : list Q :=
  match kb_dict !! s with
  | Some row =>
      match row !! t with
      | Some v => expand dim v
      | None => replicate dim 0%Q
      end
  | None => replicate dim 0%Q
  end.

(** [kb_x[p, i, h]]: the premise lemma at [p] towards the hypothesis lemma
    at [h]. *)
Definition knowledge_x (kb_dict : gmap Z (gmap Z (list Q))) (dim : nat)
    (exs : list (list Z * (list Z * (list Z * (list Z * Z))))) (p i h : nat)
    : list Q :=
  match exs !! i with
  | Some (_, (_, (s_xl, (s_yl, _)))) =>
      match s_xl !! p, s_yl !! h with
      | Some s, Some t => cell kb_dict dim s t
      | _, _ => replicate dim 0%Q
      end
  | None => replicate dim 0%Q
  end.

(** [kb_y[h, i, p]]: the hypothesis lemma at [h] towards the premise lemma
    at [p]. *)
Definition knowledge_y (kb_dict : gmap Z (gmap Z (list Q))) (dim : nat)
    (exs : list (list Z * (list Z * (list Z * (list Z * Z))))) (h i p : nat)
    : list Q :=
  match exs !! i with
  | Some (_, (_, (s_xl, (s_yl, _)))) =>
      match s_yl !! h, s_xl !! p with
      | Some s, Some t => cell kb_dict dim s t
      | _, _ => replicate dim 0%Q
      end
  | None => replicate dim 0%Q
  end.

(** [t] holds [val] at the positions already visited and [zero] at the
    others. *)
Definition tracks {V} (val : nat -> nat -> nat -> V) (zero : V)
    (visited : nat -> nat -> nat -> Prop) (t : list (list (list V))) : Prop :=
  forall a b c v, get3 t a b c = Some v ->
    (visited a b c -> v = val a b c) /\ (~ visited a b c -> v = zero).

End Knowledge.

(** ** The optimizers: initial shared variables and runs *)

Module Optimizer.
Local Open Scope R_scope.

(** [p.get_value() * 0.] for every parameter. *)
Definition zeros_like (ps : list (list R)) : list (list R) :=
  map (map (fun p => p * 0)) ps.

(** Every entry of every tensor satisfies [P]. *)
Definition all_entries (P : R -> Prop) (ts : list (list R)) : Prop :=
  Forall (Forall P) ts.




End Optimizer.

(** ** The [sgd] optimizer *)

Module Sgd.
Import Optimizer.
Local Open Scope R_scope.

Record state := {
  tparams : list (list R);
  gshared : list (list R)
}.

Definition sgd (params : list (list R)) : state :=
  {| tparams := params; gshared := zeros_like params |}.

(** The updates of [f_grad_shared]: [gsup]. *)
Definition f_grad_shared (grads : list (list R)) (st : state) : state :=
  {| tparams := tparams st;
     gshared := zip_with (fun gs g => g) (gshared st) grads |}.

(** The updates of [f_update]: [pup]. *)
Definition f_update (lr : R) (st : state) : state :=
  {| tparams := Rmsprop.map2 (fun p g => p - lr * g) (tparams st) (gshared st);
     gshared := gshared st |}.

End Sgd.

(** ** The [adadelta] optimizer *)

Module Adadelta.
Import Optimizer.
Local Open Scope R_scope.

Record state := {
  tparams : list (list R);
  zipped_grads : list (list R);
  running_up2 : list (list R);
  running_grads2 : list (list R)
}.

Definition adadelta (params : list (list R)) : state :=
  {| tparams := params; zipped_grads := zeros_like params;
     running_up2 := zeros_like params; running_grads2 := zeros_like params |}.

(** The updates of [f_grad_shared]: [zgup + rg2up]. *)
Definition f_grad_shared (rho : R) (grads : list (list R)) (st : state) : state :=
  {| tparams := tparams st;
     zipped_grads := zip_with (fun zg g => g) (zipped_grads st) grads;
     running_up2 := running_up2 st;
     running_grads2 :=
       Rmsprop.map2 (fun rg2 g => rho * rg2 + (1 - rho) * g ^ 2)
         (running_grads2 st) grads |}.

(** One entry of [updir]. *)
Definition ud (epsilon zg ru2 rg2 : R) : R :=
  - sqrt (ru2 + epsilon) / sqrt (rg2 + epsilon) * zg.

Definition updir (epsilon : R) (st : state) : list (list R) :=
  zip_with (fun zg '(ru2, rg2) =>
    zip_with (fun zg '(ru2, rg2) => ud epsilon zg ru2 rg2) zg (zip ru2 rg2))
    (zipped_grads st) (zip (running_up2 st) (running_grads2 st)).

(** The updates of [f_update]: [ru2up + param_up]; every right-hand side
    reads the values from before the call, and [lr] is not used. *)
Definition f_update (epsilon rho : R) (lr : R) (st : state) : state :=
  {| tparams := Rmsprop.map2 Rplus (tparams st) (updir epsilon st);
     zipped_grads := zipped_grads st;
     running_up2 :=
       Rmsprop.map2 (fun ru2 ud => rho * ru2 + (1 - rho) * ud ^ 2)
         (running_up2 st) (updir epsilon st);
     running_grads2 := running_grads2 st |}.

Definition run (epsilon rho : R) (calls : list (list (list R) * R)) (st : state)
    : state :=
  foldl (fun st '(grads, lr) =>
           f_update epsilon rho lr (f_grad_shared rho grads st)) st calls.

(** Both accumulators hold no negative entry. *)
Definition accumulators_ok (st : state) : Prop :=
  all_entries (fun r => 0 <= r) (running_up2 st) /\
  all_entries (fun r => 0 <= r) (running_grads2 st).

End Adadelta.

(** ** The [adam] optimizer *)

Module Adam.
Import Optimizer.
Local Open Scope R_scope.

(** [t_prev] counts the updates made; it only ever holds a whole
    number. *)
Record state := {
  tparams : list (list R);
  gshared : list (list R);
  m : list (list R);
  v : list (list R);
  t_prev : nat
}.

Definition adam (params : list (list R)) : state :=
  {| tparams := params; gshared := zeros_like params;
     m := zeros_like params; v := zeros_like params; t_prev := 0 |}.

(** The updates of [f_grad_shared]: [gsup]. *)
Definition f_grad_shared (grads : list (list R)) (st : state) : state :=
  {| tparams := tparams st;
     gshared := zip_with (fun gs g => g) (gshared st) grads;
     m := m st; v := v st; t_prev := t_prev st |}.

Definition lr_t (beta1 beta2 lr : R) (t : nat) : R :=
  lr * sqrt (1 - beta2 ^ t) / (1 - beta1 ^ t).

Definition m_t (beta1 m g : R) : R := beta1 * m + (1 - beta1) * g.
Definition v_t (beta2 v g : R) : R := beta2 * v + (1 - beta2) * g ^ 2.

(** One entry of [p_t]. *)
Definition p_t (beta1 beta2 e lr_t p g m v : R) : R :=
  p - lr_t * m_t beta1 m g / (sqrt (v_t beta2 v g) + e).

(** The updates of [f_update]; every right-hand side reads the values from
    before the call. *)
Definition f_update (beta1 beta2 e : R) (lr : R) (st : state) : state :=
  let t := S (t_prev st) in
  let lr_t := lr_t beta1 beta2 lr t in
  {| tparams :=
       zip_with (fun p '(g, (m, v)) =>
         zip_with (fun p '(g, (m, v)) => p_t beta1 beta2 e lr_t p g m v)
           p (zip g (zip m v)))
         (tparams st) (zip (gshared st) (zip (m st) (v st)));
     gshared := gshared st;
     m := Rmsprop.map2 (m_t beta1) (m st) (gshared st);
     v := Rmsprop.map2 (v_t beta2) (v st) (gshared st);
     t_prev := t |}.

Definition run (beta1 beta2 e : R) (calls : list (list (list R) * R)) (st : state)
    : state :=
  foldl (fun st '(grads, lr) =>
           f_update beta1 beta2 e lr (f_grad_shared grads st)) st calls.

End Adam.

(** ** Attended contexts and pooling in [build_model] *)

Module Model.
Import Tensor.
Local Open Scope R_scope.

(** [ctx2_ = (ctx1 * alpha).sum(0)]: hypothesis step, sample, unit. *)
Definition ctx2_ (n_timesteps_x1 : nat) (ctx1 alpha : nat -> nat -> nat -> R)
    (h i d : nat) : R :=
  rsum n_timesteps_x1 (fun p => ctx1 p i d * alpha p h i).

(** [ctx1_ = (ctx2 * beta).sum(1)]: premise step, sample, unit. *)
Definition ctx1_ (n_timesteps_x2 : nat) (ctx2 beta : nat -> nat -> nat -> R)
    (p i d : nat) : R :=
  rsum n_timesteps_x2 (fun h => ctx2 h i d * beta p h i).

(** [logit1], [logit3]: [(ctx * mask[:, :, None]).sum(0) / mask.sum(0)[:, None]] *)
Definition mean_pool (n : nat) (ctx : nat -> nat -> nat -> R)
    (mask : nat -> nat -> R) (i d : nat) : R :=
  rsum n (fun t => ctx t i d * mask t i) / rsum n (fun t => mask t i).

(** [logit2], [logit4]: [(ctx * mask[:, :, None]).max(0)] *)
Definition max_pool (n : nat) (ctx : nat -> nat -> nat -> R)
    (mask : nat -> nat -> R) (i d : nat) : R :=
  rmax n (fun t => ctx t i d * mask t i).

(** [gate_kb = exp(gate_kb - gate_kb.max(0, keepdims=True))] *)
Definition gate_kb (n : nat) (gate : nat -> nat -> R) (t i : nat) : R :=
  exp (gate t i - rmax n (fun t' => gate t' i)).

(** [gate_1], [gate_2]:
    [(ctx * gate_kb[:, :, None] * mask[:, :, None]).sum(0)
     / (gate_kb * mask).sum(0)[:, None]] *)
Definition gate_pool (n : nat) (ctx : nat -> nat -> nat -> R)
    (gate mask : nat -> nat -> R) (i d : nat) : R :=
  rsum n (fun t => ctx t i d * gate_kb n gate t i * mask t i)
  / rsum n (fun t => gate_kb n gate t i * mask t i).

End Model.

(** ** What a run of [train] accounts for *)

Module TrainTrace.
Import Train.

Definition is_update (e : event) : bool :=
  match e with EvUpdate _ => true | _ => false end.

Definition is_halve (e : event) : bool :=
  match e with EvHalve => true | _ => false end.

(** The parameter updates and the learning-rate halvings of a trace. *)
Definition updates (tr : list event) : nat := length (List.filter is_update tr).
Definition halvings (tr : list event) : nat := length (List.filter is_halve tr).

(** The state in which the body of the loop ends. *)
Definition final {M params} (f : @flow M params) : @tstate M params :=
  match f with
  | Next st | Break st | Return st => st
  end.

(** From [st] to [st'] the run has left the events [tr]: the update
    counter has moved by the updates of [tr]; the bad counter and the list
    of learning-rate changes have grown, and the learning rate has been
    halved, once for each halving of [tr]. *)
Definition accounts {M params} (tr : list event) (st st' : @tstate M params)
    : Prop :=
  trace st' = trace st ++ tr /\
  uidx st' = (uidx st + Z.of_nat (updates tr))%Z /\
  bad_counter st' = (bad_counter st + Z.of_nat (halvings tr))%Z /\
  lrate st' = Nat.iter (halvings tr) (fun q => (q * 0.5)%Q) (lrate st) /\
  exists eidxs, lr_change_list st' = lr_change_list st ++ eidxs /\
                length eidxs = halvings tr.

(** The loop has not used up its update budget nor its patience. *)
Definition within_budget {M params} (cfg : config) (st : @tstate M params)
    : Prop :=
  (uidx st < finish_after cfg)%Z /\ (bad_counter st <= patience cfg)%Z.

(** What holds when the loops are left. *)
Definition budget_kept {M params} (cfg : config) (st : @tstate M params)
    : Prop :=
  (uidx st <= finish_after cfg)%Z /\ (bad_counter st <= patience cfg + 1)%Z.

(** The budget at the end of the body: it holds strictly where the loop
    goes on. *)
Definition flow_budget {M params} (cfg : config) (f : @flow M params) : Prop :=
  match f with
  | Next st => within_budget cfg st
  | Break st | Return st => budget_kept cfg st
  end.

(** No snapshot was taken only if no validation error can compare: the
    history is empty or holds a NaN; and no halving is pending. *)
Definition fresh {M params} (st : @tstate M params) : Prop :=
  (wait_counter st < wait_N)%Z /\
  (best_p st = None ->
   history_errs st = [] \/ array_min (history_errs st) = inr NaN).

End TrainTrace.

(** ** [pred_acc] *)

Module Accuracy.
Import Batch.

(** [ZeroDivisionError], besides the exceptions of the batch code. *)
Inductive error :=
  | Raised (e : exn)
  | ZeroDivisionError.

(** [(preds == y).sum()]: the positions at which the prediction and the
    label agree. *)
Fixpoint agreements (preds y : list Z) : Z :=
  match preds, y with
  | p :: preds', v :: y' =>
      ((if decide (p = v) then 1 else 0) + agreements preds' y')%Z
  | _, _ => 0%Z
  end.

Section pred_acc.
(** [f_pred]: the compiled prediction function, from the seven input
    arrays to one class for each example. *)
Context (f_pred : list pyval -> list Z).

(** The body of the loop over the iterator, on [valid_acc] and [n_done];
    [prepare_data] is called without [maxlen], and a result that is not
    eight arrays cannot be unpacked. *)
Definition pred_acc_body (options : options) (kb_dict : gmap Z (gmap Z (list Q)))
    (mb : Train.minibatch) (acc : Z * Z) : py (Z * Z) :=
  let '(x1, x2, x1_lemma, x2_lemma, y) := mb in
  let '(valid_acc, n_done) := acc in
  let n_done := (n_done + Z.of_nat (length x1))%Z in
  bind (prepare_data x1 x2 x1_lemma x2_lemma y options kb_dict None)
    (fun prepared =>
  match prepared with
  | [x1; x1_mask; x1_kb; x2; x2_mask; x2_kb; kb_att; PyInt1 y] =>
      let preds := f_pred [x1; x1_mask; x1_kb; x2; x2_mask; x2_kb; kb_att] in
      ret ((valid_acc + agreements preds y)%Z, n_done)
  | _ => raise ValueError
  end).

(** [valid_acc = 1.0 * valid_acc / n_done], as a rational. *)
Definition pred_acc (options : options) (kb_dict : gmap Z (gmap Z (list Q)))
    (iterator : list Train.minibatch) : error + Q :=
  match for_each (pred_acc_body options kb_dict) iterator (0%Z, 0%Z) with
  | inl e => inl (Raised e)
  | inr (valid_acc, n_done) =>
      if decide (n_done = 0%Z) then inl ZeroDivisionError
      else inr (valid_acc # Z.to_pos n_done)%Q
  end.

End pred_acc.

End Accuracy.

(** ** The examples of a batch, as the caller passes them *)

Module Aligned.
Import Batch.

(** Example [i] of the input: the [i]-th premise and hypothesis with the
    [i]-th lemma sequences and label.  The examples of the batch are those
    whose two lengths are below [maxlen], in order, each with its own lemma
    sequences and label. *)
Definition kept_examples (maxlen : option Z)
    (seqs_x seqs_y seqs_x_lemma seqs_y_lemma : list (list Z)) (labels : list Z)
    : list (list Z * (list Z * (list Z * (list Z * Z)))) :=
  let exs := zip seqs_x (zip seqs_y (zip seqs_x_lemma (zip seqs_y_lemma labels))) in
  match maxlen with
  | Some m =>
      List.filter
        (fun ex => bool_decide (Z.of_nat (length ex.1) < m)%Z
                   && bool_decide (Z.of_nat (length ex.2.1) < m)%Z) exs
  | None => exs
  end.

End Aligned.

(** ** A run that resumes from a saved history *)

Module Resumed.
Import Train.

(** The state in which [train] enters its loops with [reload_] set and an
    archive at [saveto] whose [history_errs] holds the one error 0.1: the
    history is reloaded, [best_p] is [None]. *)
Definition resumed (lrate : Q) (m : nat) : @tstate nat nat :=
  {| uidx := 0; lrate := lrate; history_errs := [Fin 0.1]; best_p := None;
     bad_counter := 0; wait_counter := 0; best_epoch_num := 0;
     lr_change_list := []; n_samples := 0; machine := m; trace := [] |}.

(** The same state with a snapshot of the parameters. *)
Definition resumed_with_snapshot (lrate : Q) (m bp : nat) : @tstate nat nat :=
  {| uidx := 0; lrate := lrate; history_errs := [Fin 0.1]; best_p := Some bp;
     bad_counter := 0; wait_counter := 0; best_epoch_num := 0;
     lr_change_list := []; n_samples := 0; machine := m; trace := [] |}.

End Resumed.

(** ** Non-finite values in the loop *)

Module TrainAbort.
Import Batch Train TrainTrace.

(** A value between 0 and 1, as [pred_acc] returns: the ratio of the
    agreements to the examples seen. *)
Definition ratio (a : float) : Prop :=
  exists q, a = Fin q /\ (0 <= q)%Q /\ (q <= 1)%Q.






End TrainAbort.

(** * Properties *)

(** ** Computations that return *)

Lemma bind_inr {A B} (m : py A) (k : A -> py B) (b : B) :
  bind m k = inr b -> exists a, m = inr a /\ k a = inr b.
Proof. destruct m as [e|a]; simpl; [discriminate | eauto]. Qed.

(** Invariant rule for a [for] loop that does not raise. *)
Lemma for_each_inv {A S} (body : A -> S -> py S) (P : S -> Prop) :
  forall (l : list A) (s s' : S),
    (forall a t t', a ∈ l -> P t -> body a t = inr t' -> P t') ->
    P s -> for_each body l s = inr s' -> P s'.
Proof.
  induction l as [|a l IH]; simpl; intros s s' Hbody Hs Hrun.
  - injection Hrun as <-. exact Hs.
  - apply bind_inr in Hrun as (t & Ht & Hrest).
    apply (IH t s'); [| |exact Hrest].
    + intros b u u' Hb. apply Hbody. apply elem_of_cons. by right.
    + apply (Hbody a s t); [apply elem_of_cons; by left | exact Hs | exact Ht].
Qed.

(** ** Parameter store: [unzip] after [zipp] *)

Module StoreSpec.
Import Store.

Section facts.
Context {tensor : Type}.
Implicit Types (params : odict tensor) (tparams : odict loc) (h : gmap loc tensor).

Lemma od_get_None {V} (d : odict V) k : od_get d k = None <-> k ∉ d.*1.
Proof.
  induction d as [|[k' v] d IH]; simpl.
  - split; [intros _; apply not_elem_of_nil | done].
  - rewrite elem_of_cons. destruct (decide (k = k')) as [->|Hne]; simpl.
    + split; [discriminate | intros H; destruct H; by left].
    + rewrite IH. tauto.
Qed.

Lemma od_get_is_Some {V} (d : odict V) k : is_Some (od_get d k) <-> k ∈ d.*1.
Proof.
  rewrite <- not_eq_None_Some, od_get_None.
  split; [apply dec_stable | tauto].
Qed.

Lemma od_get_elem {V} (d : odict V) k v : od_get d k = Some v -> (k, v) ∈ d.
Proof.
  induction d as [|[k' v'] d IH]; simpl; [discriminate|].
  destruct (decide (k = k')) as [->|Hne]; rewrite elem_of_cons.
  - intros [= ->]. by left.
  - intros H. right. by apply IH.
Qed.

Lemma od_set_fresh {V} (d : odict V) k v :
  k ∉ d.*1 -> od_set d k v = d ++ [(k, v)].
Proof.
  induction d as [|[k' v'] d IH]; simpl; [done|].
  rewrite elem_of_cons. intros Hk.
  destruct (decide (k = k')) as [->|Hne]; [tauto|].
  rewrite IH; [done | tauto].
Qed.

(** Two ordered dictionaries with the same key sequence and the same
    bindings are the same list. *)
Lemma od_ext {V} (d1 d2 : odict V) :
  d1.*1 = d2.*1 -> NoDup d1.*1 ->
  (forall k, od_get d1 k = od_get d2 k) -> d1 = d2.
Proof.
  revert d2. induction d1 as [|[k v] d1 IH]; intros [|[k' v'] d2]; simpl;
    try done.
  intros [= <- Hkeys] Hnd Hget. apply NoDup_cons in Hnd as [Hk Hnd].
  pose proof (Hget k) as Hk0. rewrite !decide_True in Hk0 by done.
  injection Hk0 as <-. f_equal. apply IH; [done | done |].
  intros k0. specialize (Hget k0).
  destruct (decide (k0 = k)) as [->|Hne]; [|done].
  transitivity (@None V); [|symmetry].
  - by apply od_get_None.
  - apply od_get_None. by replace (d2.*1) with (d1.*1) by exact Hkeys.
Qed.

(** After [zipp], the variable of a key holds the pushed value. *)
Lemma zipp_lookup params : forall tparams h h',
  NoDup params.*1 -> NoDup tparams.*2 ->
  zipp params tparams h = inr h' ->
  forall k l, od_get tparams k = Some l ->
    h' !! l = match od_get params k with Some v => Some v | None => h !! l end.
Proof.
  induction params as [|[kk vv] rest IH]; simpl; intros tparams h h' Hnd Hal Hz k l Hk.
  - by injection Hz as <-.
  - apply NoDup_cons in Hnd as [Hkk Hnd].
    destruct (od_get tparams kk) as [l0|] eqn:Hl0; [|discriminate].
    rewrite (IH tparams _ h' Hnd Hal Hz k l Hk).
    destruct (decide (k = kk)) as [->|Hne].
    + assert (od_get rest kk = None) as -> by by apply od_get_None.
      assert (l = l0) as -> by congruence. apply lookup_insert_eq.
    + destruct (od_get rest k); [done|].
      apply lookup_insert_ne. intros <-.
      apply od_get_elem in Hk, Hl0.
      apply list_elem_of_lookup in Hk as [i Hi], Hl0 as [j Hj].
      assert (i = j) as ->.
      { apply (NoDup_lookup (tparams.*2) i j l0); [done | |];
          rewrite list_lookup_fmap; [by rewrite Hi | by rewrite Hj]. }
      congruence.
Qed.

(** [zipp] raises only on a key that the store does not have. *)
Lemma zipp_returns params : forall tparams h,
  (forall k, k ∈ params.*1 -> k ∈ tparams.*1) ->
  exists h', zipp params tparams h = inr h'.
Proof.
  induction params as [|[kk vv] rest IH]; simpl; intros tparams h Hsub.
  - by eexists.
  - destruct (od_get tparams kk) as [l|] eqn:Hl.
    + apply IH. intros k Hk. apply Hsub, elem_of_cons. by right.
    + apply od_get_None in Hl. destruct Hl. apply Hsub, elem_of_cons. by left.
Qed.

(** [unzip] appends, in store order, what each variable holds. *)
Lemma unzip_loop_spec tparams : forall h acc,
  NoDup tparams.*1 -> (forall k, k ∈ tparams.*1 -> k ∉ acc.*1) ->
  (forall l, l ∈ tparams.*2 -> is_Some (h !! l)) ->
  exists out, unzip_loop tparams h acc = inr (acc ++ out)
    /\ Forall2 (pulled h) tparams out.
Proof.
  induction tparams as [|[kk vv] rest IH]; simpl; intros h acc Hnd Hfresh Hall.
  - exists []. by rewrite app_nil_r.
  - apply NoDup_cons in Hnd as [Hkk Hnd].
    destruct (Hall vv) as [a Ha]; [apply elem_of_cons; by left|].
    rewrite Ha, od_set_fresh by (apply Hfresh, elem_of_cons; by left).
    destruct (IH h (acc ++ [(kk, a)]) Hnd) as (out & Hout & Hrel).
    + intros k Hk. rewrite fmap_app, elem_of_app. simpl.
      rewrite list_elem_of_singleton. intros [Hacc | ->]; [|done].
      revert Hacc. apply Hfresh, elem_of_cons. by right.
    + intros l Hl. apply Hall, elem_of_cons. by right.
    + exists ((kk, a) :: out). rewrite Hout, <- app_assoc. split; [done|].
      constructor; [by split | done].
Qed.

Lemma pulled_get tparams (out : odict tensor) h k :
  Forall2 (pulled h) tparams out ->
  od_get out k = od_get tparams k ≫= (h !!.).
Proof.
  induction 1 as [|[k1 l] [k2 v] tparams out [Hk Hv] _ IH]; simpl in *; [done|].
  subst k2. destruct (decide (k = k1)); [done | exact IH].
Qed.

Lemma pulled_keys tparams (out : odict tensor) h :
  Forall2 (pulled h) tparams out -> out.*1 = tparams.*1.
Proof.
  induction 1 as [|[k1 l] [k2 v] tparams out [Hk Hv] _ IH]; simpl in *; [done|].
  f_equal; [symmetry; exact Hk | exact IH].
Qed.

Lemma od_get_of_elem {V} (d : odict V) k v :
  NoDup d.*1 -> (k, v) ∈ d -> od_get d k = Some v.
Proof.
  induction d as [|[k' v'] d IH]; simpl; intros Hnd Hin.
  - by apply elem_of_nil in Hin.
  - apply NoDup_cons in Hnd as [Hk' Hnd].
    apply elem_of_cons in Hin as [[= -> ->]|Hin]; [by rewrite decide_True|].
    rewrite decide_False; [by apply IH|].
    intros ->. apply Hk'. by apply (list_elem_of_fmap_2 fst) in Hin.
Qed.

Lemma unzip_zipp_store params tparams h :
  NoDup params.*1 -> NoDup tparams.*2 -> tparams.*1 ≡ₚ params.*1 ->
  exists h' out,
    zipp params tparams h = inr h' /\ unzip tparams h' = inr out /\
    (forall k, od_get out k = od_get params k) /\
    (tparams.*1 = params.*1 -> out = params).
Proof.
  intros Hnd Hal Hkeys.
  assert (NoDup tparams.*1) as Hndt by by rewrite Hkeys.
  destruct (zipp_returns params tparams h) as [h' Hz].
  { intros k Hk. by rewrite Hkeys. }
  pose proof (zipp_lookup params tparams h h' Hnd Hal Hz) as Hlook.
  assert (forall k l, od_get tparams k = Some l -> h' !! l = od_get params k) as Hval.
  { intros k l Hk. rewrite (Hlook k l Hk).
    destruct (od_get params k) eqn:Hp; [done|].
    apply od_get_None in Hp. destruct Hp. rewrite <- Hkeys.
    apply od_get_is_Some. by eexists. }
  destruct (unzip_loop_spec tparams h' [] Hndt) as (out & Hu & Hrel).
  { intros k _. apply not_elem_of_nil. }
  { intros l Hl. apply list_elem_of_fmap in Hl as ([k l'] & -> & Hin).
    simpl. rewrite (Hval k l') by by apply od_get_of_elem.
    apply od_get_is_Some. rewrite <- Hkeys. by apply (list_elem_of_fmap_2 fst) in Hin. }
  assert (forall k, od_get out k = od_get params k) as Hget.
  { intros k. rewrite (pulled_get tparams out h' k Hrel).
    destruct (od_get tparams k) as [l|] eqn:Hk; simpl; [by apply Hval|].
    symmetry. apply od_get_None. rewrite <- Hkeys. by apply od_get_None. }
  exists h', out. repeat split; [exact Hz | exact Hu | exact Hget |].
  intros Horder. apply od_ext; [| |exact Hget].
  - by rewrite (pulled_keys tparams out h' Hrel).
  - by rewrite (pulled_keys tparams out h' Hrel).
Qed.

(** C7. Pushing a parameter mapping into a store with the same keys, whose
    keys are bound to distinct shared variables, and pulling the store back
    returns the pushed value on every key; when the store lists the keys in
    the same order the pulled dictionary is the pushed one. *)
Theorem unzip_zipp params tparams h :
  NoDup params.*1 -> NoDup tparams.*2 -> tparams.*1 ≡ₚ params.*1 ->
  exists h' out,
    zipp params tparams h = inr h' /\ unzip tparams h' = inr out /\
    (forall k, od_get out k = od_get params k) /\
    (tparams.*1 = params.*1 -> out = params).
Proof. apply unzip_zipp_store. Qed.

(** [init_tparams] binds every key to a shared variable of its own, in the
    order of the parameters. *)
Lemma init_tparams_loop_spec (items : odict tensor) :
  forall (acc : odict loc) (h : gmap loc tensor),
    NoDup (acc.*1 ++ items.*1) -> NoDup acc.*2 ->
    (forall l, l ∈ acc.*2 -> l ∈ dom h) ->
    (init_tparams_loop items acc h).2.*1 = acc.*1 ++ items.*1 /\
    NoDup (init_tparams_loop items acc h).2.*2.
Proof.
  induction items as [|[kk pp] rest IH]; simpl; intros acc h Hnd Hal Hdom.
  - by rewrite app_nil_r.
  - assert (kk ∉ acc.*1) as Hkk.
    { apply NoDup_app in Hnd as (_ & Hdisj & _). intros Hin.
      apply (Hdisj kk Hin). apply elem_of_cons. by left. }
    rewrite od_set_fresh by done.
    destruct (IH (acc ++ [(kk, fresh (dom h))])
                (<[fresh (dom h) := pp]> h)) as [Hkeys Hlocs].
    + rewrite fmap_app, <- app_assoc. done.
    + rewrite fmap_app. apply NoDup_app. split; [done|]. split.
      * intros l Hl ->%list_elem_of_singleton.
        apply (is_fresh (dom h)). by apply Hdom.
      * apply NoDup_singleton.
    + intros l. rewrite fmap_app, elem_of_app, dom_insert_L.
      intros [Hl | ->%list_elem_of_singleton];
        [|apply elem_of_union; left; by apply elem_of_singleton].
      apply elem_of_union. right. by apply Hdom.
    + split; [|done]. rewrite Hkeys, fmap_app, <- app_assoc. done.
Qed.

(** The round trip on a store created by [init_tparams]: any parameter
    mapping with the keys of the initial one comes back unchanged. *)
Corollary unzip_zipp_init (params0 params : odict tensor) (h : gmap loc tensor) :
  NoDup params0.*1 -> params.*1 = params0.*1 ->
  exists h',
    zipp params (init_tparams params0 h).2 (init_tparams params0 h).1 = inr h' /\
    unzip (init_tparams params0 h).2 h' = inr params.
Proof.
  intros Hnd Hkeys. unfold init_tparams.
  destruct (init_tparams_loop_spec params0 [] h) as [Hk Hl];
    [done | apply NoDup_nil_2 | by intros l Hin%elem_of_nil |].
  simpl in Hk.
  destruct (unzip_zipp_store params (init_tparams_loop params0 [] h).2
              (init_tparams_loop params0 [] h).1)
    as (h' & out & Hz & Hu & _ & Hsame).
  - by rewrite Hkeys.
  - done.
  - by rewrite Hk, Hkeys.
  - exists h'. split; [done|]. rewrite Hu. f_equal. apply Hsame.
    by rewrite Hk, Hkeys.
Qed.

End facts.

(** A two-parameter store, pushed and pulled. *)
Lemma unzip_zipp_witness :
  exists h' out,
    zipp [("Wemb"%string, [1; 2]%Z); ("ff_b"%string, [0]%Z)]
         [("Wemb"%string, 0%nat); ("ff_b"%string, 1%nat)] ∅ = inr h' /\
    unzip [("Wemb"%string, 0%nat); ("ff_b"%string, 1%nat)] h' = inr out /\
    (forall k, od_get out k
       = od_get [("Wemb"%string, [1; 2]%Z); ("ff_b"%string, [0]%Z)] k) /\
    ([("Wemb"%string, 0%nat); ("ff_b"%string, 1%nat)].*1
       = [("Wemb"%string, [1; 2]%Z); ("ff_b"%string, [0]%Z)].*1 ->
     out = [("Wemb"%string, [1; 2]%Z); ("ff_b"%string, [0]%Z)]).
Proof.
  apply (unzip_zipp (tensor := list Z)); [compute_done | compute_done | reflexivity].
Defined.

End StoreSpec.

(** ** Batch preparation: padding, masks and knowledge tensors *)

Module BatchSpec.
Import Batch.

(** *** Loops *)

Lemma elem_of_enumerate_from {A} (l : list A) : forall k i a,
  (i, a) ∈ enumerate_from k l <-> k <= i /\ l !! (i - k) = Some a.
Proof.
  induction l as [|b l IH]; simpl; intros k i a.
  - rewrite elem_of_nil. split; [done | by intros [_ ?]].
  - rewrite elem_of_cons, IH. split.
    + intros [[= -> ->]|[Hle Hl]].
      * split; [lia|]. by replace (k - k) with 0 by lia.
      * split; [lia|]. by replace (i - k) with (S (i - S k)) by lia.
    + intros [Hle Hl]. destruct (decide (i = k)) as [->|Hne].
      * left. replace (k - k) with 0 in Hl by lia. simpl in Hl. congruence.
      * right. split; [lia|].
        by replace (i - k) with (S (i - S k)) in Hl by lia.
Qed.

Lemma elem_of_enumerate {A} (l : list A) i a :
  (i, a) ∈ enumerate l <-> l !! i = Some a.
Proof.
  unfold enumerate. rewrite elem_of_enumerate_from.
  replace (i - 0) with i by lia. split; [tauto | split; [lia | done]].
Qed.

(** A [for] loop over [enumerate] with an invariant indexed by the number
    of elements already visited. *)
Lemma for_each_enumerate_from {A St} (body : nat * A -> St -> py St)
    (I : nat -> St -> Prop) (l : list A) : forall k s s',
  (forall i a t t', l !! i = Some a -> I (k + i) t ->
     body (k + i, a) t = inr t' -> I (S (k + i)) t') ->
  I k s -> for_each body (enumerate_from k l) s = inr s' ->
  I (k + length l) s'.
Proof.
  induction l as [|a l IH]; simpl; intros k s s' Hbody Hs Hrun.
  - injection Hrun as <-. by replace (k + 0) with k by lia.
  - apply bind_inr in Hrun as (t & Ht & Hrest).
    replace (k + S (length l)) with (S k + length l) by lia.
    apply (IH (S k) t s'); [| |exact Hrest].
    + intros i b u u' Hi. replace (S k + i) with (k + S i) by lia.
      by apply Hbody.
    + specialize (Hbody 0 a s t). replace (k + 0) with k in Hbody by lia.
      by apply Hbody.
Qed.

Lemma for_each_enumerate {A St} (body : nat * A -> St -> py St)
    (I : nat -> St -> Prop) (l : list A) (s s' : St) :
  (forall i a t t', l !! i = Some a -> I i t ->
     body (i, a) t = inr t' -> I (S i) t') ->
  I 0 s -> for_each body (enumerate l) s = inr s' -> I (length l) s'.
Proof. intros Hbody. by apply (for_each_enumerate_from body I l 0). Qed.

(** *** Array reads after writes *)

Lemma upd_inr {A} (l l' : list A) i f :
  upd l i f = inr l' ->
  exists a a', l !! i = Some a /\ f a = inr a' /\ l' = <[i := a']> l.
Proof.
  unfold upd. destruct (l !! i) as [a|]; [|discriminate].
  intros H. apply bind_inr in H as (a' & Ha' & [= <-]). eauto.
Qed.

Lemma upd_lookup {A} (l l' : list A) i f j :
  upd l i f = inr l' ->
  exists a a', l !! i = Some a /\ f a = inr a' /\
    l' !! j = if decide (j = i) then Some a' else l !! j.
Proof.
  intros H. apply upd_inr in H as (a & a' & Hl & Hf & ->).
  exists a, a'. split; [done|]. split; [done|].
  destruct (decide (j = i)) as [->|Hne].
  - apply list_lookup_insert_eq. by eapply lookup_lt_Some.
  - by apply list_lookup_insert_ne.
Qed.

Lemma set2_get2 {A} (m m' : list (list A)) r c v :
  set2 m r c v = inr m' ->
  is_Some (get2 m r c) /\
  forall r' c', get2 m' r' c'
    = if decide (r' = r /\ c' = c) then Some v else get2 m r' c'.
Proof.
  unfold set2, get2. intros H.
  pose proof (upd_inr _ _ _ _ H) as (row & row' & Hrow & Hf & _).
  pose proof (upd_inr _ _ _ _ Hf) as (old & new & Hold & [= <-] & _).
  split; [rewrite Hrow; by eexists|]. intros r' c'.
  destruct (upd_lookup _ _ _ _ r' H) as (row0 & row0' & Hrow0 & Hf0 & ->).
  destruct (decide (r' = r)) as [->|Hr].
  - destruct (upd_lookup _ _ _ _ c' Hf0) as (o & n & Ho & [= <-] & ->).
    rewrite Hrow0. destruct (decide (c' = c)) as [->|Hc].
    + by rewrite decide_True.
    + rewrite decide_False; [done | tauto].
  - rewrite decide_False; [done | tauto].
Qed.

Lemma upd3_get3 {A} (t t' : list (list (list A))) a b c f :
  upd3 t a b c f = inr t' ->
  exists old new, get3 t a b c = Some old /\ f old = inr new /\
    forall a' b' c', get3 t' a' b' c'
      = if decide (a' = a /\ b' = b /\ c' = c) then Some new
        else get3 t a' b' c'.
Proof.
  unfold upd3, get3, get2. intros H.
  pose proof (upd_inr _ _ _ _ H) as (m & m' & Hm & Hf & _).
  pose proof (upd_inr _ _ _ _ Hf) as (row & row' & Hrow & Hg & _).
  pose proof (upd_inr _ _ _ _ Hg) as (old & new & Hold & Hnew & _).
  exists old, new. rewrite Hm, Hrow. split; [done|]. split; [done|].
  intros a' b' c'.
  destruct (upd_lookup _ _ _ _ a' H) as (m0 & m0' & Hm0 & Hf0 & ->).
  destruct (decide (a' = a)) as [->|Ha]; [|rewrite decide_False; [done | tauto]].
  destruct (upd_lookup _ _ _ _ b' Hf0) as (r0 & r0' & Hr0 & Hg0 & ->).
  rewrite Hm0.
  destruct (decide (b' = b)) as [->|Hb]; [|rewrite decide_False; [done | tauto]].
  destruct (upd_lookup _ _ _ _ c' Hg0) as (o & n & Ho & Hn & ->).
  rewrite Hr0.
  destruct (decide (c' = c)) as [->|Hc]; [|rewrite decide_False; [done | tauto]].
  rewrite decide_True by done. congruence.
Qed.

Lemma get2_zeros2 {A} (z : A) a b r c :
  r < a -> c < b -> get2 (zeros2 z a b) r c = Some z.
Proof.
  intros Hr Hc. unfold get2, zeros2.
  rewrite lookup_replicate_2 by done. by apply lookup_replicate_2.
Qed.

Lemma get3_zeros3 {A} (z : A) a b c i j k :
  i < a -> j < b -> k < c -> get3 (zeros3 z a b c) i j k = Some z.
Proof.
  intros Hi Hj Hk. unfold get3, zeros3.
  rewrite lookup_replicate_2 by done. by apply get2_zeros2.
Qed.

(** *** Writes that stay inside a region *)

Lemma confined2_set2 {A} (z : A) d1 d2 R (m m' : list (list A)) r c v :
  confined2 z d1 d2 R m -> set2 m r c v = inr m' -> R r c ->
  confined2 z d1 d2 R m'.
Proof.
  intros Hm Hset HR r' c' Hr' Hc'.
  apply set2_get2 in Hset as [_ Hget]. rewrite Hget.
  destruct (decide (r' = r /\ c' = c)) as [[-> ->]|_]; [|by apply Hm].
  exists v. split; [done | by right].
Qed.

Lemma confined3_upd3 {A} (z : A) d1 d2 d3 R (t t' : list (list (list A))) a b c f :
  confined3 z d1 d2 d3 R t -> upd3 t a b c f = inr t' -> R a b c ->
  confined3 z d1 d2 d3 R t'.
Proof.
  intros Ht Hupd HR a' b' c' Ha' Hb' Hc'.
  apply upd3_get3 in Hupd as (old & new & _ & _ & Hget). rewrite Hget.
  destruct (decide (a' = a /\ b' = b /\ c' = c)) as [(-> & -> & ->)|_];
    [|by apply Ht].
  exists new. split; [done | by right].
Qed.

Lemma confined2_zeros2 {A} (z : A) d1 d2 R : confined2 z d1 d2 R (zeros2 z d1 d2).
Proof.
  intros r c Hr Hc. exists z. split; [by apply get2_zeros2 | by left].
Qed.

Lemma confined3_zeros3 {A} (z : A) d1 d2 d3 R :
  confined3 z d1 d2 d3 R (zeros3 z d1 d2 d3).
Proof.
  intros a b c Ha Hb Hc. exists z. split; [by apply get3_zeros3 | by left].
Qed.

Lemma confined2_assign_col_prefix {A} (z : A) d1 d2 R (m m' : list (list A))
    n c vals :
  confined2 z d1 d2 R m -> assign_col_prefix m n c vals = inr m' ->
  (forall r, r < length vals -> R r c) -> confined2 z d1 d2 R m'.
Proof.
  unfold assign_col_prefix. intros Hm Hrun HR.
  destruct (decide _); [|discriminate].
  revert Hm Hrun. apply for_each_inv.
  intros [r v] t t' Hin Ht Hset. apply elem_of_enumerate in Hin.
  eapply confined2_set2; [exact Ht | exact Hset |].
  apply HR. by eapply lookup_lt_Some.
Qed.

(** The two knowledge loops write only at positions within the lemma
    sequences of the example. *)
Lemma confined3_fill_kb_x (zv : list Q) d1 d2 d3 R kb_dict idx s_xl s_yl st st' :
  confined3 zv d1 d2 d3 R st.1 /\ confined3 0%Q d1 d2 d3 R st.2 ->
  fill_kb_x kb_dict idx s_xl s_yl st = inr st' ->
  (forall sid tid, sid < length s_xl -> tid < length s_yl -> R sid idx tid) ->
  confined3 zv d1 d2 d3 R st'.1 /\ confined3 0%Q d1 d2 d3 R st'.2.
Proof.
  unfold fill_kb_x. intros Hst Hrun HR. revert Hst Hrun.
  set (P := fun st : list (list (list (list Q))) * list (list (list Q)) =>
              confined3 zv d1 d2 d3 R st.1 /\ confined3 0%Q d1 d2 d3 R st.2).
  apply (for_each_inv _ P). intros [sid s] t t' Hs%elem_of_enumerate.
  apply (for_each_inv _ P). intros [tid t0] [kx ka] [kx' ka'] Ht%elem_of_enumerate.
  unfold P.
  simpl. intros [Hkx Hka] Hbody.
  assert (R sid idx tid) as Hpos
    by (apply HR; by eapply lookup_lt_Some).
  destruct (kb_dict !! s) as [row|]; [|by injection Hbody as <- <-].
  destruct (row !! t0) as [v|]; [|by injection Hbody as <- <-].
  apply bind_inr in Hbody as (kx1 & Hx & Hbody).
  apply bind_inr in Hbody as (ka1 & Ha & [= <- <-]).
  split; eapply confined3_upd3; eauto.
Qed.

Lemma confined3_fill_kb_y (zv : list Q) d1 d2 d3 R kb_dict idx s_xl s_yl kb kb' :
  confined3 zv d1 d2 d3 R kb ->
  fill_kb_y kb_dict idx s_xl s_yl kb = inr kb' ->
  (forall sid tid, sid < length s_yl -> tid < length s_xl -> R sid idx tid) ->
  confined3 zv d1 d2 d3 R kb'.
Proof.
  unfold fill_kb_y. intros Hst Hrun HR. revert Hst Hrun.
  apply (for_each_inv _ (confined3 zv d1 d2 d3 R)).
  intros [sid s] t t' Hs%elem_of_enumerate.
  apply (for_each_inv _ (confined3 zv d1 d2 d3 R)).
  intros [tid t0] ky ky' Ht%elem_of_enumerate Hky Hbody.
  assert (R sid idx tid) as Hpos
    by (apply HR; by eapply lookup_lt_Some).
  destruct (kb_dict !! s) as [row|]; [|by injection Hbody as <-].
  destruct (row !! t0) as [v|]; [|by injection Hbody as <-].
  eapply confined3_upd3; eauto.
Qed.

(** *** Masks *)

Lemma fill_seq_get2 {A} (c : nat) (v : A) : forall N a (m m' : list (list A)),
  for_each (fun r m => set2 m r c v) (seq a N) m = inr m' ->
  forall r c', get2 m' r c'
    = if decide (c' = c /\ a <= r < a + N) then Some v else get2 m r c'.
Proof.
  induction N as [|N IH]; simpl; intros a m m' Hrun r c'.
  - injection Hrun as <-. rewrite decide_False; [done | lia].
  - apply bind_inr in Hrun as (m1 & Hset & Hrest).
    rewrite (IH _ _ _ Hrest). apply set2_get2 in Hset as [_ ->].
    repeat case_decide; try done; lia.
Qed.

Lemma masked_fill_col_prefix seqs d1 d2 k s (m m' : list (list Q)) :
  seqs !! k = Some s -> k < d2 -> masked seqs d1 d2 k m ->
  fill_col_prefix m (length s) k 1%Q = inr m' ->
  masked seqs d1 d2 (S k) m'.
Proof.
  unfold fill_col_prefix. intros Hs Hk Hm Hrun r c Hr Hc.
  rewrite (fill_seq_get2 _ _ _ _ _ _ Hrun), (Hm r c Hr Hc).
  assert (r < length m) as Hlen.
  { specialize (Hm r c Hr Hc). unfold get2 in Hm.
    destruct (m !! r) eqn:Hrow; [|discriminate]. by eapply lookup_lt_Some. }
  unfold within. destruct (decide (c = k)) as [->|Hne].
  - rewrite Hs. rewrite (bool_decide_eq_false_2 (k < k)) by lia.
    rewrite (bool_decide_eq_true_2 (k < S k)) by lia. simpl.
    case_bool_decide; case_decide; try done; lia.
  - rewrite decide_False by tauto.
    destruct (seqs !! c); [|by rewrite !andb_false_r].
    by rewrite (bool_decide_ext (c < k) (c < S k)) by lia.
Qed.

(** *** The loop over the examples *)

Lemma within_lt seqs i s r : seqs !! i = Some s -> r < length s -> within seqs r i = true.
Proof. intros Hs Hr. unfold within. rewrite Hs. by apply bool_decide_eq_true_2. Qed.

Lemma padded_init seqs_x seqs_y (labels : list Z) dim :
  padded seqs_x seqs_y dim 0
    {| x := zeros2 0%Z (max_list (length <$> seqs_x)) (length seqs_x);
       y := zeros2 0%Z (max_list (length <$> seqs_y)) (length seqs_x);
       x_mask := zeros2 0%Q (max_list (length <$> seqs_x)) (length seqs_x);
       y_mask := zeros2 0%Q (max_list (length <$> seqs_y)) (length seqs_x);
       l := replicate (length seqs_x) 0%Z;
       kb_x := zeros4 0%Q (max_list (length <$> seqs_x)) (length seqs_x)
                 (max_list (length <$> seqs_y)) dim;
       kb_y := zeros4 0%Q (max_list (length <$> seqs_y)) (length seqs_x)
                 (max_list (length <$> seqs_x)) dim;
       kb_att := zeros3 0%Q (max_list (length <$> seqs_x)) (length seqs_x)
                   (max_list (length <$> seqs_y)) |}.
Proof.
  unfold padded; simpl. repeat split.
  - apply confined2_zeros2.
  - apply confined2_zeros2.
  - intros r c Hr Hc. by rewrite get2_zeros2.
  - intros r c Hr Hc. by rewrite get2_zeros2.
  - intros a b c Ha Hb Hc. exists (replicate dim 0%Q).
    split; [|by left]. unfold zeros4, get3.
    rewrite lookup_replicate_2 by done. unfold zeros3, get2.
    rewrite lookup_replicate_2 by done. unfold zeros2.
    by rewrite lookup_replicate_2.
  - intros a b c Ha Hb Hc. exists (replicate dim 0%Q).
    split; [|by left]. unfold zeros4, get3.
    rewrite lookup_replicate_2 by done. unfold zeros3, get2.
    rewrite lookup_replicate_2 by done. unfold zeros2.
    by rewrite lookup_replicate_2.
  - apply confined3_zeros3.
Qed.

Lemma padded_step seqs_x seqs_y kb_dict dim i s_x s_y s_xl s_yl ll b b' :
  seqs_x !! i = Some s_x -> seqs_y !! i = Some s_y ->
  length s_xl = length s_x -> length s_yl = length s_y ->
  padded seqs_x seqs_y dim i b ->
  fill_example kb_dict (length <$> seqs_x) (length <$> seqs_y)
    (i, (s_x, (s_y, (s_xl, (s_yl, ll))))) b = inr b' ->
  padded seqs_x seqs_y dim (S i) b'.
Proof.
  intros Hx Hy Hxl Hyl (Px & Py & Pxm & Pym & Pkx & Pky & Pka) Hrun.
  assert (i < length seqs_x) as Hi by by eapply lookup_lt_Some.
  unfold fill_example, index in Hrun.
  rewrite !list_lookup_fmap, Hx, Hy in Hrun. simpl in Hrun.
  apply bind_inr in Hrun as (x' & Hx' & Hrun).
  apply bind_inr in Hrun as (xm' & Hxm' & Hrun).
  apply bind_inr in Hrun as (y' & Hy' & Hrun).
  apply bind_inr in Hrun as (ym' & Hym' & Hrun).
  apply bind_inr in Hrun as (l' & Hl' & Hrun).
  apply bind_inr in Hrun as ([kx' ka'] & Hkx' & Hrun).
  apply bind_inr in Hrun as (ky' & Hky' & [= <-]).
  unfold padded; simpl.
  destruct (confined3_fill_kb_x (replicate dim 0%Q)
              (max_list (length <$> seqs_x)) (length seqs_x)
              (max_list (length <$> seqs_y))
              (fun p i h => within seqs_x p i = true /\ within seqs_y h i = true)
              kb_dict i s_xl s_yl (kb_x b, kb_att b) (kx', ka'))
    as [Hk1 Hk2]; [by split | exact Hkx' | |].
  { intros sid tid Hsid Htid.
    split; eapply within_lt; eauto; lia. }
  simpl in Hk1, Hk2.
  repeat split; try done.
  - eapply confined2_assign_col_prefix; [exact Px | exact Hx' |].
    intros r Hr. by eapply within_lt.
  - eapply confined2_assign_col_prefix; [exact Py | exact Hy' |].
    intros r Hr. by eapply within_lt.
  - by eapply masked_fill_col_prefix.
  - by eapply masked_fill_col_prefix.
  - eapply confined3_fill_kb_y; [exact Pky | exact Hky' |].
    intros sid tid Hsid Htid. simpl.
    split; eapply within_lt; eauto; lia.
Qed.

Lemma numpy_max_inr ls n : numpy_max ls = inr n -> n = max_list ls.
Proof. destruct ls; [discriminate | by intros [= <-]]. Qed.

Lemma build_batch_padded seqs_x seqs_y seqs_x_lemma seqs_y_lemma labels
    options kb_dict b :
  parallel seqs_x seqs_x_lemma -> parallel seqs_y seqs_y_lemma ->
  length seqs_y = length seqs_x -> length labels = length seqs_x ->
  build_batch seqs_x seqs_y seqs_x_lemma seqs_y_lemma labels options kb_dict
    (length <$> seqs_x) (length <$> seqs_y) = inr b ->
  padded seqs_x seqs_y (dim_kb options) (length seqs_x) b.
Proof.
  intros Hpx Hpy Hny Hnl Hrun. unfold build_batch in Hrun.
  apply bind_inr in Hrun as (Lx & ->%numpy_max_inr & Hrun).
  apply bind_inr in Hrun as (Ly & ->%numpy_max_inr & Hrun).
  pose proof (Forall2_length _ _ _ Hpx) as Hnxl.
  pose proof (Forall2_length _ _ _ Hpy) as Hnyl.
  set (zipped := zip seqs_x (zip seqs_y (zip seqs_x_lemma (zip seqs_y_lemma labels)))) in *.
  assert (length zipped = length seqs_x) as Hlen.
  { unfold zipped. rewrite !length_zip. lia. }
  cut (padded seqs_x seqs_y (dim_kb options) (length zipped) b);
    [by rewrite Hlen|].
  revert Hrun.
  apply (for_each_enumerate _ (fun k b => padded seqs_x seqs_y (dim_kb options) k b));
    [|apply (padded_init _ _ labels)].
  intros i (s_x & s_y & s_xl & s_yl & ll) t t' Hi Ht Hbody.
  unfold zipped in Hi.
  apply lookup_zip_with_Some in Hi as (? & [? [? [? ?]]] & [= <- <- <- <- <-] & Hx & Hi).
  apply lookup_zip_with_Some in Hi as (? & [? [? ?]] & [= <- <- <- <-] & Hy & Hi).
  apply lookup_zip_with_Some in Hi as (? & [? ?] & [= <- <- <-] & Hxl & Hi).
  apply lookup_zip_with_Some in Hi as (? & ? & [= <- <-] & Hyl & Hll).
  eapply padded_step; [exact Hx | exact Hy | | | exact Ht | exact Hbody].
  - exact (Forall2_lookup_lr _ _ _ _ _ _ Hpx Hx Hxl).
  - exact (Forall2_lookup_lr _ _ _ _ _ _ Hpy Hy Hyl).
Qed.

(** When every example passes, the filter keeps all of them. *)
Lemma filter_loop_all maxlen : forall seqs_x seqs_y a1 a2 a3 a4,
  length seqs_y = length seqs_x ->
  Forall (fun s => (Z.of_nat (length s) < maxlen)%Z) seqs_x ->
  Forall (fun s => (Z.of_nat (length s) < maxlen)%Z) seqs_y ->
  filter_loop maxlen
    (zip (length <$> seqs_x) (zip seqs_x (zip (length <$> seqs_y) seqs_y)))
    (a1, a2, a3, a4)
  = (a1 ++ seqs_x, a2 ++ (length <$> seqs_x), a3 ++ seqs_y,
     a4 ++ (length <$> seqs_y)).
Proof.
  induction seqs_x as [|s_x seqs_x IH]; intros [|s_y seqs_y] a1 a2 a3 a4 Hlen Hx Hy;
    simpl in *; try discriminate.
  - by rewrite !app_nil_r.
  - apply Forall_cons in Hx as [Hsx Hx]. apply Forall_cons in Hy as [Hsy Hy].
    rewrite !bool_decide_eq_true_2 by done. simpl.
    rewrite IH by (done || lia). by rewrite <- !app_assoc.
Qed.

Lemma tuple_of_inj b1 b2 : tuple_of b1 = tuple_of b2 -> b1 = b2.
Proof. destruct b1, b2. unfold tuple_of; simpl. by intros [= -> -> -> -> -> -> -> ->]. Qed.

Lemma prepare_data_padded seqs_x seqs_y seqs_x_lemma seqs_y_lemma labels
    options kb_dict maxlen b :
  parallel seqs_x seqs_x_lemma -> parallel seqs_y seqs_y_lemma ->
  length seqs_y = length seqs_x -> length labels = length seqs_x ->
  all_pass maxlen seqs_x seqs_y ->
  prepare_data seqs_x seqs_y seqs_x_lemma seqs_y_lemma labels options kb_dict
    maxlen = inr (tuple_of b) ->
  padded seqs_x seqs_y (dim_kb options) (length seqs_x) b.
Proof.
  intros Hpx Hpy Hny Hnl Hpass Hrun. unfold prepare_data in Hrun.
  destruct maxlen as [m|].
  - destruct (Hpass m eq_refl) as [Hx Hy].
    rewrite (filter_loop_all m seqs_x seqs_y [] [] [] [] Hny Hx Hy) in Hrun.
    simpl in Hrun. destruct (_ || _); [discriminate|].
    apply bind_inr in Hrun as (b0 & Hb0 & Heq).
    assert (b0 = b) as -> by (apply tuple_of_inj; unfold ret in Heq; congruence).
    by eapply build_batch_padded.
  - apply bind_inr in Hrun as (b0 & Hb0 & Heq).
    assert (b0 = b) as -> by (apply tuple_of_inj; unfold ret in Heq; congruence).
    by eapply build_batch_padded.
Qed.

(** X5. Padding when no example is dropped. In a batch that [prepare_data]
    produces from parallel examples that all pass the length filter, every
    mask column holds ones exactly up to the true length of its example and
    zeros after it, and the ids, the knowledge vectors and the presence
    entries at positions beyond either true length are zero. *)
Theorem prepare_data_padding seqs_x seqs_y seqs_x_lemma seqs_y_lemma labels
    options kb_dict maxlen b :
  parallel seqs_x seqs_x_lemma -> parallel seqs_y seqs_y_lemma ->
  length seqs_y = length seqs_x -> length labels = length seqs_x ->
  all_pass maxlen seqs_x seqs_y ->
  prepare_data seqs_x seqs_y seqs_x_lemma seqs_y_lemma labels options kb_dict
    maxlen = inr (tuple_of b) ->
  let Lx := max_list (length <$> seqs_x) in
  let Ly := max_list (length <$> seqs_y) in
  forall i s_x s_y, seqs_x !! i = Some s_x -> seqs_y !! i = Some s_y ->
    (forall r, r < Lx ->
       get2 (x_mask b) r i
         = Some (if bool_decide (r < length s_x) then 1%Q else 0%Q)) /\
    (forall r, r < Ly ->
       get2 (y_mask b) r i
         = Some (if bool_decide (r < length s_y) then 1%Q else 0%Q)) /\
    (forall r, length s_x <= r < Lx -> get2 (x b) r i = Some 0%Z) /\
    (forall r, length s_y <= r < Ly -> get2 (y b) r i = Some 0%Z) /\
    (forall p h, p < Lx -> h < Ly -> length s_x <= p \/ length s_y <= h ->
       get3 (kb_x b) p i h = Some (replicate (dim_kb options) 0%Q) /\
       get3 (kb_y b) h i p = Some (replicate (dim_kb options) 0%Q) /\
       get3 (kb_att b) p i h = Some 0%Q).
Proof.
  intros Hpx Hpy Hny Hnl Hpass Hrun Lx Ly i s_x s_y Hx Hy.
  destruct (prepare_data_padded _ _ _ _ _ _ _ _ _ Hpx Hpy Hny Hnl Hpass Hrun)
    as (Px & Py & Pxm & Pym & Pkx & Pky & Pka).
  assert (i < length seqs_x) as Hi by by eapply lookup_lt_Some.
  assert (forall r, within seqs_x r i = bool_decide (r < length s_x)) as Hwx
    by (intros r; unfold within; by rewrite Hx).
  assert (forall r, within seqs_y r i = bool_decide (r < length s_y)) as Hwy
    by (intros r; unfold within; by rewrite Hy).
  repeat split.
  - intros r Hr. rewrite (Pxm r i Hr Hi), Hwx.
    by rewrite (bool_decide_eq_true_2 (i < length seqs_x)).
  - intros r Hr. rewrite (Pym r i Hr Hi), Hwy.
    by rewrite (bool_decide_eq_true_2 (i < length seqs_x)).
  - intros r [Hge Hr]. destruct (Px r i Hr Hi) as (v & -> & [->|Hw]); [done|].
    rewrite Hwx in Hw. apply bool_decide_eq_true_1 in Hw. lia.
  - intros r [Hge Hr]. destruct (Py r i Hr Hi) as (v & -> & [->|Hw]); [done|].
    rewrite Hwy in Hw. apply bool_decide_eq_true_1 in Hw. lia.
  - destruct (Pkx p i h H Hi H0) as (v & -> & [->|[Hw1 Hw2]]); [done|].
    rewrite Hwx in Hw1. rewrite Hwy in Hw2.
    apply bool_decide_eq_true_1 in Hw1, Hw2. lia.
  - destruct (Pky h i p H0 Hi H) as (v & -> & [->|[Hw1 Hw2]]); [done|].
    rewrite Hwx in Hw1. rewrite Hwy in Hw2.
    apply bool_decide_eq_true_1 in Hw1, Hw2. lia.
  - destruct (Pka p i h H Hi H0) as (v & -> & [->|[Hw1 Hw2]]); [done|].
    rewrite Hwx in Hw1. rewrite Hwy in Hw2.
    apply bool_decide_eq_true_1 in Hw1, Hw2. lia.
Qed.

(** The sample batch, with no example dropped by [maxlen = 100], at its
    second example (premise length 1, hypothesis length 2). *)
Lemma prepare_data_padding_sample :
  prepare_data sample_seqs_x sample_seqs_y sample_seqs_x_lemma
    sample_seqs_y_lemma sample_labels sample_options sample_kb_dict
    (Some 100%Z) = inr (tuple_of sample_batch) /\
  (forall r, r < 3 ->
     get2 (x_mask sample_batch) r 1
       = Some (if bool_decide (r < 1) then 1%Q else 0%Q)) /\
  (forall r, r < 2 ->
     get2 (y_mask sample_batch) r 1
       = Some (if bool_decide (r < 2) then 1%Q else 0%Q)) /\
  (forall r, 1 <= r < 3 -> get2 (x sample_batch) r 1 = Some 0%Z) /\
  (forall r, 2 <= r < 2 -> get2 (y sample_batch) r 1 = Some 0%Z) /\
  (forall p h, p < 3 -> h < 2 -> 1 <= p \/ 2 <= h ->
     get3 (kb_x sample_batch) p 1 h = Some [0%Q; 0%Q] /\
     get3 (kb_y sample_batch) h 1 p = Some [0%Q; 0%Q] /\
     get3 (kb_att sample_batch) p 1 h = Some 0%Q).
Proof.
  assert (prepare_data sample_seqs_x sample_seqs_y sample_seqs_x_lemma
            sample_seqs_y_lemma sample_labels sample_options sample_kb_dict
            (Some 100%Z) = inr (tuple_of sample_batch)) as Hrun
    by (vm_compute; reflexivity).
  split; [exact Hrun|].
  refine (prepare_data_padding sample_seqs_x sample_seqs_y sample_seqs_x_lemma
            sample_seqs_y_lemma sample_labels sample_options sample_kb_dict
            (Some 100%Z) sample_batch _ _ _ _ _ Hrun 1 [4]%Z [6; 7]%Z _ _).
  - repeat constructor.
  - repeat constructor.
  - reflexivity.
  - reflexivity.
  - intros m [= <-]. split; repeat constructor.
  - reflexivity.
  - reflexivity.
Defined.

(** C1 at a batch built after the filter has dropped an example. The
    filter rebuilds [seqs_x] and [seqs_y] but leaves the lemma lists as they
    were, so column 0 (premise length 1) is filled from the lemma sequence
    of the dropped example (length 3): at row 1 the mask is 0 while the
    presence entry is 1 and the knowledge vector is not zero. *)
Theorem padding_broken_after_drop :
  parallel drop_seqs_x drop_seqs_x_lemma /\
  parallel drop_seqs_y drop_seqs_y_lemma /\
  prepare_data drop_seqs_x drop_seqs_y drop_seqs_x_lemma drop_seqs_y_lemma
    drop_labels sample_options sample_kb_dict (Some 3%Z)
  = inr (tuple_of drop_batch) /\
  get2 (x drop_batch) 0 0 = Some 4%Z /\
  get2 (x_mask drop_batch) 0 0 = Some 1%Q /\
  get2 (x_mask drop_batch) 1 0 = Some 0%Q /\
  get3 (kb_att drop_batch) 1 0 0 = Some 1%Q /\
  get3 (kb_x drop_batch) 1 0 0 = Some [1%Q; 0%Q].
Proof.
  split; [repeat constructor|]. split; [repeat constructor|].
  split; [vm_compute; reflexivity|]. repeat split.
Qed.

(** *** The presence matrix [kb_att] *)

Section presence.
Context (kb_dict : gmap Z (gmap Z (list Q))).
Context (exs : list (list Z * (list Z * (list Z * (list Z * Z))))).

Lemma agrees_write (D D' : nat -> nat -> nat -> Prop) t t' a b c :
  agrees kb_dict exs D t ->
  upd3 t a b c (fun _ => ret 1%Q) = inr t' ->
  presence kb_dict exs a b c = 1%Q ->
  (forall p i h, D' p i h <-> D p i h \/ (p = a /\ i = b /\ h = c)) ->
  agrees kb_dict exs D' t'.
Proof.
  intros Ht Hupd Hpres HD p i h v.
  apply upd3_get3 in Hupd as (old & new & _ & [= <-] & ->).
  destruct (decide (p = a /\ i = b /\ h = c)) as [(-> & -> & ->)|Hne].
  - intros [= <-]. split; [by rewrite Hpres|]. intros Hn. destruct Hn.
    apply HD. by right.
  - intros Hv. destruct (Ht p i h v Hv) as [H1 H0]. split.
    + intros [Hd|Hd]%HD; [by apply H1 | tauto].
    + intros Hn. apply H0. intros Hd. apply Hn, HD. by left.
Qed.

Lemma agrees_extend (D D' E : nat -> nat -> nat -> Prop) t :
  agrees kb_dict exs D t ->
  (forall p i h, D' p i h <-> D p i h \/ E p i h) ->
  (forall p i h, E p i h -> ~ D p i h -> presence kb_dict exs p i h = 0%Q) ->
  (forall p i h, D p i h \/ ~ D p i h) ->
  agrees kb_dict exs D' t.
Proof.
  intros Ht HD HE Hdec p i h v Hv. destruct (Ht p i h v Hv) as [H1 H0]. split.
  - intros [Hd|He]%HD; [by apply H1|].
    destruct (Hdec p i h) as [Hd|Hn]; [by apply H1|].
    rewrite (HE p i h He Hn). by apply H0.
  - intros Hn. apply H0. intros Hd. apply Hn, HD. by left.
Qed.

Lemma before_dec k sid tid p i h :
  before k sid tid p i h \/ ~ before k sid tid p i h.
Proof. unfold before. lia. Qed.

Lemma agrees_fill_kb_x k s_x s_y s_xl s_yl ll st st' :
  exs !! k = Some (s_x, (s_y, (s_xl, (s_yl, ll)))) ->
  agrees kb_dict exs (before k 0 0) st.2 ->
  fill_kb_x kb_dict k s_xl s_yl st = inr st' ->
  agrees kb_dict exs (before (S k) 0 0) st'.2.
Proof.
  intros Hk Hst Hrun. unfold fill_kb_x in Hrun.
  apply (for_each_enumerate _
           (fun sid st => agrees kb_dict exs (before k sid 0) st.2)) in Hrun;
    [|clear Hrun st' | exact Hst].
  - eapply agrees_extend; [exact Hrun | | | apply before_dec].
    + instantiate (1 := fun p i h => i = k /\ length s_xl <= p).
      intros p i h. unfold before. simpl. lia.
    + intros p i h [-> Hp] _. unfold presence. rewrite Hk.
      by rewrite (lookup_ge_None_2 s_xl p).
  - intros sid s t t' Hs Ht Hrun.
    apply (for_each_enumerate _
             (fun tid st => agrees kb_dict exs (before k sid tid) st.2)) in Hrun;
      [|clear Hrun t' | exact Ht].
    + eapply agrees_extend; [exact Hrun | | | apply before_dec].
      * instantiate (1 := fun p i h => i = k /\ p = sid /\ length s_yl <= h).
        intros p i h. unfold before. simpl. lia.
      * intros p i h (-> & -> & Hh) _. unfold presence. rewrite Hk, Hs.
        by rewrite (lookup_ge_None_2 s_yl h).
    + intros tid t0 [kx ka] [kx' ka'] Ht0 Hinv Hbody. simpl in *.
      assert (presence kb_dict exs sid k tid
              = if related kb_dict s t0 then 1%Q else 0%Q) as Hpres
        by (unfold presence; by rewrite Hk, Hs, Ht0).
      unfold related in Hpres.
      destruct (kb_dict !! s) as [row|].
      * destruct (row !! t0) as [v|].
        -- apply bind_inr in Hbody as (kx1 & Hx & Hbody).
           apply bind_inr in Hbody as (ka1 & Ha & [= <- <-]).
           eapply agrees_write; [exact Hinv | exact Ha | |].
           ++ rewrite Hpres. rewrite bool_decide_eq_true_2; [done | by eexists].
           ++ intros p i h. unfold before. lia.
        -- injection Hbody as <- <-.
           rewrite bool_decide_eq_false_2 in Hpres by (intros [? ?]; discriminate).
           eapply agrees_extend; [exact Hinv | | | apply before_dec].
           ++ instantiate (1 := fun p i h => p = sid /\ i = k /\ h = tid).
              intros p i h. unfold before. simpl. lia.
           ++ by intros p i h (-> & -> & ->) _.
      * injection Hbody as <- <-.
        eapply agrees_extend; [exact Hinv | | | apply before_dec].
        -- instantiate (1 := fun p i h => p = sid /\ i = k /\ h = tid).
           intros p i h. unfold before. simpl. lia.
        -- by intros p i h (-> & -> & ->) _.
Qed.

End presence.

Lemma get3_zeros3_Some {A} (z : A) a b c i j k v :
  get3 (zeros3 z a b c) i j k = Some v -> v = z.
Proof.
  unfold get3, get2, zeros3, zeros2. intros H.
  destruct (replicate a _ !! i) as [m|] eqn:Hm; [|discriminate].
  apply lookup_replicate in Hm as [-> _].
  destruct (replicate b _ !! j) as [row|] eqn:Hrow; [|discriminate].
  apply lookup_replicate in Hrow as [-> _].
  by apply lookup_replicate in H as [-> _].
Qed.

Lemma fill_example_kb_att kb_dict lengths_x lengths_y i s_x s_y s_xl s_yl ll b b' :
  fill_example kb_dict lengths_x lengths_y (i, (s_x, (s_y, (s_xl, (s_yl, ll))))) b
    = inr b' ->
  exists kx', fill_kb_x kb_dict i s_xl s_yl (kb_x b, kb_att b) = inr (kx', kb_att b').
Proof.
  unfold fill_example. intros Hrun.
  apply bind_inr in Hrun as (len_x & _ & Hrun).
  apply bind_inr in Hrun as (x' & _ & Hrun).
  apply bind_inr in Hrun as (xm' & _ & Hrun).
  apply bind_inr in Hrun as (len_y & _ & Hrun).
  apply bind_inr in Hrun as (y' & _ & Hrun).
  apply bind_inr in Hrun as (ym' & _ & Hrun).
  apply bind_inr in Hrun as (l' & _ & Hrun).
  apply bind_inr in Hrun as ([kx' ka'] & Hkx' & Hrun).
  apply bind_inr in Hrun as (ky' & _ & [= <-]).
  by exists kx'.
Qed.

Lemma build_batch_kb_att seqs_x seqs_y seqs_x_lemma seqs_y_lemma labels options
    kb_dict lengths_x lengths_y b :
  build_batch seqs_x seqs_y seqs_x_lemma seqs_y_lemma labels options kb_dict
    lengths_x lengths_y = inr b ->
  forall p i h v, get3 (kb_att b) p i h = Some v ->
    v = presence kb_dict
          (zip seqs_x (zip seqs_y (zip seqs_x_lemma (zip seqs_y_lemma labels))))
          p i h.
Proof.
  intros Hrun. unfold build_batch in Hrun.
  apply bind_inr in Hrun as (Lx & _ & Hrun).
  apply bind_inr in Hrun as (Ly & _ & Hrun).
  set (exs := zip seqs_x (zip seqs_y (zip seqs_x_lemma (zip seqs_y_lemma labels)))) in *.
  apply (for_each_enumerate _
           (fun k b => agrees kb_dict exs (before k 0 0) (kb_att b))) in Hrun.
  - intros p i h v Hv. destruct (Hrun p i h v Hv) as [H1 H0].
    destruct (before_dec (length exs) 0 0 p i h) as [Hd|Hn]; [by apply H1|].
    rewrite (H0 Hn). unfold presence.
    rewrite (lookup_ge_None_2 exs i); [done|]. unfold before in Hn. lia.
  - intros i (s_x & s_y & s_xl & s_yl & ll) t t' Hi Ht Hbody.
    apply fill_example_kb_att in Hbody as [kx' Hbody].
    exact (agrees_fill_kb_x kb_dict exs i s_x s_y s_xl s_yl ll
             (kb_x t, kb_att t) (kx', kb_att t') Hi Ht Hbody).
  - intros p i h v Hv. simpl in Hv. apply get3_zeros3_Some in Hv as ->.
    split; [|done]. unfold before. lia.
Qed.

Lemma prepare_data_build seqs_x seqs_y seqs_x_lemma seqs_y_lemma labels
    options kb_dict maxlen b :
  prepare_data seqs_x seqs_y seqs_x_lemma seqs_y_lemma labels options kb_dict
    maxlen = inr (tuple_of b) ->
  exists kept_x lengths_x kept_y lengths_y,
    kept maxlen seqs_x seqs_y = (kept_x, lengths_x, kept_y, lengths_y) /\
    build_batch kept_x kept_y seqs_x_lemma seqs_y_lemma labels options kb_dict
      lengths_x lengths_y = inr b.
Proof.
  unfold prepare_data, kept. intros Hrun. destruct maxlen as [m|].
  - destruct (filter_loop _ _ _) as [[[kx lx] ky] ly].
    exists kx, lx, ky, ly. split; [done|].
    destruct (_ || _); [discriminate|].
    apply bind_inr in Hrun as (b0 & Hb0 & Heq).
    assert (b0 = b) as -> by (apply tuple_of_inj; unfold ret in Heq; congruence).
    done.
  - eexists _, _, _, _. split; [done|].
    apply bind_inr in Hrun as (b0 & Hb0 & Heq).
    assert (b0 = b) as -> by (apply tuple_of_inj; unfold ret in Heq; congruence).
    done.
Qed.

(** The presence matrix in terms of the tuples that the fill loop
    visits.  In every batch that [prepare_data] builds, each entry
    [kb_att[p, i, h]] is 1 when the premise lemma at position [p] of the
    tuple written to column [i] has an entry for the hypothesis lemma at
    position [h] of that tuple in the knowledge table, and 0 otherwise; in
    particular a relation that the table holds only from the hypothesis
    lemma to the premise lemma leaves the entry at 0. *)
Theorem kb_att_presence seqs_x seqs_y seqs_x_lemma seqs_y_lemma labels
    options kb_dict maxlen b :
  prepare_data seqs_x seqs_y seqs_x_lemma seqs_y_lemma labels options kb_dict
    maxlen = inr (tuple_of b) ->
  let exs := examples maxlen seqs_x seqs_y seqs_x_lemma seqs_y_lemma labels in
  forall p i h v, get3 (kb_att b) p i h = Some v ->
    v = presence kb_dict exs p i h /\
    (forall s_x s_y s_xl s_yl ll s t,
       exs !! i = Some (s_x, (s_y, (s_xl, (s_yl, ll)))) ->
       s_xl !! p = Some s -> s_yl !! h = Some t ->
       (v = 1%Q <-> related kb_dict s t = true) /\
       (related kb_dict s t = false -> v = 0%Q)).
Proof.
  intros Hrun exs p i h v Hv.
  destruct (prepare_data_build _ _ _ _ _ _ _ _ _ Hrun)
    as (kx & lx & ky & ly & Hkept & Hbuild).
  assert (v = presence kb_dict exs p i h) as Hpres.
  { unfold exs, examples. rewrite Hkept.
    by apply (build_batch_kb_att _ _ _ _ _ _ _ _ _ _ Hbuild). }
  split; [exact Hpres|].
  intros s_x s_y s_xl s_yl ll s t Hi Hs Ht.
  unfold presence in Hpres. rewrite Hi, Hs, Ht in Hpres.
  destruct (related kb_dict s t); subst v; split; try done.
Qed.

(** When no example is dropped, the tuples pair each example with its own
    lemma sequences and label. *)
Lemma examples_all_pass maxlen seqs_x seqs_y seqs_x_lemma seqs_y_lemma labels :
  length seqs_y = length seqs_x -> all_pass maxlen seqs_x seqs_y ->
  examples maxlen seqs_x seqs_y seqs_x_lemma seqs_y_lemma labels
  = zip seqs_x (zip seqs_y (zip seqs_x_lemma (zip seqs_y_lemma labels))).
Proof.
  intros Hlen Hpass. unfold examples, kept. destruct maxlen as [m|]; [|done].
  destruct (Hpass m eq_refl) as [Hx Hy].
  by rewrite (filter_loop_all m seqs_x seqs_y [] [] [] [] Hlen Hx Hy).
Qed.

(** The sample batch at the entry [kb_att[2, 0, 0]]: premise lemma 7,
    hypothesis lemma 9. *)
Lemma kb_att_presence_witness :
  let exs := examples (Some 100%Z) sample_seqs_x sample_seqs_y
               sample_seqs_x_lemma sample_seqs_y_lemma sample_labels in
  get3 (kb_att sample_batch) 2 0 0 = Some 1%Q /\
  1%Q = presence sample_kb_dict exs 2 0 0 /\
  (forall s_x s_y s_xl s_yl ll s t,
     exs !! 0 = Some (s_x, (s_y, (s_xl, (s_yl, ll)))) ->
     s_xl !! 2 = Some s -> s_yl !! 0 = Some t ->
     (1%Q = 1%Q <-> related sample_kb_dict s t = true) /\
     (related sample_kb_dict s t = false -> 1%Q = 0%Q)).
Proof.
  split; [reflexivity|].
  apply (kb_att_presence sample_seqs_x sample_seqs_y sample_seqs_x_lemma
           sample_seqs_y_lemma sample_labels sample_options sample_kb_dict
           (Some 100%Z) sample_batch).
  - vm_compute. reflexivity.
  - reflexivity.
Defined.

(** A relation held only from the hypothesis lemma (7) to the premise lemma
    (9): [kb_y] receives the feature vector, [kb_att] stays zero. *)
Example kb_att_asymmetric :
  prepare_data [[1]]%Z [[2]]%Z [[9]]%Z [[7]]%Z [0]%Z sample_options
    sample_kb_dict None
  = inr (tuple_of
      {| x := [[1]]%Z; x_mask := [[1]]%Q; kb_x := [[[[0; 0]]]]%Q;
         y := [[2]]%Z; y_mask := [[1]]%Q; kb_y := [[[[1; 0]]]]%Q;
         kb_att := [[[0]]]%Q; l := [0]%Z |}).
Proof. vm_compute. reflexivity. Qed.

(** The filter rebuilds [seqs_x] and [seqs_y] only: after the first
    example is dropped, column 0 holds the ids of the second example next
    to the label and the lemma pairs of the first. *)
Example filter_leaves_lemmas_and_labels :
  prepare_data [[1; 2; 3]; [4; 4]]%Z sample_seqs_y [[8; 7; 8]; [8; 8]]%Z
    sample_seqs_y_lemma sample_labels sample_options sample_kb_dict (Some 3%Z)
  = inr (tuple_of
      {| x := [[4]; [4]]%Z; x_mask := [[1]; [1]]%Q;
         kb_x := [[[[0; 0]; [0; 0]]]; [[[1; 0]; [0; 0]]]]%Q;
         y := [[6]; [7]]%Z; y_mask := [[1]; [1]]%Q;
         kb_y := [[[[0; 0]; [0; 0]]]; [[[0; 0]; [0; 0]]]]%Q;
         kb_att := [[[0; 0]]; [[1; 0]]]%Q; l := [0]%Z |}).
Proof. vm_compute. reflexivity. Qed.

End BatchSpec.

(** ** The presence matrix and the examples of the batch *)

Module AlignedSpec.
Import Batch BatchSpec Aligned.

Lemma filter_all {A} (f : A -> bool) (xs : list A) :
  Forall (fun a => f a = true) xs -> List.filter f xs = xs.
Proof.
  induction 1 as [|a xs Ha _ IH]; [done|]. simpl. by rewrite Ha, IH.
Qed.

Lemma zip_passes (m : Z) {A} : forall (seqs_x seqs_y : list (list Z)) (rest : list A),
  Forall (fun s => (Z.of_nat (length s) < m)%Z) seqs_x ->
  Forall (fun s => (Z.of_nat (length s) < m)%Z) seqs_y ->
  Forall (fun ex : list Z * (list Z * A) =>
            bool_decide (Z.of_nat (length ex.1) < m)%Z
            && bool_decide (Z.of_nat (length ex.2.1) < m)%Z = true)
    (zip seqs_x (zip seqs_y rest)).
Proof.
  induction seqs_x as [|s_x seqs_x IH]; intros seqs_y rest Hx Hy; [constructor|].
  destruct seqs_y as [|s_y seqs_y]; [constructor|].
  destruct rest as [|r rest]; [constructor|].
  apply Forall_cons in Hx as [Hsx Hx]. apply Forall_cons in Hy as [Hsy Hy].
  simpl. constructor; [|by apply IH].
  simpl. by rewrite !bool_decide_eq_true_2.
Qed.

(** When no example is dropped, the examples of the batch are the tuples
    that the fill loop visits. *)
Lemma kept_examples_all_pass maxlen seqs_x seqs_y seqs_x_lemma seqs_y_lemma labels :
  length seqs_y = length seqs_x -> all_pass maxlen seqs_x seqs_y ->
  kept_examples maxlen seqs_x seqs_y seqs_x_lemma seqs_y_lemma labels
  = examples maxlen seqs_x seqs_y seqs_x_lemma seqs_y_lemma labels.
Proof.
  intros Hlen Hpass. rewrite examples_all_pass by done.
  unfold kept_examples. destruct maxlen as [m|]; [|done].
  destruct (Hpass m eq_refl) as [Hx Hy].
  apply filter_all. by apply zip_passes.
Qed.

(** When the filter drops no example, each [kb_att[p, i, h]] is 1
    exactly when the premise lemma at position [p] of example [i] maps to
    its hypothesis lemma at position [h]. *)
Lemma kb_att_presence_no_drop seqs_x seqs_y seqs_x_lemma seqs_y_lemma labels
    options kb_dict maxlen b :
  length seqs_y = length seqs_x -> all_pass maxlen seqs_x seqs_y ->
  prepare_data seqs_x seqs_y seqs_x_lemma seqs_y_lemma labels options kb_dict
    maxlen = inr (tuple_of b) ->
  forall p i h v, get3 (kb_att b) p i h = Some v ->
    v = presence kb_dict
          (kept_examples maxlen seqs_x seqs_y seqs_x_lemma seqs_y_lemma labels)
          p i h.
Proof.
  intros Hlen Hpass Hrun p i h v Hv.
  rewrite kept_examples_all_pass by done.
  destruct (prepare_data_build _ _ _ _ _ _ _ _ _ Hrun)
    as (kx & lx & ky & ly & Hkept & Hbuild).
  unfold examples. rewrite Hkept.
  by apply (build_batch_kb_att _ _ _ _ _ _ _ _ _ _ Hbuild).
Qed.

(** C10 at a batch built after the filter has dropped an example
    ([maxlen = 3], first premise of length 3).  The examples of the batch
    are the second and the third of the input; the filter leaves the lemma
    lists as they were, so column 0 (premise [[4]], lemma 8) is filled from
    the lemma sequences of the dropped example (lemma 7 at position 0):
    [kb_att[0, 0, 0]] is 1 although lemma 8 has no entry in the knowledge
    table. *)
Theorem kb_att_misaligned_after_drop :
  prepare_data drop_seqs_x drop_seqs_y drop_seqs_x_lemma drop_seqs_y_lemma
    drop_labels sample_options sample_kb_dict (Some 3%Z)
  = inr (tuple_of drop_batch) /\
  kept_examples (Some 3%Z) drop_seqs_x drop_seqs_y drop_seqs_x_lemma
    drop_seqs_y_lemma drop_labels
  = [([4], ([6], ([8], ([9], 1)))); ([5; 6], ([7], ([8; 8], ([9], 2))))]%Z /\
  examples (Some 3%Z) drop_seqs_x drop_seqs_y drop_seqs_x_lemma
    drop_seqs_y_lemma drop_labels
  = [([4], ([6], ([7; 7; 8], ([9], 0)))); ([5; 6], ([7], ([8], ([9], 1))))]%Z /\
  get2 (x drop_batch) 0 0 = Some 4%Z /\
  get3 (kb_att drop_batch) 0 0 0 = Some 1%Q /\
  related sample_kb_dict 8 9 = false /\
  presence sample_kb_dict
    (kept_examples (Some 3%Z) drop_seqs_x drop_seqs_y drop_seqs_x_lemma
       drop_seqs_y_lemma drop_labels) 0 0 0 = 0%Q /\
  ~ (forall p i h v, get3 (kb_att drop_batch) p i h = Some v ->
       v = presence sample_kb_dict
             (kept_examples (Some 3%Z) drop_seqs_x drop_seqs_y
                drop_seqs_x_lemma drop_seqs_y_lemma drop_labels) p i h).
Proof.
  split; [vm_compute; reflexivity|].
  split; [vm_compute; reflexivity|].
  split; [vm_compute; reflexivity|].
  split; [reflexivity|]. split; [reflexivity|].
  split; [vm_compute; reflexivity|].
  assert (presence sample_kb_dict
            (kept_examples (Some 3%Z) drop_seqs_x drop_seqs_y drop_seqs_x_lemma
               drop_seqs_y_lemma drop_labels) 0 0 0 = 0%Q) as Hzero
    by (vm_compute; reflexivity).
  split; [exact Hzero|].
  intros Hclaim. specialize (Hclaim 0 0 0 1%Q eq_refl).
  rewrite Hzero in Hclaim. discriminate Hclaim.
Qed.

End AlignedSpec.

(** ** The recurrent step under a mask *)

Module LstmSpec.
Import Tensor Lstm.
Local Open Scope R_scope.

Lemma step_masked_out (dim : nat) (U : nat -> nat -> R) (m_ : nat -> R)
    (x_ h_ c_ : nat -> nat -> R) (s j : nat) :
  m_ s = 0 ->
  out_h (_step dim U m_ x_ h_ c_) s j = h_ s j /\
  out_c (_step dim U m_ x_ h_ c_) s j = c_ s j.
Proof. intros Hm. simpl. rewrite Hm. split; lra. Qed.

(** C8. In [_step], an example whose mask entry is 0 keeps the hidden and
    the cell state of the previous step; an example whose mask entry is 1
    receives the gated update [c = f * c_ + i * tanh(..)],
    [h = o * tanh(c)], with sigmoid gates over the slices of
    [h_ . U + x_]. *)
Theorem step_carries_state (dim : nat) (U : nat -> nat -> R) (m_ : nat -> R)
    (x_ h_ c_ : nat -> nat -> R) (s j : nat) :
  let r := _step dim U m_ x_ h_ c_ in
  (m_ s = 0 -> out_h r s j = h_ s j /\ out_c r s j = c_ s j) /\
  (m_ s = 1 ->
     out_c r s j
       = out_f r s j * c_ s j
         + out_i r s j * tanh (_slice (out_preact r) 3 dim s j) /\
     out_h r s j = out_o r s j * tanh (out_c r s j)) /\
  out_i r s j = sigmoid (_slice (out_preact r) 0 dim s j) /\
  out_f r s j = sigmoid (_slice (out_preact r) 1 dim s j) /\
  out_o r s j = sigmoid (_slice (out_preact r) 2 dim s j) /\
  (forall s' j', out_preact r s' j' = dot h_ U dim s' j' + x_ s' j').
Proof.
  intros r. split; [apply step_masked_out|].
  split; [|done]. intros Hm. simpl. rewrite Hm. split; lra.
Qed.

(** A step in which every example is masked out. *)
Lemma step_carries_state_witness :
  let r := _step 1 (fun _ _ => 1) (fun _ => 0) (fun _ _ => 2)
             (fun _ _ => 3) (fun _ _ => 4) in
  out_h r 0%nat 0%nat = 3 /\ out_c r 0%nat 0%nat = 4.
Proof.
  apply (proj1 (step_carries_state 1 (fun _ _ => 1) (fun _ => 0)
                  (fun _ _ => 2) (fun _ _ => 3) (fun _ _ => 4) 0 0)).
  reflexivity.
Defined.

(** Across the scan: at a step whose mask entry is 0 the layer emits the
    states it emitted one step earlier (the zero state at the first step). *)
Lemma lstm_layer_carries_state (dim : nat) (U W : nat -> nat -> R)
    (b : nat -> R) (nin : nat) (state_below : nat -> nat -> nat -> R)
    (mask : nat -> nat -> R) (t s j : nat) :
  mask t s = 0 ->
  let now := lstm_layer dim U W b nin state_below (Some mask) t in
  let prev :=
    match t with
    | O => (fun _ _ => 0, fun _ _ => 0)
    | S t' => lstm_layer dim U W b nin state_below (Some mask) t'
    end in
  now.1 s j = prev.1 s j /\ now.2 s j = prev.2 s j.
Proof.
  intros Hm. unfold lstm_layer.
  set (sb := fun t s j => dot (state_below t) W nin s j + b j).
  assert (forall t, (scan dim U mask sb (S t)).1 s j
                    = out_h (_step dim U (mask t) (sb t)
                               (scan dim U mask sb t).1 (scan dim U mask sb t).2) s j
                 /\ (scan dim U mask sb (S t)).2 s j
                    = out_c (_step dim U (mask t) (sb t)
                               (scan dim U mask sb t).1 (scan dim U mask sb t).2) s j)
    as Hstep.
  { intros t0. simpl. by destruct (scan dim U mask sb t0). }
  destruct (Hstep t) as [-> ->].
  destruct (step_masked_out dim U (mask t) (sb t)
              (scan dim U mask sb t).1 (scan dim U mask sb t).2 s j Hm)
    as [-> ->].
  by destruct t.
Qed.

End LstmSpec.

(** ** Attention weights are normalised *)

Module AttentionSpec.
Import Tensor Attention.
Local Open Scope R_scope.

Lemma rsum_ext n (f g : nat -> R) :
  (forall k, (k < n)%nat -> f k = g k) -> rsum n f = rsum n g.
Proof.
  induction n as [|n IH]; simpl; intros Hfg; [done|].
  rewrite IH, (Hfg n) by (intros; try apply Hfg; lia). done.
Qed.

Lemma rsum_div n (f : nat -> R) (c : R) : rsum n (fun k => f k / c) = rsum n f / c.
Proof. induction n as [|n IH]; simpl; [lra | rewrite IH; lra]. Qed.

Lemma rsum_nonneg n (f : nat -> R) :
  (forall k, (k < n)%nat -> 0 <= f k) -> 0 <= rsum n f.
Proof.
  induction n as [|n IH]; simpl; intros Hf; [lra|].
  assert (0 <= rsum n f) by (apply IH; intros; apply Hf; lia).
  assert (0 <= f n) by (apply Hf; lia). lra.
Qed.

Lemma rsum_pos n (f : nat -> R) k0 :
  (forall k, (k < n)%nat -> 0 <= f k) -> (k0 < n)%nat -> 0 < f k0 ->
  0 < rsum n f.
Proof.
  induction n as [|n IH]; simpl; intros Hf Hk0 Hpos; [lia|].
  assert (0 <= rsum n f) by (apply rsum_nonneg; intros; apply Hf; lia).
  assert (0 <= f n) by (apply Hf; lia).
  destruct (decide (k0 = n)) as [->|Hne]; [lra|].
  assert (0 < rsum n f) by (apply IH; [intros; apply Hf; lia | lia | done]).
  lra.
Qed.

(** A masked softmax: exponentials of shifted scores, weighted by a
    zero-one mask and divided by their sum, add up to one over the valid
    positions. *)
Lemma masked_softmax_sums_to_one n (score mask : nat -> R) (shift : R) k0 :
  is_mask mask -> (k0 < n)%nat -> mask k0 = 1 ->
  let w := fun k => exp (score k - shift) * mask k in
  rsum_valid mask n (fun k => w k / rsum n w) = 1.
Proof.
  intros Hmask Hk0 Hvalid w. unfold rsum_valid.
  assert (forall k, 0 <= w k) as Hnonneg.
  { intros k. unfold w. pose proof (exp_pos (score k - shift)).
    destruct (Hmask k) as [-> | ->]; lra. }
  assert (0 < rsum n w) as Hpos.
  { apply (rsum_pos n w k0); [by intros | done |].
    unfold w. rewrite Hvalid. pose proof (exp_pos (score k0 - shift)). lra. }
  rewrite (rsum_ext n _ (fun k => w k / rsum n w)).
  - rewrite rsum_div. field. lra.
  - intros k _. destruct (Req_dec_T (mask k) 1) as [|Hne]; [done|].
    destruct (Hmask k) as [Hz | ?]; [|done].
    unfold w at 1. rewrite Hz. lra.
Qed.

(** C2, as the code has it. [alpha] is normalised over the premise axis:
    for every hypothesis step, its weights over the valid premise steps of
    an example sum to 1; [beta] is normalised over the hypothesis axis: for
    every premise step, its weights over the valid hypothesis steps sum to
    1.  Each is the exponential of the score minus the maximum along the
    normalised axis, masked, and divided by the sum of the masked
    exponentials. *)
Theorem attention_normalised (n_timesteps_x1 n_timesteps_x2 dimctx : nat)
    (ctx1 ctx2 : nat -> nat -> nat -> R) (x1_mask x2_mask : nat -> nat -> R)
    (kb_att : nat -> nat -> nat -> R) (attention_lambda : R) (i p0 h0 : nat) :
  is_mask (fun p => x1_mask p i) -> is_mask (fun h => x2_mask h i) ->
  (p0 < n_timesteps_x1)%nat -> x1_mask p0 i = 1 ->
  (h0 < n_timesteps_x2)%nat -> x2_mask h0 i = 1 ->
  let wm := weight_matrix dimctx ctx1 ctx2 kb_att attention_lambda in
  let a := alpha n_timesteps_x1 dimctx ctx1 ctx2 x1_mask kb_att attention_lambda in
  let b := beta n_timesteps_x2 dimctx ctx1 ctx2 x2_mask kb_att attention_lambda in
  (forall h, rsum_valid (fun p => x1_mask p i) n_timesteps_x1
               (fun p => a p h i) = 1) /\
  (forall p, rsum_valid (fun h => x2_mask h i) n_timesteps_x2
               (fun h => b p h i) = 1) /\
  (forall p h, a p h i
     = exp (wm i p h - rmax n_timesteps_x1 (fun p' => wm i p' h)) * x1_mask p i
       / rsum n_timesteps_x1 (fun p' =>
           exp (wm i p' h - rmax n_timesteps_x1 (fun p' => wm i p' h))
           * x1_mask p' i)) /\
  (forall p h, b p h i
     = exp (wm i p h - rmax n_timesteps_x2 (fun h' => wm i p h')) * x2_mask h i
       / rsum n_timesteps_x2 (fun h' =>
           exp (wm i p h' - rmax n_timesteps_x2 (fun h' => wm i p h'))
           * x2_mask h' i)).
Proof.
  intros Hm1 Hm2 Hp0 Hv1 Hh0 Hv2 wm a b. repeat split.
  - intros h.
    exact (masked_softmax_sums_to_one n_timesteps_x1
             (fun p => wm i p h) (fun p => x1_mask p i)
             (rmax n_timesteps_x1 (fun p' => wm i p' h)) p0 Hm1 Hp0 Hv1).
  - intros p.
    exact (masked_softmax_sums_to_one n_timesteps_x2
             (fun h => wm i p h) (fun h => x2_mask h i)
             (rmax n_timesteps_x2 (fun h' => wm i p h')) h0 Hm2 Hh0 Hv2).
Qed.

(** The sample input: one premise step, two hypothesis steps. *)
Lemma attention_normalised_witness :
  let a := alpha 1 0 sample_ctx sample_ctx sample_mask sample_ctx 0 in
  let b := beta 2 0 sample_ctx sample_ctx sample_mask sample_ctx 0 in
  (forall h, rsum_valid (fun p => sample_mask p 0%nat) 1
               (fun p => a p h 0%nat) = 1) /\
  (forall p, rsum_valid (fun h => sample_mask h 0%nat) 2
               (fun h => b p h 0%nat) = 1).
Proof.
  destruct (attention_normalised 1 2 0 sample_ctx sample_ctx sample_mask
              sample_mask sample_ctx 0 0 0 0) as (Ha & Hb & _).
  - intros k. by right.
  - intros k. by right.
  - lia.
  - reflexivity.
  - lia.
  - reflexivity.
  - split; [exact Ha | exact Hb].
Defined.

(** C2 as stated fails: on the sample input the weights [alpha[0, .]] of
    the only premise step, summed over the two valid hypothesis steps, give
    2, which is not within 1e-5 of 1. *)
Lemma alpha_row_sum_counterexample :
  let a := alpha 1 0 sample_ctx sample_ctx sample_mask sample_ctx 0 in
  sample_mask 0%nat 0%nat = 1 /\
  rsum_valid (fun h => sample_mask h 0%nat) 2 (fun h => a 0%nat h 0%nat) = 2 /\
  ~ (Rabs (rsum_valid (fun h => sample_mask h 0%nat) 2
             (fun h => a 0%nat h 0%nat) - 1) <= 1e-5).
Proof.
  intros a.
  assert (forall h, a 0%nat h 0%nat = 1) as Ha.
  { intros h. unfold a, alpha, weight_matrix_1, weight_matrix, sample_ctx,
      sample_mask. simpl.
    replace (0 + 0 * 0 - (0 + 0 * 0)) with 0 by lra. rewrite exp_0. lra. }
  assert (rsum_valid (fun h => sample_mask h 0%nat) 2
            (fun h => a 0%nat h 0%nat) = 2) as Hsum.
  { unfold rsum_valid, sample_mask. simpl.
    destruct (Req_dec_T 1 1) as [_|Hne]; [|by destruct Hne].
    rewrite !Ha. lra. }
  split; [reflexivity|]. split; [exact Hsum|].
  rewrite Hsum. replace (2 - 1) with 1 by lra. rewrite Rabs_R1. lra.
Qed.

End AttentionSpec.

(** ** The update rule of [rmsprop] *)

Module RmspropSpec.
Import Rmsprop.
Local Open Scope R_scope.

Lemma entry_map2 f a b k j x y :
  entry a k j = Some x -> entry b k j = Some y ->
  entry (map2 f a b) k j = Some (f x y).
Proof.
  unfold entry, map2. intros Ha Hb. rewrite lookup_zip_with.
  destruct (a !! k) as [ta|]; [|discriminate].
  destruct (b !! k) as [tb|]; [|discriminate]. simpl.
  by rewrite lookup_zip_with, Ha, Hb.
Qed.

Lemma entry_udn ud zg rg rg2 k j u z r r2 :
  entry ud k j = Some u -> entry zg k j = Some z ->
  entry rg k j = Some r -> entry rg2 k j = Some r2 ->
  entry (zip_with (fun ud '(zg, (rg, rg2)) =>
           zip_with (fun ud '(zg, (rg, rg2)) => updir_new ud zg rg rg2)
             ud (zip zg (zip rg rg2)))
           ud (zip zg (zip rg rg2))) k j
  = Some (updir_new u z r r2).
Proof.
  unfold entry. intros Hu Hz Hr Hr2. rewrite !lookup_zip_with.
  destruct (ud !! k) as [tu|]; [|discriminate].
  destruct (zg !! k) as [tz|]; [|discriminate].
  destruct (rg !! k) as [tr|]; [|discriminate].
  destruct (rg2 !! k) as [tr2|]; [|discriminate]. simpl.
  by rewrite !lookup_zip_with, Hu, Hz, Hr, Hr2.
Qed.

(** C4. [f_update] adds [0.9 * previousUpdate - 1e-4 * g / sqrt(movingVar
    + 1e-4)] to every parameter entry, where [movingVar] is the moving
    average of the squared gradient minus the square of the moving average
    of the gradient; [f_grad_shared] moves both averages with decay 0.95;
    and the result of [f_update] does not depend on [lr]. *)
Theorem rmsprop_update (lr : R) (grads : list (list R)) (st : state)
    (k j : nat) (p ud zg rg rg2 g : R) :
  entry (tparams st) k j = Some p -> entry (updir st) k j = Some ud ->
  entry (zipped_grads st) k j = Some zg ->
  entry (running_grads st) k j = Some rg ->
  entry (running_grads2 st) k j = Some rg2 ->
  entry grads k j = Some g ->
  entry (tparams (f_update lr st)) k j
    = Some (p + (0.9 * ud - 1e-4 * zg / sqrt (movingVar rg rg2 + 1e-4))) /\
  entry (updir (f_update lr st)) k j
    = Some (0.9 * ud - 1e-4 * zg / sqrt (movingVar rg rg2 + 1e-4)) /\
  entry (zipped_grads (f_grad_shared grads st)) k j = Some g /\
  entry (running_grads (f_grad_shared grads st)) k j
    = Some (0.95 * rg + 0.05 * g) /\
  entry (running_grads2 (f_grad_shared grads st)) k j
    = Some (0.95 * rg2 + 0.05 * g ^ 2) /\
  (forall lr', f_update lr' st = f_update lr st).
Proof.
  intros Hp Hud Hzg Hrg Hrg2 Hg.
  pose proof (entry_udn _ _ _ _ k j _ _ _ _ Hud Hzg Hrg Hrg2) as Hudn.
  repeat split.
  - unfold f_update; simpl. by apply (entry_map2 Rplus).
  - exact Hudn.
  - unfold f_grad_shared, entry in *; simpl. rewrite lookup_zip_with.
    destruct (zipped_grads st !! k) as [tz|]; [|discriminate].
    destruct (grads !! k) as [tg|]; [|discriminate]. exact Hg.
  - unfold f_grad_shared; simpl.
    by apply (entry_map2 (fun rg g => 0.95 * rg + 0.05 * g)).
  - unfold f_grad_shared; simpl.
    by apply (entry_map2 (fun rg2 g => 0.95 * rg2 + 0.05 * g ^ 2)).
Qed.

(** One parameter with one entry. *)
Lemma rmsprop_update_witness :
  let st := {| tparams := [[1]]; zipped_grads := [[2]];
               running_grads := [[0]]; running_grads2 := [[1]];
               updir := [[0]] |} in
  entry (tparams (f_update 0.01 st)) 0 0
    = Some (1 + (0.9 * 0 - 1e-4 * 2 / sqrt (movingVar 0 1 + 1e-4))) /\
  entry (updir (f_update 0.01 st)) 0 0
    = Some (0.9 * 0 - 1e-4 * 2 / sqrt (movingVar 0 1 + 1e-4)) /\
  entry (zipped_grads (f_grad_shared [[3]] st)) 0 0 = Some 3 /\
  entry (running_grads (f_grad_shared [[3]] st)) 0 0
    = Some (0.95 * 0 + 0.05 * 3) /\
  entry (running_grads2 (f_grad_shared [[3]] st)) 0 0
    = Some (0.95 * 1 + 0.05 * 3 ^ 2) /\
  (forall lr', f_update lr' st = f_update 0.01 st).
Proof.
  apply (rmsprop_update 0.01 [[3]]
           {| tparams := [[1]]; zipped_grads := [[2]]; running_grads := [[0]];
              running_grads2 := [[1]]; updir := [[0]] |} 0 0 1 0 2 0 1 3);
    reflexivity.
Defined.

End RmspropSpec.

(** ** Gradient-norm clipping *)

Module ClipSpec.
Import Clip.
Local Open Scope R_scope.

Lemma sumsq_nonneg g : 0 <= sumsq g.
Proof.
  induction g as [|e g IH]; simpl; [lra|].
  pose proof (pow2_ge_0 e). lra.
Qed.

Lemma sumsq_scale k g : sumsq (map (fun e => e * k) g) = k ^ 2 * sumsq g.
Proof. induction g as [|e g IH]; simpl; [lra | rewrite IH; lra]. Qed.

Lemma g2_acc grads : forall acc,
  fold_left (fun acc g => acc + sumsq g) grads acc = acc + g2 grads.
Proof.
  unfold g2. induction grads as [|g grads IH]; simpl; intros acc; [lra|].
  rewrite (IH (acc + sumsq g)), (IH (0 + sumsq g)). lra.
Qed.

Lemma g2_cons g grads : g2 (g :: grads) = sumsq g + g2 grads.
Proof. unfold g2 at 1. simpl. rewrite g2_acc. lra. Qed.

Lemma g2_nonneg grads : 0 <= g2 grads.
Proof.
  induction grads as [|g grads IH]; [unfold g2; simpl; lra|].
  rewrite g2_cons. pose proof (sumsq_nonneg g). lra.
Qed.

Lemma g2_scale k grads :
  g2 (map (map (fun e => e * k)) grads) = k ^ 2 * g2 grads.
Proof.
  induction grads as [|g grads IH]; [unfold g2; simpl; lra|].
  simpl. rewrite !g2_cons, IH, sumsq_scale. lra.
Qed.

(** C5. With a positive threshold, the clipping block returns the
    gradients unchanged when their global L2 norm is at most [clip_c], and
    otherwise multiplies every entry by [clip_c / norm], after which the
    global norm is [clip_c]. *)
Theorem clip_norm (clip_c : R) (grads : list (list R)) :
  0 < clip_c ->
  (norm grads <= clip_c -> clip clip_c grads = grads) /\
  (clip_c < norm grads ->
     clip clip_c grads = map (map (fun e => e * (clip_c / norm grads))) grads /\
     norm (clip clip_c grads) = clip_c).
Proof.
  intros Hc. unfold clip, norm.
  destruct (Rlt_dec 0 clip_c) as [_|Hn]; [|contradiction].
  pose proof (g2_nonneg grads) as Hg2.
  pose proof (sqrt_def (g2 grads) Hg2) as Hsq.
  pose proof (sqrt_pos (g2 grads)) as Hs.
  split.
  - intros Hle. destruct (Rlt_dec (clip_c ^ 2) (g2 grads)) as [Hlt|_].
    + exfalso. nra.
    + apply map_id.
  - intros Hlt. destruct (Rlt_dec (clip_c ^ 2) (g2 grads)) as [_|Hn].
    + assert (map (fun g => map (fun e => e / sqrt (g2 grads) * clip_c) g) grads
              = map (map (fun e => e * (clip_c / sqrt (g2 grads)))) grads) as ->.
      { apply map_ext. intros g. apply map_ext. intros e. field. lra. }
      split; [done|]. rewrite g2_scale.
      replace ((clip_c / sqrt (g2 grads)) ^ 2 * g2 grads) with (clip_c ^ 2).
      * apply sqrt_pow2. lra.
      * set (s := sqrt (g2 grads)) in *. rewrite <- Hsq. field. lra.
    + exfalso. apply Hn. nra.
Qed.

(** Gradients of norm 5 are scaled to the threshold 1; gradients of norm
    1/2 pass unchanged. *)
Lemma clip_norm_witness :
  0 < 1 /\
  1 < norm [[3; 4]] /\ norm (clip 1 [[3; 4]]) = 1 /\
  norm [[1 / 2]] <= 1 /\ clip 1 [[1 / 2]] = [[1 / 2]].
Proof.
  assert (0 < 1) as H01 by lra.
  assert (norm [[3; 4]] = 5) as H5.
  { unfold norm, g2. simpl.
    replace (0 + (3 * (3 * 1) + (4 * (4 * 1) + 0))) with (5 * 5) by lra.
    apply sqrt_square. lra. }
  assert (norm [[1 / 2]] = 1 / 2) as Hhalf.
  { unfold norm, g2. simpl.
    replace (0 + (1 / 2 * (1 / 2 * 1) + 0)) with (1 / 2 * (1 / 2)) by lra.
    apply sqrt_square. lra. }
  assert (1 < norm [[3; 4]]) as Hgt by (rewrite H5; lra).
  assert (norm [[1 / 2]] <= 1) as Hle by (rewrite Hhalf; lra).
  split; [exact H01|]. split; [exact Hgt|].
  split; [exact (proj2 (proj2 (clip_norm 1 [[3; 4]] H01) Hgt))|].
  split; [exact Hle|].
  exact (proj1 (clip_norm 1 [[1 / 2]] H01) Hle).
Defined.

End ClipSpec.

(** ** The control loop: early stopping, empty batches, non-finite values *)

Module TrainSpec.
Import Batch Train.

Lemma fgt_fle a b : fgt a b = true -> fle a b = false.
Proof.
  destruct a as [p|[]|], b as [q|[]|]; simpl; try done.
  by intros ->%negb_true_iff.
Qed.

Lemma fgt_isnan a b : fgt a b = true -> isnan a = false.
Proof. by destruct a as [p|[]|]. Qed.

Section loop.
Context {M params : Type}.
Context (f_grad_shared : list pyval -> M -> float * M).
Context (f_update : Q -> M -> M).
Context (use_noise : Q -> M -> M).
Context (unzip : M -> params).
Context (zipp : params -> M -> M).
Context (pred_acc : M -> float).
Implicit Types (st : @tstate M params).

Lemma record_result_worse eidx valid_err st m :
  uidx st <> 0%Z -> array_min (history_errs st) = inr m ->
  fgt valid_err m = true ->
  record_result unzip eidx valid_err st
    = inr (set_wait_counter (wait_counter st + 1)%Z st).
Proof.
  intros Hu Hmin Hgt. unfold record_result. rewrite Hmin. simpl.
  rewrite bool_decide_eq_false_2, (fgt_fle _ _ Hgt) by done. simpl.
  rewrite Hmin. simpl. by rewrite Hgt.
Qed.

Lemma decay_waited eidx st bp :
  (wait_counter st >= wait_N)%Z -> best_p st = Some bp ->
  decay zipp eidx st = inr (decayed zipp eidx bp st).
Proof.
  intros Hw Hb. unfold decay, decayed.
  rewrite bool_decide_eq_true_2 by done. by rewrite Hb.
Qed.

(** One validation check whose error is not a new best. *)
Lemma validate_worse cfg eidx a st bp m :
  uidx st <> 0%Z -> best_p st = Some bp -> wait_counter st = 0%Z ->
  array_min (history_errs st ++ [one_minus a]) = inr m ->
  fgt (one_minus a) m = true ->
  validate unzip zipp cfg eidx a st
    = inr (decayed zipp eidx bp
             (log (EvValid (one_minus a))
                (set_history_errs (history_errs st ++ [one_minus a]) st)),
           bool_decide (bad_counter st + 1 > patience cfg)%Z).
Proof.
  intros Hu Hb Hw Hmin Hgt. unfold validate.
  rewrite (record_result_worse _ _ _ m) by done. simpl.
  rewrite (decay_waited _ _ bp) by (simpl; unfold wait_N; done || lia). simpl.
  rewrite Hw. simpl.
  case_bool_decide; [done|]. by rewrite (fgt_isnan _ _ Hgt).
Qed.

(** Consecutive checks that are not a new best, up to the one that
    exhausts the patience. *)
Lemma checks_worsening cfg eidx : forall accs st bp,
  uidx st <> 0%Z -> best_p st = Some bp -> wait_counter st = 0%Z ->
  worsening (history_errs st) accs -> accs <> [] ->
  (bad_counter st + Z.of_nat (length accs) = patience cfg + 1)%Z ->
  exists st',
    checks unzip zipp cfg eidx accs st = inr (st', true, []) /\
    lrate st' = Nat.iter (length accs) (fun q => (q * 0.5)%Q) (lrate st) /\
    lr_change_list st' = lr_change_list st ++ replicate (length accs) eidx /\
    machine st' = Nat.iter (length accs) (zipp bp) (machine st) /\
    bad_counter st' = (patience cfg + 1)%Z /\ wait_counter st' = 0%Z /\
    best_p st' = Some bp /\
    history_errs st' = history_errs st ++ (one_minus <$> accs).
Proof.
  induction accs as [|a rest IH]; intros st bp Hu Hb Hw Hworse Hne Hbad;
    [done|].
  destruct Hworse as [(m & Hmin & Hgt) Hrest]. simpl in Hbad. simpl checks.
  rewrite (validate_worse cfg eidx a st bp m) by done. cbn [bind].
  set (st1 := decayed zipp eidx bp _).
  destruct rest as [|a' rest'].
  - rewrite bool_decide_eq_true_2 by (simpl in Hbad; lia).
    exists st1. simpl. repeat split; try done.
  - rewrite bool_decide_eq_false_2 by (simpl in Hbad; lia).
    destruct (IH st1 bp) as (st' & Hrun & Hlr & Hch & Hmach & Hbc & Hwc & Hbp & Hh);
      try done.
    { simpl in *. lia. }
    exists st'. split; [exact Hrun|].
    rewrite Hlr, Hch, Hmach, Hh.
    change (length (a :: a' :: rest')) with (S (length (a' :: rest'))).
    rewrite !Nat.iter_succ_r. unfold st1. simpl.
    repeat split; try done.
    + by rewrite <- app_assoc.
    + by rewrite <- app_assoc.
Qed.

(** The early stopping of a run that holds a snapshot ([best_p] is not
    [None]).  A validation check whose error is not a new best increments
    the wait counter; when the wait counter has reached the threshold the
    loop halves the learning rate, restores the snapshot, resets the wait
    counter and increments the bad counter; a check that leaves the bad
    counter above the patience stops the loop; and [patience + 1]
    consecutive checks that are not a new best give exactly [patience + 1]
    halvings, the last check stopping the loop. *)
Theorem early_stopping (cfg : config) (eidx : nat) :
  (forall valid_err st m,
     uidx st <> 0%Z -> array_min (history_errs st) = inr m ->
     fgt valid_err m = true ->
     exists st1, record_result unzip eidx valid_err st = inr st1 /\
       wait_counter st1 = (wait_counter st + 1)%Z) /\
  (forall st bp,
     (wait_counter st >= wait_N)%Z -> best_p st = Some bp ->
     exists st2, decay zipp eidx st = inr st2 /\
       lrate st2 = (lrate st * 0.5)%Q /\ machine st2 = zipp bp (machine st) /\
       wait_counter st2 = 0%Z /\ bad_counter st2 = (bad_counter st + 1)%Z) /\
  (forall a st st', validate unzip zipp cfg eidx a st = inr (st', true) <->
     exists st1,
       bind (record_result unzip eidx (one_minus a)
               (log (EvValid (one_minus a))
                  (set_history_errs (history_errs st ++ [one_minus a]) st)))
            (decay zipp eidx) = inr st1 /\
       (bad_counter st1 > patience cfg)%Z /\ st' = st1) /\
  (forall accs st bp,
     (0 <= patience cfg)%Z -> uidx st <> 0%Z -> best_p st = Some bp ->
     bad_counter st = 0%Z -> wait_counter st = 0%Z ->
     length accs = Z.to_nat (patience cfg + 1) ->
     worsening (history_errs st) accs ->
     exists st',
       checks unzip zipp cfg eidx accs st = inr (st', true, []) /\
       lrate st'
         = Nat.iter (Z.to_nat (patience cfg + 1)) (fun q => (q * 0.5)%Q) (lrate st) /\
       lr_change_list st'
         = lr_change_list st ++ replicate (Z.to_nat (patience cfg + 1)) eidx /\
       machine st' = Nat.iter (Z.to_nat (patience cfg + 1)) (zipp bp) (machine st) /\
       bad_counter st' = (patience cfg + 1)%Z).
Proof.
  repeat split.
  - intros valid_err st m Hu Hmin Hgt. eexists.
    split; [by apply (record_result_worse _ _ _ m)|done].
  - intros st bp Hw Hb. exists (decayed zipp eidx bp st).
    split; [by apply decay_waited|done].
  - unfold validate. intros Hv.
    destruct (record_result _ _ _ _) as [e|st1]; [discriminate|]. simpl in *.
    destruct (decay _ _ _) as [e|st2]; [discriminate|]. simpl in *.
    exists st2. case_bool_decide; [|discriminate].
    injection Hv as <-. done.
  - unfold validate. intros (st1 & Hrun & Hbad & ->).
    destruct (record_result _ _ _ _) as [e|st0]; [discriminate|]. simpl in *.
    rewrite Hrun. simpl. by rewrite bool_decide_eq_true_2.
  - intros accs st bp Hpat Hu Hb Hbad Hw Hlen Hworse.
    destruct (checks_worsening cfg eidx accs st bp)
      as (st' & Hrun & Hlr & Hch & Hmach & Hbc & _); try done.
    + intros ->. simpl in Hlen. lia.
    + rewrite Hbad, Hlen. lia.
    + exists st'. rewrite <- Hlen. done.
Qed.

Lemma array_min_snoc hist v : exists m, array_min (hist ++ [v]) = inr m.
Proof. destruct hist; simpl; eauto. Qed.

(** A batch that the filter empties: the 7-element tuple cannot be
    unpacked into the 8 names of the loop. *)
Lemma body_none_tuple cfg eidx x1 x2 x1_lemma x2_lemma y st :
  prepare_data x1 x2 x1_lemma x2_lemma y (model_options cfg) (kb_dict cfg)
    (maxlen cfg) = inr none_tuple ->
  body f_grad_shared f_update use_noise unzip zipp pred_acc cfg eidx
    (x1, x2, x1_lemma, x2_lemma, y) st = inl ValueError.
Proof. intros Hprep. unfold body. by rewrite Hprep. Qed.

(** A validation check that raises [estop] ends the body with a [break]. *)
Lemma after_update_early_stop cfg eidx st st' :
  let st2 := if bool_decide (numpy_mod (uidx st) (saveFreq cfg) = 0%Z)
             then log EvSave st else st in
  let st3 := set_machine (use_noise 0%Q (machine st2)) st2 in
  numpy_mod (uidx st2) (validFreq cfg) = 0%Z ->
  validate unzip zipp cfg eidx (pred_acc (machine st3)) st3 = inr (st', true) ->
  after_update use_noise unzip zipp pred_acc cfg eidx st = inr (Break st').
Proof.
  intros st2 st3 Hmod Hval. unfold after_update. fold st2.
  rewrite bool_decide_eq_true_2 by done. fold st3. by rewrite Hval.
Qed.

(** A [break] leaves the mini-batch loop and the epoch loop at once. *)
Lemma break_propagates cfg eidx mb rest train_data later st st' :
  (body f_grad_shared f_update use_noise unzip zipp pred_acc cfg eidx mb st
   = inr (Break st') ->
   batches f_grad_shared f_update use_noise unzip zipp pred_acc cfg eidx
     (mb :: rest) st = inr (Break st')) /\
  (batches f_grad_shared f_update use_noise unzip zipp pred_acc cfg eidx
     (train_data eidx) (set_n_samples 0 st) = inr (Break st') ->
   epochs f_grad_shared f_update use_noise unzip zipp pred_acc cfg train_data
     (eidx :: later) st = inr (Break st')).
Proof.
  split; intros Hrun; simpl; by rewrite Hrun.
Qed.





End loop.

(** A run with patience 1 and a snapshot: two checks that are not a new
    best halve the learning rate twice and stop. *)
Lemma early_stopping_witness :
  exists st',
    checks sample_unzip sample_zipp sample_config 0 [Fin 0.5; Fin 0.4] midrun
      = inr (st', true, []) /\
    lrate st' = Nat.iter 2 (fun q => (q * 0.5)%Q) (lrate midrun) /\
    lr_change_list st' = lr_change_list midrun ++ replicate 2 0 /\
    machine st' = Nat.iter 2 (sample_zipp 7) (machine midrun) /\
    bad_counter st' = (patience sample_config + 1)%Z.
Proof.
  apply (proj2 (proj2 (proj2
           (early_stopping (M := nat) sample_unzip sample_zipp sample_config 0)))
           [Fin 0.5; Fin 0.4] midrun 7).
  - simpl. lia.
  - simpl. lia.
  - reflexivity.
  - reflexivity.
  - reflexivity.
  - reflexivity.
  - split; [exists (Fin 0.1); split; reflexivity|].
    split; [exists (Fin 0.1); split; reflexivity|]. exact I.
Defined.

(** C3 at a batch that the filter empties ([maxlen = 3], premise of length
    3): [prepare_data] returns seven [None]s, and the loop raises
    [ValueError] when it unpacks them instead of skipping the batch. *)
Theorem empty_batch_unpack_fails :
  prepare_data [[1; 2; 3]]%Z [[4]]%Z [[7; 8; 7]]%Z [[9]]%Z [0]%Z
    sample_options sample_kb_dict (Some 3%Z) = inr none_tuple /\
  length none_tuple = 7 /\
  (forall b, length (tuple_of b) = 8) /\
  (forall st rest,
     batches sample_f_grad_shared sample_f_update sample_use_noise
       sample_unzip sample_zipp sample_pred_acc sample_config 0
       (long_minibatch :: rest) st = inl ValueError) /\
  train sample_f_grad_shared sample_f_update sample_use_noise sample_unzip
    sample_zipp sample_pred_acc sample_config
    (fun _ => [long_minibatch; short_minibatch]) (initial 0.01 0)
  = inl ValueError.
Proof.
  assert (prepare_data [[1; 2; 3]]%Z [[4]]%Z [[7; 8; 7]]%Z [[9]]%Z [0]%Z
            sample_options sample_kb_dict (Some 3%Z) = inr none_tuple) as Hprep
    by (vm_compute; reflexivity).
  split; [exact Hprep|]. split; [reflexivity|]. split; [reflexivity|].
  split.
  - intros st rest.
    pose proof (body_none_tuple sample_f_grad_shared sample_f_update
                  sample_use_noise sample_unzip sample_zipp sample_pred_acc
                  sample_config 0 _ _ _ _ _ st Hprep) as Hbody.
    cbn [batches]. unfold long_minibatch. by rewrite Hbody.
  - vm_compute. reflexivity.
Qed.

End TrainSpec.

(** ** Early stopping in a run that resumes from a saved history *)

Module ResumedSpec.
Import Batch Train TrainSpec Resumed.

(** C6 at a run that resumes from a saved history ([reload_] set, the
    archive holding the one error 0.1) with [validFreq = 1] and patience 1.
    The first validation (accuracy 0.5, error 0.5) is not a new best: it
    takes no snapshot and increments the wait counter, which reaches the
    threshold; the halving block then restores [best_p], which is still
    [None], and [zipp] raises [AttributeError].  The run ends there with
    the exception: nothing is restored and no early stop is reached.  With
    a snapshot in the same state the check halves the learning rate and
    restores the snapshot. *)
Theorem early_stopping_fails_after_reload :
  let at_check := set_machine 1 (set_uidx 1 (set_n_samples 1 (resumed 0.01 0))) in
  let recorded :=
    log (EvValid (one_minus (Fin 0.5)))
      (set_history_errs (history_errs at_check ++ [one_minus (Fin 0.5)])
         (log (EvUpdate 0.01) at_check)) in
  array_min (history_errs recorded) = inr (Fin 0.1) /\
  fgt (one_minus (Fin 0.5)) (Fin 0.1) = true /\
  (exists waited,
     record_result sample_unzip 0 (one_minus (Fin 0.5)) recorded = inr waited /\
     wait_counter waited = 1%Z /\ (wait_counter waited >= wait_N)%Z /\
     best_p waited = None /\
     decay sample_zipp 0 waited = inl AttributeError) /\
  validate sample_unzip sample_zipp sample_config 0 (Fin 0.5)
    (log (EvUpdate 0.01) at_check) = inl AttributeError /\
  train sample_f_grad_shared sample_f_update sample_use_noise sample_unzip
    sample_zipp sample_pred_acc sample_config (fun _ => [short_minibatch])
    (resumed 0.01 0) = inl AttributeError /\
  (exists st',
     train sample_f_grad_shared sample_f_update sample_use_noise sample_unzip
       sample_zipp sample_pred_acc sample_config (fun _ => [short_minibatch])
       (resumed_with_snapshot 0.01 0 0) = inr (PyNone, st') /\
     lrate st' = (0.01 * 0.5)%Q /\ bad_counter st' = 1%Z /\
     wait_counter st' = 0%Z /\ lr_change_list st' = [0]).
Proof.
  intros at_check recorded.
  split; [vm_compute; reflexivity|]. split; [vm_compute; reflexivity|].
  split.
  { eexists. split; [vm_compute; reflexivity|].
    split; [reflexivity|]. split; [vm_compute; discriminate|].
    split; [reflexivity|]. vm_compute. reflexivity. }
  split; [vm_compute; reflexivity|]. split; [vm_compute; reflexivity|].
  eexists. split; [vm_compute; reflexivity|].
  split; [vm_compute; reflexivity|]. by split_and!.
Qed.

End ResumedSpec.

(** ** The parameter store: creation, missing keys, untouched variables *)

Module StoreMore.
Import Store StoreSpec Archive.

Section facts.
Context {tensor : Type}.
Implicit Types (params : odict tensor) (tparams : odict loc) (h : gmap loc tensor).

Lemma pulled_functional tparams (out1 out2 : odict tensor) h :
  Forall2 (pulled h) tparams out1 -> Forall2 (pulled h) tparams out2 ->
  out1 = out2.
Proof.
  intros H1. revert out2.
  induction H1 as [|[k l] [k1 v1] tparams out1 [Hk1 Hv1] _ IH];
    intros out2 H2; inversion H2 as [|? [k2 v2] ? out2' [Hk2 Hv2] Hrest]; subst;
    [done|].
  simpl in *. f_equal; [|by apply IH]. f_equal; congruence.
Qed.

Lemma pulled_insert_fresh tparams (out : odict tensor) h l v :
  (forall l', l' ∈ tparams.*2 -> l' ∈ dom h) -> l ∉ dom h ->
  Forall2 (pulled h) tparams out ->
  Forall2 (pulled (<[l := v]> h)) tparams out.
Proof.
  intros Hdom Hl Hrel. induction Hrel as [|[k l0] [k' v'] tparams out [Hk Hv] _ IH];
    [constructor|].
  constructor.
  - split; [done|]. simpl in *. rewrite lookup_insert_ne; [done|].
    intros ->. apply Hl, Hdom, elem_of_cons. by left.
  - apply IH. intros l' Hl'. apply Hdom, elem_of_cons. by right.
Qed.

(** The store that [init_tparams] builds holds the initial values. *)
Lemma init_tparams_loop_pulled (items : odict tensor) :
  forall (acc : odict loc) (vals : odict tensor) (h : gmap loc tensor),
    NoDup (acc.*1 ++ items.*1) ->
    (forall l, l ∈ acc.*2 -> l ∈ dom h) ->
    Forall2 (pulled h) acc vals ->
    Forall2 (pulled (init_tparams_loop items acc h).1)
      (init_tparams_loop items acc h).2 (vals ++ items).
Proof.
  induction items as [|[kk pp] rest IH]; simpl; intros acc vals h Hnd Hdom Hrel.
  - by rewrite app_nil_r.
  - assert (kk ∉ acc.*1) as Hkk.
    { apply NoDup_app in Hnd as (_ & Hdisj & _). intros Hin.
      apply (Hdisj kk Hin). apply elem_of_cons. by left. }
    rewrite od_set_fresh by done.
    replace (vals ++ (kk, pp) :: rest) with ((vals ++ [(kk, pp)]) ++ rest)
      by by rewrite <- app_assoc.
    apply IH.
    + rewrite fmap_app, <- app_assoc. done.
    + intros l. rewrite fmap_app, elem_of_app, dom_insert_L.
      intros [Hl | ->%list_elem_of_singleton];
        [|apply elem_of_union; left; by apply elem_of_singleton].
      apply elem_of_union. right. by apply Hdom.
    + apply Forall2_app.
      * apply pulled_insert_fresh; [done | apply is_fresh | done].
      * constructor; [|constructor]. split; [done|]. simpl.
        apply lookup_insert_eq.
Qed.

(** X1. Pulling a store right after [init_tparams] has created it returns
    the parameters it was created from. *)
Theorem unzip_init_tparams params h :
  NoDup params.*1 ->
  unzip (init_tparams params h).2 (init_tparams params h).1 = inr params.
Proof.
  intros Hnd. unfold init_tparams.
  pose proof (init_tparams_loop_pulled params [] [] h) as Hrel. simpl in Hrel.
  specialize (Hrel Hnd (fun l Hl => False_ind _ (proj1 (elem_of_nil l) Hl))
                ltac:(constructor)).
  destruct (init_tparams_loop_spec params [] h) as [Hk Hl];
    [done | apply NoDup_nil_2 | by intros l Hin%elem_of_nil |].
  simpl in Hk.
  destruct (unzip_loop_spec (init_tparams_loop params [] h).2
              (init_tparams_loop params [] h).1 []) as (out & Hu & Hout).
  - by rewrite Hk.
  - intros k _. apply not_elem_of_nil.
  - intros l Hin. apply list_elem_of_lookup in Hin as [i Hi].
    rewrite list_lookup_fmap in Hi.
    apply fmap_Some in Hi as ([k l'] & He & ->).
    destruct (Forall2_lookup_l _ _ _ _ _ Hrel He) as ([k' v] & _ & _ & Hv).
    by eexists.
  - unfold unzip. rewrite Hu. simpl. f_equal.
    by apply (pulled_functional _ _ _ _ Hout Hrel).
Qed.

(** X2. [zipp] raises [KeyError] exactly when some key of the pushed
    parameters is not bound in the store, and returns otherwise. *)
Theorem zipp_key_error params tparams h :
  (zipp params tparams h = inl KeyError <->
   exists k, k ∈ params.*1 /\ k ∉ tparams.*1) /\
  ((exists h', zipp params tparams h = inr h') <->
   forall k, k ∈ params.*1 -> k ∈ tparams.*1).
Proof.
  revert h. induction params as [|[kk vv] rest IH]; simpl; intros h.
  - split; split.
    + discriminate.
    + intros (k & Hk & _). by apply elem_of_nil in Hk.
    + intros _ k Hk. by apply elem_of_nil in Hk.
    + intros _. by eexists.
  - destruct (od_get tparams kk) as [l|] eqn:Hl.
    + assert (kk ∈ tparams.*1) as Hkk by (apply od_get_is_Some; by eexists).
      destruct (IH (<[l := vv]> h)) as [IH1 IH2]. split.
      * rewrite IH1. split; intros (k & Hk & Hn); exists k.
        -- split; [apply elem_of_cons; by right | done].
        -- split; [|done]. apply elem_of_cons in Hk as [->|Hk]; [done|done].
      * rewrite IH2. split; intros Hall k Hk.
        -- apply elem_of_cons in Hk as [->|Hk]; [done | by apply Hall].
        -- apply Hall, elem_of_cons. by right.
    + apply od_get_None in Hl. split; split.
      * intros _. exists kk. split; [apply elem_of_cons; by left | done].
      * done.
      * intros [h' Hh']. discriminate.
      * intros Hall. destruct Hl. apply Hall, elem_of_cons. by left.
Qed.

(** X3. [zipp] writes only the variables of the keys it pushes: every
    other location of the heap keeps its value. *)
Theorem zipp_frame params : forall tparams h h' l,
  zipp params tparams h = inr h' ->
  (forall k, k ∈ params.*1 -> od_get tparams k <> Some l) ->
  h' !! l = h !! l.
Proof.
  induction params as [|[kk vv] rest IH]; simpl; intros tparams h h' l Hz Hl.
  - by injection Hz as <-.
  - destruct (od_get tparams kk) as [l0|] eqn:Hl0; [|discriminate].
    rewrite (IH tparams _ h' l Hz).
    + apply lookup_insert_ne. intros ->.
      apply (Hl kk); [apply elem_of_cons; by left | done].
    + intros k Hk. apply Hl, elem_of_cons. by right.
Qed.

Lemma od_set_keys {V} (d : odict V) k v : k ∈ d.*1 -> (od_set d k v).*1 = d.*1.
Proof.
  induction d as [|[k' v'] d IH]; simpl; [by intros ?%elem_of_nil|].
  rewrite elem_of_cons. intros Hk.
  destruct (decide (k = k')) as [->|Hne]; simpl; [done|].
  f_equal. apply IH. tauto.
Qed.

Lemma od_get_set {V} (d : odict V) k v k' :
  k ∈ d.*1 ->
  od_get (od_set d k v) k' = if decide (k' = k) then Some v else od_get d k'.
Proof.
  induction d as [|[k0 v0] d IH]; simpl; [by intros ?%elem_of_nil|].
  rewrite elem_of_cons. intros Hk.
  destruct (decide (k = k0)) as [->|Hne]; simpl.
  - destruct (decide (k' = k0)); done.
  - rewrite IH by tauto.
    destruct (decide (k' = k0)) as [->|]; [|done].
    by rewrite decide_False.
Qed.

Lemma load_params_loop_spec (pp : gmap string tensor) (items : odict tensor) :
  forall params warned,
    (forall k, k ∈ items.*1 -> k ∈ params.*1) ->
    (load_params_loop pp items params warned).1.*1 = params.*1 /\
    (forall k, od_get (load_params_loop pp items params warned).1 k
       = match od_get params k with
         | None => None
         | Some v =>
             if bool_decide (k ∈ items.*1)
             then Some (default v (pp !! k)) else Some v
         end) /\
    (load_params_loop pp items params warned).2
      = warned ++ filter (fun k => pp !! k = None) items.*1.
Proof.
  induction items as [|[kk vv] rest IH]; intros params warned Hsub;
    cbn [load_params_loop].
  - split; [done|]. split; [|by rewrite app_nil_r].
    intros k. simpl. by destruct (od_get params k).
  - rewrite fmap_cons in *. cbn [fst] in *.
    assert (kk ∈ params.*1) as Hkk by (apply Hsub, elem_of_cons; by left).
    assert (forall k, k <> kk ->
              bool_decide (k ∈ kk :: rest.*1) = bool_decide (k ∈ rest.*1))
      as Hother.
    { intros k Hne. apply bool_decide_ext. rewrite elem_of_cons. tauto. }
    assert (bool_decide (kk ∈ kk :: rest.*1) = true) as Hhere
      by (apply bool_decide_eq_true_2, elem_of_cons; by left).
    destruct (pp !! kk) as [a|] eqn:Ha.
    + destruct (IH (od_set params kk a) warned) as (Hk & Hg & Hw).
      { intros k Hk. rewrite od_set_keys by done. apply Hsub, elem_of_cons.
        by right. }
      split; [by rewrite Hk, od_set_keys|]. split.
      * intros k. rewrite Hg, od_get_set by done.
        destruct (decide (k = kk)) as [->|Hne].
        -- destruct (od_get params kk) as [v|] eqn:Hv.
           ++ rewrite Hhere, Ha. by destruct (bool_decide (kk ∈ rest.*1)).
           ++ by apply od_get_None in Hv.
        -- by rewrite Hother.
      * rewrite Hw, filter_cons_False; [done|]. by rewrite Ha.
    + destruct (IH params (warned ++ [kk])) as (Hk & Hg & Hw).
      { intros k Hk. apply Hsub, elem_of_cons. by right. }
      split; [done|]. split.
      * intros k. rewrite Hg. destruct (od_get params k) as [v|]; [|done].
        destruct (decide (k = kk)) as [->|Hne].
        -- rewrite Hhere, Ha. by destruct (bool_decide (kk ∈ rest.*1)).
        -- by rewrite Hother.
      * rewrite Hw, filter_cons_True by done. by rewrite <- app_assoc.
Qed.

(** X4. [load_params] keeps the keys of [params] in their order; a key that
    the archive holds takes the archived value, a key that it lacks keeps
    its value and is warned about, and entries that only the archive has
    are ignored. *)
Theorem load_params_spec (pp : gmap string tensor) params :
  (load_params pp params).1.*1 = params.*1 /\
  (forall k, od_get (load_params pp params).1 k
     = (fun v => default v (pp !! k)) <$> od_get params k) /\
  (load_params pp params).2 = filter (fun k => pp !! k = None) params.*1.
Proof.
  unfold load_params.
  destruct (load_params_loop_spec pp params params []) as (Hk & Hg & Hw);
    [done|].
  split; [done|]. split; [|done].
  intros k. rewrite Hg. destruct (od_get params k) as [v|] eqn:Hv; [|done].
  simpl. rewrite bool_decide_eq_true_2; [done|].
  apply od_get_is_Some. by eexists.
Qed.

End facts.

(** A store of two parameters, pulled right after its creation. *)
Lemma unzip_init_tparams_witness :
  unzip (init_tparams [("Wemb"%string, [1; 2]%Z); ("ff_b"%string, [0]%Z)] ∅).2
        (init_tparams [("Wemb"%string, [1; 2]%Z); ("ff_b"%string, [0]%Z)] ∅).1
  = inr [("Wemb"%string, [1; 2]%Z); ("ff_b"%string, [0]%Z)].
Proof. apply (unzip_init_tparams (tensor := list Z)). compute_done. Defined.

(** Pushing one of two parameters leaves the variable of the other. *)
Lemma zipp_frame_witness :
  zipp [("ff_b"%string, [5]%Z)]
       [("Wemb"%string, 0%nat); ("ff_b"%string, 1%nat)]
       (<[0%nat := [1; 2]%Z]> (<[1%nat := [0]%Z]> ∅))
  = inr (<[1%nat := [5]%Z]> (<[0%nat := [1; 2]%Z]> (<[1%nat := [0]%Z]> ∅))) /\
  (<[1%nat := [5]%Z]> (<[0%nat := [1; 2]%Z]> (<[1%nat := [0]%Z]> ∅)) : gmap nat (list Z))
    !! 0%nat
  = (<[0%nat := [1; 2]%Z]> (<[1%nat := [0]%Z]> ∅) : gmap nat (list Z)) !! 0%nat.
Proof.
  assert (zipp [("ff_b"%string, [5]%Z)]
            [("Wemb"%string, 0%nat); ("ff_b"%string, 1%nat)]
            (<[0%nat := [1; 2]%Z]> (<[1%nat := [0]%Z]> ∅))
          = inr (<[1%nat := [5]%Z]> (<[0%nat := [1; 2]%Z]> (<[1%nat := [0]%Z]> ∅))))
    as Hz by reflexivity.
  split; [exact Hz|].
  apply (zipp_frame _ _ _ _ _ Hz).
  intros k ->%list_elem_of_singleton. simpl. discriminate.
Defined.

End StoreMore.

(** ** [prepare_data]: the filter, the sentinel and empty input *)

Module FilterSpec.
Import Batch BatchSpec Filter.

Lemma filter_loop_passing maxlen : forall seqs_x seqs_y a1 a2 a3 a4,
  filter_loop maxlen
    (zip (length <$> seqs_x) (zip seqs_x (zip (length <$> seqs_y) seqs_y)))
    (a1, a2, a3, a4)
  = (a1 ++ (passing maxlen seqs_x seqs_y).*1,
     a2 ++ (length <$> (passing maxlen seqs_x seqs_y).*1),
     a3 ++ (passing maxlen seqs_x seqs_y).*2,
     a4 ++ (length <$> (passing maxlen seqs_x seqs_y).*2)).
Proof.
  unfold passing.
  induction seqs_x as [|s_x seqs_x IH]; intros [|s_y seqs_y] a1 a2 a3 a4;
    cbn [zip zip_with fmap list_fmap filter_loop List.filter];
    rewrite ?app_nil_r; try done.
  change (zip_with pair seqs_x seqs_y) with (zip seqs_x seqs_y).
  change (zip_with pair (list_fmap _ _ length seqs_x)
            (zip_with pair seqs_x
               (zip_with pair (list_fmap _ _ length seqs_y) seqs_y)))
    with (zip (length <$> seqs_x) (zip seqs_x (zip (length <$> seqs_y) seqs_y))).
  change (bool_decide (Z.of_nat (length s_x) < maxlen)%Z
          && bool_decide (Z.of_nat (length s_y) < maxlen)%Z)
    with (passes maxlen (s_x, s_y)).
  destruct (passes maxlen (s_x, s_y)).
  - rewrite IH. cbn [fmap list_fmap fst snd]. by rewrite <- !app_assoc.
  - apply IH.
Qed.

(** X6. The filter keeps exactly the pairs whose premise and hypothesis are
    both shorter than [maxlen], in their order, with their lengths; a list
    that is longer than the other is cut to the shorter one. *)
Theorem kept_passing maxlen seqs_x seqs_y :
  kept (Some maxlen) seqs_x seqs_y
  = ((passing maxlen seqs_x seqs_y).*1,
     length <$> (passing maxlen seqs_x seqs_y).*1,
     (passing maxlen seqs_x seqs_y).*2,
     length <$> (passing maxlen seqs_x seqs_y).*2).
Proof. unfold kept. by rewrite filter_loop_passing. Qed.

Lemma tuple_of_not_none b : tuple_of b <> none_tuple.
Proof. discriminate. Qed.

Lemma bind_tuple_not_none (m : py batch) :
  bind m (fun b => ret (tuple_of b)) <> inr none_tuple.
Proof.
  destruct m as [e|b]; simpl; discriminate.
Qed.

Lemma passing_nil maxlen seqs_x seqs_y :
  passing maxlen seqs_x seqs_y = []
  <-> Forall (fun p => passes maxlen p = false) (zip seqs_x seqs_y).
Proof.
  unfold passing. induction (zip seqs_x seqs_y) as [|p l IH]; simpl.
  - split; [constructor | done].
  - rewrite Forall_cons. destruct (passes maxlen p).
    + split; [discriminate | by intros [? _]].
    + rewrite IH. tauto.
Qed.

(** X7. [prepare_data] returns the tuple of seven [None] exactly when a
    [maxlen] is given and no pair of the mini-batch passes the filter. *)
Theorem prepare_data_none_tuple seqs_x seqs_y seqs_x_lemma seqs_y_lemma labels
    options kb_dict maxlen :
  prepare_data seqs_x seqs_y seqs_x_lemma seqs_y_lemma labels options kb_dict
    maxlen = inr none_tuple
  <-> exists m, maxlen = Some m /\
        Forall (fun p => passes m p = false) (zip seqs_x seqs_y).
Proof.
  unfold prepare_data. destruct maxlen as [m|].
  - rewrite filter_loop_passing. simpl. rewrite !length_fmap.
    destruct (passing m seqs_x seqs_y) as [|p l] eqn:Hp; simpl.
    + split; [|done]. intros _. exists m. split; [done|].
      by apply passing_nil.
    + split.
      * intros H. by apply bind_tuple_not_none in H.
      * intros (m' & [= <-] & H). apply passing_nil in H. congruence.
  - split.
    + intros H. by apply bind_tuple_not_none in H.
    + intros (m & H & _). discriminate.
Qed.

End FilterSpec.

(** ** [prepare_data]: shapes and contents of the arrays *)

Module ShapeSpec.
Import Batch BatchSpec Shape BatchShape.

Lemma upd_keeps {A} (P : A -> Prop) (l l' : list A) i f :
  upd l i f = inr l' ->
  (forall a a', P a -> f a = inr a' -> P a') ->
  Forall P l -> length l' = length l /\ Forall P l'.
Proof.
  intros H Hf Hl. apply upd_inr in H as (a & a' & Ha & Hfa & ->).
  split; [apply length_insert|].
  apply Forall_insert; [done|]. apply (Hf a a'); [|done].
  by eapply Forall_lookup_1.
Qed.

Lemma set2_shape2 {A} d1 d2 (m m' : list (list A)) r c v :
  set2 m r c v = inr m' -> shape2 d1 d2 m -> shape2 d1 d2 m'.
Proof.
  unfold set2, shape2. intros H [Hlen Hrows].
  destruct (upd_keeps (fun row => length row = d2) _ _ _ _ H) as [Hl HF];
    [|done|split; congruence].
  intros row row' Hrow Hupd.
  apply upd_inr in Hupd as (? & ? & _ & _ & ->). by rewrite length_insert.
Qed.

Lemma assign_col_prefix_shape2 {A} d1 d2 (m m' : list (list A)) n c vals :
  assign_col_prefix m n c vals = inr m' -> shape2 d1 d2 m -> shape2 d1 d2 m'.
Proof.
  unfold assign_col_prefix. destruct (decide _); [|discriminate].
  intros Hrun Hm. revert Hm Hrun. apply (for_each_inv _ (shape2 d1 d2)).
  intros [r v] t t' _ Ht Hset. by eapply set2_shape2.
Qed.

Lemma fill_col_prefix_shape2 {A} d1 d2 (m m' : list (list A)) n c v :
  fill_col_prefix m n c v = inr m' -> shape2 d1 d2 m -> shape2 d1 d2 m'.
Proof.
  unfold fill_col_prefix.
  intros Hrun Hm. revert Hm Hrun. apply (for_each_inv _ (shape2 d1 d2)).
  intros r t t' _ Ht Hset. by eapply set2_shape2.
Qed.

(** A write of one cell of a rank-3 array keeps the three extents, and
    keeps [P] of its cells when the written value has it. *)
Lemma upd3_keeps {A} (P : A -> Prop) d1 d2 d3 (t t' : list (list (list A)))
    a b c f :
  upd3 t a b c f = inr t' ->
  (forall v v', P v -> f v = inr v' -> P v') ->
  length t = d1 /\
    Forall (fun m => length m = d2 /\
              Forall (fun row => length row = d3 /\ Forall P row) m) t ->
  length t' = d1 /\
    Forall (fun m => length m = d2 /\
              Forall (fun row => length row = d3 /\ Forall P row) m) t'.
Proof.
  unfold upd3. intros H Hf [Hlen Ht].
  set (Prow := fun row : list A => length row = d3 /\ Forall P row) in *.
  set (Pm := fun m : list (list A) => length m = d2 /\ Forall Prow m) in *.
  destruct (upd_keeps Pm _ _ _ _ H) as [Hl HF]; [|exact Ht|split; congruence].
  intros m m' [Hm1 Hm2] Hupd.
  destruct (upd_keeps Prow _ _ _ _ Hupd) as [Hl' HF'];
    [|exact Hm2|split; congruence].
  intros row row' [Hr1 Hr2] Hupd'.
  destruct (upd_keeps P _ _ _ _ Hupd' Hf Hr2) as [Hl'' HF''].
  split; congruence.
Qed.

Lemma shape3_cells {A} d1 d2 d3 (t : list (list (list A))) :
  shape3 d1 d2 d3 t <->
  length t = d1 /\
    Forall (fun m => length m = d2 /\
              Forall (fun row => length row = d3 /\ Forall (fun _ => True) row) m) t.
Proof.
  unfold shape3, shape2. split; intros [Hl Ht]; (split; [done|]).
  - eapply Forall_impl; [exact Ht|]. intros m [Hm Hrows]. split; [done|].
    eapply Forall_impl; [exact Hrows|]. intros row Hrow. split; [done|].
    by apply Forall_true.
  - eapply Forall_impl; [exact Ht|]. intros m [Hm Hrows]. split; [done|].
    eapply Forall_impl; [exact Hrows|]. by intros row [Hrow _].
Qed.

Lemma shape4_cells {A} d1 d2 d3 d4 (t : list (list (list (list A)))) :
  shape4 d1 d2 d3 d4 t <->
  length t = d1 /\
    Forall (fun m => length m = d2 /\
              Forall (fun row => length row = d3 /\
                        Forall (fun v => length v = d4) row) m) t.
Proof. done. Qed.

Lemma upd3_shape3 {A} d1 d2 d3 (t t' : list (list (list A))) a b c f :
  upd3 t a b c f = inr t' -> shape3 d1 d2 d3 t -> shape3 d1 d2 d3 t'.
Proof.
  rewrite !shape3_cells. intros H. by apply (upd3_keeps _ _ _ _ _ _ _ _ _ _ H).
Qed.

Lemma assign_row_length {A} (v row row' : list A) :
  assign_row v row = inr row' -> length row' = length row.
Proof.
  unfold assign_row. destruct (decide _) as [Heq|_].
  - by intros [= <-].
  - destruct v as [|a [|? ?]]; try discriminate.
    intros [= <-]. apply length_replicate.
Qed.

Lemma upd3_shape4 {A} d1 d2 d3 d4 (t t' : list (list (list (list A)))) a b c v :
  upd3 t a b c (assign_row v) = inr t' ->
  shape4 d1 d2 d3 d4 t -> shape4 d1 d2 d3 d4 t'.
Proof.
  rewrite !shape4_cells. intros H.
  apply (upd3_keeps _ _ _ _ _ _ _ _ _ _ H).
  intros row row' Hrow Hassign. apply assign_row_length in Hassign. congruence.
Qed.

Lemma fill_kb_x_shape d1 d2 d3 d4 kb_dict idx s_xl s_yl st st' :
  fill_kb_x kb_dict idx s_xl s_yl st = inr st' ->
  shape4 d1 d2 d3 d4 st.1 /\ shape3 d1 d2 d3 st.2 ->
  shape4 d1 d2 d3 d4 st'.1 /\ shape3 d1 d2 d3 st'.2.
Proof.
  unfold fill_kb_x. intros Hrun Hst. revert Hst Hrun.
  set (P := fun st : list (list (list (list Q))) * list (list (list Q)) =>
              shape4 d1 d2 d3 d4 st.1 /\ shape3 d1 d2 d3 st.2).
  apply (for_each_inv _ P). intros [sid s] t t' _.
  apply (for_each_inv _ P). intros [tid t0] [kx ka] [kx' ka'] _.
  unfold P. simpl. intros [Hkx Hka] Hbody.
  destruct (kb_dict !! s) as [row|]; [|by injection Hbody as <- <-].
  destruct (row !! t0) as [v|]; [|by injection Hbody as <- <-].
  apply bind_inr in Hbody as (kx1 & Hx & Hbody).
  apply bind_inr in Hbody as (ka1 & Ha & [= <- <-]).
  split; [by eapply upd3_shape4 | by eapply upd3_shape3].
Qed.

Lemma fill_kb_y_shape d1 d2 d3 d4 kb_dict idx s_xl s_yl kb kb' :
  fill_kb_y kb_dict idx s_xl s_yl kb = inr kb' ->
  shape4 d1 d2 d3 d4 kb -> shape4 d1 d2 d3 d4 kb'.
Proof.
  unfold fill_kb_y. intros Hrun Hst. revert Hst Hrun.
  apply (for_each_inv _ (shape4 d1 d2 d3 d4)). intros [sid s] t t' _.
  apply (for_each_inv _ (shape4 d1 d2 d3 d4)). intros [tid t0] ky ky' _ Hky Hbody.
  destruct (kb_dict !! s) as [row|]; [|by injection Hbody as <-].
  destruct (row !! t0) as [v|]; [|by injection Hbody as <-].
  by eapply upd3_shape4.
Qed.

(** What a successful [fill_example] did, array by array. *)
Lemma fill_example_inr kb_dict lengths_x lengths_y i s_x s_y s_xl s_yl ll b b' :
  fill_example kb_dict lengths_x lengths_y (i, (s_x, (s_y, (s_xl, (s_yl, ll))))) b
    = inr b' ->
  exists len_x len_y,
    lengths_x !! i = Some len_x /\ lengths_y !! i = Some len_y /\
    assign_col_prefix (x b) len_x i s_x = inr (x b') /\
    fill_col_prefix (x_mask b) len_x i 1%Q = inr (x_mask b') /\
    assign_col_prefix (y b) len_y i s_y = inr (y b') /\
    fill_col_prefix (y_mask b) len_y i 1%Q = inr (y_mask b') /\
    upd (l b) i (fun _ => ret ll) = inr (l b') /\
    fill_kb_x kb_dict i s_xl s_yl (kb_x b, kb_att b) = inr (kb_x b', kb_att b') /\
    fill_kb_y kb_dict i s_xl s_yl (kb_y b) = inr (kb_y b').
Proof.
  unfold fill_example, index. intros Hrun.
  destruct (lengths_x !! i) as [len_x|]; [|discriminate].
  apply bind_inr in Hrun as (? & [= <-] & Hrun).
  apply bind_inr in Hrun as (x' & Hx' & Hrun).
  apply bind_inr in Hrun as (xm' & Hxm' & Hrun).
  destruct (lengths_y !! i) as [len_y|]; [|discriminate].
  apply bind_inr in Hrun as (? & [= <-] & Hrun).
  apply bind_inr in Hrun as (y' & Hy' & Hrun).
  apply bind_inr in Hrun as (ym' & Hym' & Hrun).
  apply bind_inr in Hrun as (l' & Hl' & Hrun).
  apply bind_inr in Hrun as ([kx' ka'] & Hkx' & Hrun).
  apply bind_inr in Hrun as (ky' & Hky' & [= <-]).
  exists len_x, len_y. simpl. by repeat split.
Qed.

Lemma shape2_zeros2 {A} (z : A) a b : shape2 a b (zeros2 z a b).
Proof.
  split; [apply length_replicate|]. apply Forall_replicate, length_replicate.
Qed.

Lemma shape3_zeros3 {A} (z : A) a b c : shape3 a b c (zeros3 z a b c).
Proof.
  split; [apply length_replicate|]. apply Forall_replicate, shape2_zeros2.
Qed.

Lemma shape4_zeros4 {A} (z : A) a b c d : shape4 a b c d (zeros4 z a b c d).
Proof.
  split; [apply length_replicate|]. apply Forall_replicate, shape3_zeros3.
Qed.

Lemma fill_example_shape Lx Ly n dim kb_dict lengths_x lengths_y e b b' :
  fill_example kb_dict lengths_x lengths_y e b = inr b' ->
  batch_shape Lx Ly n dim b -> batch_shape Lx Ly n dim b'.
Proof.
  destruct e as (i & s_x & s_y & s_xl & s_yl & ll).
  intros Hrun (Hx & Hxm & Hkx & Hy & Hym & Hky & Hka & Hl).
  apply fill_example_inr in Hrun
    as (len_x & len_y & _ & _ & Rx & Rxm & Ry & Rym & Rl & Rkx & Rky).
  destruct (fill_kb_x_shape Lx n Ly dim _ _ _ _ _ _ Rkx) as [Hkx' Hka'];
    [by split|].
  split; [by eapply assign_col_prefix_shape2|].
  split; [by eapply fill_col_prefix_shape2|].
  split; [exact Hkx'|].
  split; [by eapply assign_col_prefix_shape2|].
  split; [by eapply fill_col_prefix_shape2|].
  split; [by eapply fill_kb_y_shape|].
  split; [exact Hka'|].
  apply upd_inr in Rl as (? & ? & _ & _ & ->). by rewrite length_insert.
Qed.

Lemma build_batch_shape seqs_x seqs_y seqs_x_lemma seqs_y_lemma labels options
    kb_dict lengths_x lengths_y b :
  build_batch seqs_x seqs_y seqs_x_lemma seqs_y_lemma labels options kb_dict
    lengths_x lengths_y = inr b ->
  batch_shape (max_list lengths_x) (max_list lengths_y) (length seqs_x)
    (dim_kb options) b.
Proof.
  unfold build_batch. intros Hrun.
  apply bind_inr in Hrun as (Lx & ->%numpy_max_inr & Hrun).
  apply bind_inr in Hrun as (Ly & ->%numpy_max_inr & Hrun).
  revert Hrun.
  apply (for_each_inv _ (batch_shape (max_list lengths_x) (max_list lengths_y)
                           (length seqs_x) (dim_kb options))).
  - intros e t t' _ Ht Hbody. by eapply fill_example_shape.
  - unfold batch_shape; simpl.
    repeat (split; [apply shape2_zeros2 || apply shape3_zeros3
                    || apply shape4_zeros4|]).
    apply length_replicate.
Qed.

(** X9. The arrays that [prepare_data] returns have the shapes it
    allocates: with [n] examples kept, [Lx] and [Ly] the longest kept
    premise and hypothesis, the ids and masks are [Lx x n] and [Ly x n],
    [kb_x] is [Lx x n x Ly x dim_kb], [kb_y] is [Ly x n x Lx x dim_kb],
    [kb_att] is [Lx x n x Ly] and the labels have length [n]; a knowledge
    vector of another width than [dim_kb] (or 1) never gets in. *)
Theorem prepare_data_shapes seqs_x seqs_y seqs_x_lemma seqs_y_lemma labels
    options kb_dict maxlen b kept_x lengths_x kept_y lengths_y :
  prepare_data seqs_x seqs_y seqs_x_lemma seqs_y_lemma labels options kb_dict
    maxlen = inr (tuple_of b) ->
  kept maxlen seqs_x seqs_y = (kept_x, lengths_x, kept_y, lengths_y) ->
  batch_shape (max_list lengths_x) (max_list lengths_y) (length kept_x)
    (dim_kb options) b.
Proof.
  intros Hrun Hkept.
  destruct (prepare_data_build _ _ _ _ _ _ _ _ _ Hrun)
    as (kx & lx & ky & ly & Hkept' & Hbuild).
  rewrite Hkept in Hkept'. injection Hkept' as <- <- <- <-.
  by eapply build_batch_shape.
Qed.

(** The sample batch: two examples, three premise steps, two hypothesis
    steps, knowledge vectors of width 2. *)
Lemma prepare_data_shapes_witness : batch_shape 3 2 2 2 sample_batch.
Proof.
  apply (prepare_data_shapes sample_seqs_x sample_seqs_y sample_seqs_x_lemma
           sample_seqs_y_lemma sample_labels sample_options sample_kb_dict
           (Some 100%Z) sample_batch sample_seqs_x [3; 1] sample_seqs_y [1; 2]).
  - vm_compute. reflexivity.
  - reflexivity.
Defined.

(** *** Contents *)

Lemma assign_enum_get2 {A} (c : nat) : forall (vals : list A) a m m',
  for_each (fun '(r, v) m => set2 m r c v) (enumerate_from a vals) m = inr m' ->
  forall r c', get2 m' r c'
    = if decide (c' = c /\ a <= r < a + length vals) then vals !! (r - a)
      else get2 m r c'.
Proof.
  induction vals as [|v vals IH]; simpl; intros a m m' Hrun r c'.
  - injection Hrun as <-. rewrite decide_False; [done | lia].
  - apply bind_inr in Hrun as (m1 & Hset & Hrest).
    rewrite (IH _ _ _ Hrest). apply set2_get2 in Hset as [_ ->].
    destruct (decide (c' = c)) as [->|Hc].
    + destruct (decide (r = a)) as [->|Hr].
      * rewrite decide_False by lia. rewrite decide_True by done.
        rewrite decide_True by lia. by replace (a - a) with 0 by lia.
      * rewrite (decide_False (P := r = a /\ c = c)) by tauto.
        destruct (decide (c = c /\ S a <= r < S a + length vals)) as [[_ H]|Hn].
        -- rewrite decide_True by lia.
           by replace (r - a) with (S (r - S a)) by lia.
        -- rewrite decide_False; [done | lia].
    + rewrite !decide_False; [done | tauto | tauto | tauto].
Qed.

Lemma assign_col_prefix_get2 {A} (m m' : list (list A)) n c vals :
  assign_col_prefix m n c vals = inr m' ->
  forall r c', get2 m' r c'
    = if decide (c' = c /\ r < length vals) then vals !! r else get2 m r c'.
Proof.
  unfold assign_col_prefix. destruct (decide _); [|discriminate].
  intros Hrun r c'. rewrite (assign_enum_get2 _ _ _ _ _ Hrun).
  replace (r - 0) with r by lia.
  destruct (decide (c' = c /\ r < length vals)).
  - rewrite decide_True; [done | lia].
  - rewrite decide_False; [done | lia].
Qed.

Lemma build_batch_contents seqs_x seqs_y seqs_x_lemma seqs_y_lemma labels options
    kb_dict lengths_x lengths_y b :
  build_batch seqs_x seqs_y seqs_x_lemma seqs_y_lemma labels options kb_dict
    lengths_x lengths_y = inr b ->
  forall i s_x s_y s_xl s_yl ll,
    zip seqs_x (zip seqs_y (zip seqs_x_lemma (zip seqs_y_lemma labels))) !! i
      = Some (s_x, (s_y, (s_xl, (s_yl, ll)))) ->
    (forall r, r < length s_x -> get2 (x b) r i = s_x !! r) /\
    (forall r, r < length s_y -> get2 (y b) r i = s_y !! r) /\
    l b !! i = Some ll.
Proof.
  unfold build_batch. intros Hrun.
  apply bind_inr in Hrun as (Lx & _ & Hrun).
  apply bind_inr in Hrun as (Ly & _ & Hrun).
  set (exs := zip seqs_x (zip seqs_y (zip seqs_x_lemma (zip seqs_y_lemma labels))))
    in *.
  set (I := fun (k : nat) (b : batch) =>
              forall i s_x s_y s_xl s_yl ll, i < k ->
                exs !! i = Some (s_x, (s_y, (s_xl, (s_yl, ll)))) ->
                (forall r, r < length s_x -> get2 (x b) r i = s_x !! r) /\
                (forall r, r < length s_y -> get2 (y b) r i = s_y !! r) /\
                l b !! i = Some ll).
  assert (I (length exs) b) as Hfinal.
  { revert Hrun. apply (for_each_enumerate _ I).
    - intros k (s_x & s_y & s_xl & s_yl & ll) t t' Hk Ht Hbody
        i s_x' s_y' s_xl' s_yl' ll' Hi Hex.
      apply fill_example_inr in Hbody
        as (len_x & len_y & _ & _ & Rx & _ & Ry & _ & Rl & _ & _).
      destruct (upd_lookup _ _ _ _ i Rl) as (? & ? & _ & [= <-] & Hl').
      destruct (decide (i = k)) as [->|Hne].
      + rewrite Hk in Hex. injection Hex as <- <- <- <- <-.
        split; [|split; [|done]].
        * intros r Hr. rewrite (assign_col_prefix_get2 _ _ _ _ _ Rx).
          by rewrite decide_True.
        * intros r Hr. rewrite (assign_col_prefix_get2 _ _ _ _ _ Ry).
          by rewrite decide_True.
      + destruct (Ht i s_x' s_y' s_xl' s_yl' ll') as (Hx & Hy & Hl);
          [lia | done |].
        split; [|split; [|congruence]].
        * intros r Hr. rewrite (assign_col_prefix_get2 _ _ _ _ _ Rx).
          rewrite decide_False by tauto. by apply Hx.
        * intros r Hr. rewrite (assign_col_prefix_get2 _ _ _ _ _ Ry).
          rewrite decide_False by tauto. by apply Hy.
    - intros i ? ? ? ? ? Hi. lia. }
  intros i s_x s_y s_xl s_yl ll Hi.
  apply (Hfinal i s_x s_y s_xl s_yl ll); [|done].
  by eapply lookup_lt_Some.
Qed.

(** X10. Column [i] of a returned batch holds the token ids of the [i]-th
    tuple that the fill loop visits: [x[r, i]] is the premise id at
    position [r], [y[r, i]] the hypothesis id, for every position within
    the sequence, and [l[i]] is the label of that tuple. *)
Theorem prepare_data_contents seqs_x seqs_y seqs_x_lemma seqs_y_lemma labels
    options kb_dict maxlen b i s_x s_y s_xl s_yl ll :
  prepare_data seqs_x seqs_y seqs_x_lemma seqs_y_lemma labels options kb_dict
    maxlen = inr (tuple_of b) ->
  examples maxlen seqs_x seqs_y seqs_x_lemma seqs_y_lemma labels !! i
    = Some (s_x, (s_y, (s_xl, (s_yl, ll)))) ->
  (forall r, r < length s_x -> get2 (x b) r i = s_x !! r) /\
  (forall r, r < length s_y -> get2 (y b) r i = s_y !! r) /\
  l b !! i = Some ll.
Proof.
  intros Hrun Hex.
  destruct (prepare_data_build _ _ _ _ _ _ _ _ _ Hrun)
    as (kx & lx & ky & ly & Hkept & Hbuild).
  unfold examples in Hex. rewrite Hkept in Hex.
  by eapply build_batch_contents.
Qed.

(** The second column of the sample batch: premise [4], hypothesis
    [6; 7], label 1. *)
Lemma prepare_data_contents_witness :
  (forall r, r < 1 -> get2 (x sample_batch) r 1 = [4%Z] !! r) /\
  (forall r, r < 2 -> get2 (y sample_batch) r 1 = [6%Z; 7%Z] !! r) /\
  l sample_batch !! 1 = Some 1%Z.
Proof.
  apply (prepare_data_contents sample_seqs_x sample_seqs_y sample_seqs_x_lemma
           sample_seqs_y_lemma sample_labels sample_options sample_kb_dict
           (Some 100%Z) sample_batch 1 [4]%Z [6; 7]%Z [8]%Z [9; 9]%Z 1%Z).
  - vm_compute. reflexivity.
  - reflexivity.
Defined.

End ShapeSpec.

(** ** [prepare_data]: the knowledge vectors [kb_x] and [kb_y] *)

Module KnowledgeSpec.
Import Batch BatchSpec Knowledge ShapeSpec.

Section tracked.
Context {V : Type} (val : nat -> nat -> nat -> V) (zero : V).

Lemma tracks_write (D D' : nat -> nat -> nat -> Prop) t t' a b c f :
  tracks val zero D t ->
  upd3 t a b c f = inr t' ->
  ~ D a b c ->
  (forall new, f zero = inr new -> new = val a b c) ->
  (forall p i h, D' p i h <-> D p i h \/ (p = a /\ i = b /\ h = c)) ->
  tracks val zero D' t'.
Proof.
  intros Ht Hupd Hfresh Hf HD p i h v.
  apply upd3_get3 in Hupd as (old & new & Hold & Hnew & ->).
  destruct (decide (p = a /\ i = b /\ h = c)) as [(-> & -> & ->)|Hne].
  - intros [= <-]. destruct (Ht a b c old Hold) as [_ H0].
    rewrite (H0 Hfresh) in Hnew. split; [intros _; by apply Hf|].
    intros Hn. destruct Hn. apply HD. by right.
  - intros Hv. destruct (Ht p i h v Hv) as [H1 H0]. split.
    + intros [Hd|Hd]%HD; [by apply H1 | tauto].
    + intros Hn. apply H0. intros Hd. apply Hn, HD. by left.
Qed.

Lemma tracks_extend (D D' E : nat -> nat -> nat -> Prop) t :
  tracks val zero D t ->
  (forall p i h, D' p i h <-> D p i h \/ E p i h) ->
  (forall p i h, E p i h -> ~ D p i h -> val p i h = zero) ->
  (forall p i h, D p i h \/ ~ D p i h) ->
  tracks val zero D' t.
Proof.
  intros Ht HD HE Hdec p i h v Hv. destruct (Ht p i h v Hv) as [H1 H0]. split.
  - intros [Hd|He]%HD; [by apply H1|].
    destruct (Hdec p i h) as [Hd|Hn]; [by apply H1|].
    rewrite (HE p i h He Hn). by apply H0.
  - intros Hn. apply H0. intros Hd. apply Hn, HD. by left.
Qed.

(** The two nested loops over the lemmas of example [k]: when every inner
    step moves the frontier by one cell, the pair moves it by one
    example. *)
Lemma tracks_nested {St} (proj : St -> list (list (list V)))
    (step : nat -> Z -> nat -> Z -> St -> py St) (outer inner : list Z)
    (k : nat) (st st' : St) :
  (forall sid s tid t u u',
     outer !! sid = Some s -> inner !! tid = Some t ->
     tracks val zero (before k sid tid) (proj u) ->
     step sid s tid t u = inr u' ->
     tracks val zero (before k sid (S tid)) (proj u')) ->
  (forall p h, length outer <= p \/ length inner <= h -> val p k h = zero) ->
  tracks val zero (before k 0 0) (proj st) ->
  for_each (fun '(sid, s) =>
    for_each (fun '(tid, t) u => step sid s tid t u) (enumerate inner))
    (enumerate outer) st = inr st' ->
  tracks val zero (before (S k) 0 0) (proj st').
Proof.
  intros Hstep Hzero Hst Hrun.
  assert (tracks val zero (before k (length outer) 0) (proj st')) as Hout.
  { revert Hrun.
    apply (for_each_enumerate _
             (fun sid u => tracks val zero (before k sid 0) (proj u)));
      [|exact Hst].
    intros sid s u u' Hs Hu Hrun.
    assert (tracks val zero (before k sid (length inner)) (proj u')) as Hin.
    { revert Hrun.
      apply (for_each_enumerate _
               (fun tid u => tracks val zero (before k sid tid) (proj u)));
        [|exact Hu].
      intros tid t w w' Ht Hw Hbody. by eapply Hstep. }
    eapply tracks_extend; [exact Hin | | | apply before_dec].
    - instantiate (1 := fun p i h => i = k /\ p = sid /\ length inner <= h).
      intros p i h. unfold before. simpl. lia.
    - intros p i h (-> & -> & Hh) _. apply Hzero. by right. }
  eapply tracks_extend; [exact Hout | | | apply before_dec].
  - instantiate (1 := fun p i h => i = k /\ length outer <= p).
    intros p i h. unfold before. simpl. lia.
  - intros p i h [-> Hp] _. apply Hzero. by left.
Qed.

End tracked.

Lemma assign_row_zeros dim v new :
  assign_row v (replicate dim 0%Q) = inr new -> new = expand dim v.
Proof.
  unfold assign_row, expand. rewrite length_replicate.
  destruct (decide (length v = dim)); [by intros [= <-]|].
  destruct v as [|a [|? ?]]; try discriminate. by intros [= <-].
Qed.

Lemma before_irrefl k sid tid : ~ before k sid tid sid k tid.
Proof. unfold before. lia. Qed.

Lemma before_step k sid tid p i h :
  before k sid (S tid) p i h
  <-> before k sid tid p i h \/ (p = sid /\ i = k /\ h = tid).
Proof. unfold before. lia. Qed.

Section cells.
Context (kb_dict : gmap Z (gmap Z (list Q))) (dim : nat).
Context (exs : list (list Z * (list Z * (list Z * (list Z * Z))))).

Lemma tracks_fill_kb_x k s_x s_y s_xl s_yl ll st st' :
  exs !! k = Some (s_x, (s_y, (s_xl, (s_yl, ll)))) ->
  tracks (knowledge_x kb_dict dim exs) (replicate dim 0%Q) (before k 0 0) st.1 ->
  fill_kb_x kb_dict k s_xl s_yl st = inr st' ->
  tracks (knowledge_x kb_dict dim exs) (replicate dim 0%Q) (before (S k) 0 0) st'.1.
Proof.
  intros Hk Hst Hrun. unfold fill_kb_x in Hrun.
  refine (tracks_nested (knowledge_x kb_dict dim exs) (replicate dim 0%Q) fst
            (fun sid s tid t '(kb_x, kb_att) =>
               match kb_dict !! s with
               | Some row =>
                   match row !! t with
                   | Some v =>
                       bind (upd3 kb_x sid k tid (assign_row v)) (fun kb_x =>
                       bind (upd3 kb_att sid k tid (fun _ => ret 1%Q)) (fun kb_att =>
                       ret (kb_x, kb_att)))
                   | None => ret (kb_x, kb_att)
                   end
               | None => ret (kb_x, kb_att)
               end) s_xl s_yl k st st' _ _ Hst Hrun).
  - intros sid s tid t [kx ka] [kx' ka'] Hs Ht Hinv Hbody. simpl in *.
    assert (knowledge_x kb_dict dim exs sid k tid = cell kb_dict dim s t) as Hval
      by (unfold knowledge_x; by rewrite Hk, Hs, Ht).
    unfold cell in Hval.
    destruct (kb_dict !! s) as [row|]; [destruct (row !! t) as [v|]|].
    + apply bind_inr in Hbody as (kx1 & Hx & Hbody).
      apply bind_inr in Hbody as (ka1 & Ha & [= <- <-]).
      eapply tracks_write;
        [exact Hinv | exact Hx | apply before_irrefl | | apply before_step].
      intros new Hnew. rewrite Hval. by apply assign_row_zeros.
    + injection Hbody as <- <-.
      eapply tracks_extend; [exact Hinv | apply before_step | | apply before_dec].
      by intros p i h (-> & -> & ->) _.
    + injection Hbody as <- <-.
      eapply tracks_extend; [exact Hinv | apply before_step | | apply before_dec].
      by intros p i h (-> & -> & ->) _.
  - intros p h Hout. unfold knowledge_x. rewrite Hk.
    destruct Hout as [Hp|Hh].
    + by rewrite (lookup_ge_None_2 s_xl p).
    + rewrite (lookup_ge_None_2 s_yl h) by done. by destruct (s_xl !! p).
Qed.

Lemma tracks_fill_kb_y k s_x s_y s_xl s_yl ll kb kb' :
  exs !! k = Some (s_x, (s_y, (s_xl, (s_yl, ll)))) ->
  tracks (knowledge_y kb_dict dim exs) (replicate dim 0%Q) (before k 0 0) kb ->
  fill_kb_y kb_dict k s_xl s_yl kb = inr kb' ->
  tracks (knowledge_y kb_dict dim exs) (replicate dim 0%Q) (before (S k) 0 0) kb'.
Proof.
  intros Hk Hst Hrun. unfold fill_kb_y in Hrun.
  refine (tracks_nested (knowledge_y kb_dict dim exs) (replicate dim 0%Q)
            (fun kb_y => kb_y)
            (fun sid s tid t kb_y =>
               match kb_dict !! s with
               | Some row =>
                   match row !! t with
                   | Some v => upd3 kb_y sid k tid (assign_row v)
                   | None => ret kb_y
                   end
               | None => ret kb_y
               end) s_yl s_xl k kb kb' _ _ Hst Hrun).
  - intros sid s tid t ky ky' Hs Ht Hinv Hbody. simpl in *.
    assert (knowledge_y kb_dict dim exs sid k tid = cell kb_dict dim s t) as Hval
      by (unfold knowledge_y; by rewrite Hk, Hs, Ht).
    unfold cell in Hval.
    destruct (kb_dict !! s) as [row|]; [destruct (row !! t) as [v|]|].
    + eapply tracks_write;
        [exact Hinv | exact Hbody | apply before_irrefl | | apply before_step].
      intros new Hnew. rewrite Hval. by apply assign_row_zeros.
    + injection Hbody as <-.
      eapply tracks_extend; [exact Hinv | apply before_step | | apply before_dec].
      by intros p i h (-> & -> & ->) _.
    + injection Hbody as <-.
      eapply tracks_extend; [exact Hinv | apply before_step | | apply before_dec].
      by intros p i h (-> & -> & ->) _.
  - intros p h Hout. unfold knowledge_y. rewrite Hk.
    destruct Hout as [Hp|Hh].
    + by rewrite (lookup_ge_None_2 s_yl p).
    + rewrite (lookup_ge_None_2 s_xl h) by done. by destruct (s_yl !! p).
Qed.

End cells.

Lemma get3_zeros4_Some (z : Q) a b c d i j k v :
  get3 (zeros4 z a b c d) i j k = Some v -> v = replicate d z.
Proof.
  change (zeros4 z a b c d) with (zeros3 (replicate d z) a b c).
  apply get3_zeros3_Some.
Qed.

Lemma build_batch_knowledge seqs_x seqs_y seqs_x_lemma seqs_y_lemma labels
    options kb_dict lengths_x lengths_y b :
  build_batch seqs_x seqs_y seqs_x_lemma seqs_y_lemma labels options kb_dict
    lengths_x lengths_y = inr b ->
  let exs :=
    zip seqs_x (zip seqs_y (zip seqs_x_lemma (zip seqs_y_lemma labels))) in
  (forall p i h w, get3 (kb_x b) p i h = Some w ->
     w = knowledge_x kb_dict (dim_kb options) exs p i h) /\
  (forall h i p w, get3 (kb_y b) h i p = Some w ->
     w = knowledge_y kb_dict (dim_kb options) exs h i p).
Proof.
  intros Hrun exs. unfold build_batch in Hrun.
  apply bind_inr in Hrun as (Lx & _ & Hrun).
  apply bind_inr in Hrun as (Ly & _ & Hrun).
  fold exs in Hrun.
  set (zero := replicate (dim_kb options) 0%Q).
  set (I := fun (k : nat) (b : batch) =>
              tracks (knowledge_x kb_dict (dim_kb options) exs) zero
                (before k 0 0) (kb_x b) /\
              tracks (knowledge_y kb_dict (dim_kb options) exs) zero
                (before k 0 0) (kb_y b)).
  assert (I (length exs) b) as [Hx Hy].
  { revert Hrun. apply (for_each_enumerate _ I).
    - intros k (s_x & s_y & s_xl & s_yl & ll) t t' Hk [Htx Hty] Hbody.
      apply fill_example_inr in Hbody
        as (len_x & len_y & _ & _ & _ & _ & _ & _ & _ & Rkx & Rky).
      split.
      + exact (tracks_fill_kb_x kb_dict (dim_kb options) exs k s_x s_y s_xl s_yl
                 ll (kb_x t, kb_att t) (kb_x t', kb_att t') Hk Htx Rkx).
      + exact (tracks_fill_kb_y kb_dict (dim_kb options) exs k s_x s_y s_xl s_yl
                 ll (kb_y t) (kb_y t') Hk Hty Rky).
    - split; intros p i h v Hv; simpl in Hv;
        apply get3_zeros4_Some in Hv as ->;
        (split; [|done]); unfold before; lia. }
  split.
  - intros p i h w Hw. destruct (Hx p i h w Hw) as [H1 H0].
    destruct (before_dec (length exs) 0 0 p i h) as [Hd|Hn]; [by apply H1|].
    rewrite (H0 Hn). unfold knowledge_x.
    rewrite (lookup_ge_None_2 exs i); [done|]. unfold before in Hn. lia.
  - intros h i p w Hw. destruct (Hy h i p w Hw) as [H1 H0].
    destruct (before_dec (length exs) 0 0 h i p) as [Hd|Hn]; [by apply H1|].
    rewrite (H0 Hn). unfold knowledge_y.
    rewrite (lookup_ge_None_2 exs i); [done|]. unfold before in Hn. lia.
Qed.

(** X11. In every batch that [prepare_data] returns, [kb_x[p, i, h]] is the
    vector that the table holds from the premise lemma at [p] to the
    hypothesis lemma at [h] of the tuple written to column [i], and
    [kb_y[h, i, p]] the vector that it holds in the other direction, from
    the hypothesis lemma to the premise lemma; a cell without an entry in
    the table is all zeros, and a vector of one element fills its cell. *)
Theorem kb_vectors seqs_x seqs_y seqs_x_lemma seqs_y_lemma labels
    options kb_dict maxlen b :
  prepare_data seqs_x seqs_y seqs_x_lemma seqs_y_lemma labels options kb_dict
    maxlen = inr (tuple_of b) ->
  let exs := examples maxlen seqs_x seqs_y seqs_x_lemma seqs_y_lemma labels in
  (forall p i h w, get3 (kb_x b) p i h = Some w ->
     w = knowledge_x kb_dict (dim_kb options) exs p i h) /\
  (forall h i p w, get3 (kb_y b) h i p = Some w ->
     w = knowledge_y kb_dict (dim_kb options) exs h i p).
Proof.
  intros Hrun exs.
  destruct (prepare_data_build _ _ _ _ _ _ _ _ _ Hrun)
    as (kx & lx & ky & ly & Hkept & Hbuild).
  unfold exs, examples. rewrite Hkept.
  by apply (build_batch_knowledge _ _ _ _ _ _ _ _ _ _ Hbuild).
Qed.

(** The sample batch: lemma 7 at premise position 2 of the first example
    is related to lemma 9 at its hypothesis position 0 by [(1, 0)]; the
    table has no entry from 9 to 7. *)
Lemma kb_vectors_witness :
  (forall w, get3 (kb_x sample_batch) 2 0 0 = Some w -> w = [1%Q; 0%Q]) /\
  (forall w, get3 (kb_y sample_batch) 0 0 2 = Some w -> w = [0%Q; 0%Q]).
Proof.
  pose proof (kb_vectors sample_seqs_x sample_seqs_y sample_seqs_x_lemma
                sample_seqs_y_lemma sample_labels sample_options sample_kb_dict
                (Some 100%Z) sample_batch ltac:(vm_compute; reflexivity))
    as [Hx Hy].
  split; intros w Hw.
  - exact (Hx 2 0 0 w Hw).
  - exact (Hy 0 0 2 w Hw).
Defined.

End KnowledgeSpec.

(** ** Gradient clipping: the switched-off threshold and repeated clipping *)

Module ClipMore.
Import Clip ClipSpec.
Local Open Scope R_scope.

Lemma clip_cases (clip_c : R) (grads : list (list R)) :
  (clip clip_c grads = grads /\ (clip_c <= 0 \/ g2 grads <= clip_c ^ 2)) \/
  (0 < clip_c /\ clip_c ^ 2 < g2 grads /\
   clip clip_c grads = map (map (fun e => e * (clip_c / sqrt (g2 grads)))) grads /\
   g2 (clip clip_c grads) = clip_c ^ 2).
Proof.
  unfold clip. destruct (Rlt_dec 0 clip_c) as [Hc|Hc]; [|left; split; [done|lra]].
  destruct (Rlt_dec (clip_c ^ 2) (g2 grads)) as [Hlt|Hle].
  - right. split; [done|]. split; [done|].
    pose proof (g2_nonneg grads) as Hg2.
    assert (0 < sqrt (g2 grads)) as Hs by (apply sqrt_lt_R0; nra).
    assert (map (fun g => map (fun e => e / sqrt (g2 grads) * clip_c) g) grads
            = map (map (fun e => e * (clip_c / sqrt (g2 grads)))) grads) as ->.
    { apply map_ext. intros g. apply map_ext. intros e. field. lra. }
    split; [done|]. rewrite g2_scale.
    pose proof (sqrt_def (g2 grads) Hg2) as Hsq.
    set (s := sqrt (g2 grads)) in *. rewrite <- Hsq. field. lra.
  - left. split; [apply map_id | lra].
Qed.

(** X12. Clipping never increases the global L2 norm of the gradients; a
    threshold that is zero or negative switches it off; and clipping the
    clipped gradients again changes nothing. *)
Theorem clip_contracts (clip_c : R) (grads : list (list R)) :
  norm (clip clip_c grads) <= norm grads /\
  (clip_c <= 0 -> clip clip_c grads = grads) /\
  clip clip_c (clip clip_c grads) = clip clip_c grads.
Proof.
  destruct (clip_cases clip_c grads)
    as [[Hid Hwhy] | (Hc & Hlt & Hscaled & Hg2)].
  - rewrite !Hid. split; [lra|]. by split.
  - split; [|split; [lra|]].
    + unfold norm. apply sqrt_le_1_alt. rewrite Hg2. lra.
    + destruct (clip_cases clip_c (clip clip_c grads))
        as [[Hid' _] | (_ & Hlt' & _)]; [done|].
      rewrite Hg2 in Hlt'. lra.
Qed.

(** A negative threshold. *)
Lemma clip_contracts_witness : clip (-1) [[3; 4]] = [[3; 4]].
Proof. apply (proj1 (proj2 (clip_contracts (-1) [[3; 4]]))). lra. Defined.

End ClipMore.

(** ** The optimizers over a run of updates *)

Module OptimizerSpec.
Import Optimizer.
Local Open Scope R_scope.



Lemma all_entries_zeros_like (P : R -> Prop) ps :
  P 0 -> all_entries P (zeros_like ps).
Proof.
  intros H0. unfold all_entries, zeros_like.
  apply Forall_fmap, Forall_true. intros t.
  apply Forall_fmap, Forall_true. intros p. simpl.
  by replace (p * 0) with 0 by lra.
Qed.

Lemma all_entries_map2 (P : R -> Prop) f a b :
  (forall x y, P x -> P (f x y)) ->
  all_entries P a -> all_entries P (Rmsprop.map2 f a b).
Proof.
  intros Hf. unfold all_entries, Rmsprop.map2. intros Ha. revert b.
  induction Ha as [|ta a Hta _ IH]; intros [|tb b]; simpl; try constructor.
  - clear IH. revert tb. induction Hta as [|x ta Hx _ IH]; intros [|y tb];
      simpl; constructor; [by apply Hf | apply IH].
  - apply IH.
Qed.

(** *** rmsprop *)





(** *** sgd *)

Lemma zip_with_twice {A B} (f h : A -> B -> A) (a : list A) (b : list B) :
  zip_with h (zip_with f a b) b = zip_with (fun x y => h (f x y) y) a b.
Proof.
  revert b. induction a as [|x a IH]; intros [|y b]; simpl; [done..|].
  by rewrite IH.
Qed.

(** X14. Two [sgd] updates on the same stored gradients are one update
    with the sum of the two learning rates, and an update leaves the
    stored gradients as they are. *)
Theorem sgd_updates_add (lr1 lr2 : R) (st : Sgd.state) :
  Sgd.f_update lr2 (Sgd.f_update lr1 st) = Sgd.f_update (lr1 + lr2) st /\
  Sgd.gshared (Sgd.f_update lr1 st) = Sgd.gshared st.
Proof.
  split; [|done]. unfold Sgd.f_update. simpl. f_equal.
  unfold Rmsprop.map2.
  generalize (Sgd.tparams st) (Sgd.gshared st). intros a.
  induction a as [|ta a IH]; intros [|tb b]; simpl; [done..|].
  rewrite IH. f_equal. rewrite zip_with_twice.
  apply zip_with_ext; [|done..]. intros p g. lra.
Qed.

(** *** adadelta *)

Lemma accumulators_ok_init params : Adadelta.accumulators_ok (Adadelta.adadelta params).
Proof. split; simpl; apply all_entries_zeros_like; lra. Qed.

Lemma accumulators_ok_step epsilon rho grads lr st :
  0 <= rho <= 1 ->
  Adadelta.accumulators_ok st ->
  Adadelta.accumulators_ok
    (Adadelta.f_update epsilon rho lr (Adadelta.f_grad_shared rho grads st)).
Proof.
  intros Hrho [Hu Hg]. split; simpl.
  - apply all_entries_map2; [|done]. intros x y Hx.
    pose proof (pow2_ge_0 y). nra.
  - apply all_entries_map2; [|done]. intros x y Hx.
    pose proof (pow2_ge_0 y). nra.
Qed.

(** X15. With a decay [rho] between 0 and 1, the two accumulators of
    [adadelta] hold no negative entry at any point of a run from the
    initial shared variables. *)
Theorem adadelta_accumulators (epsilon rho : R) (params : list (list R))
    (calls : list (list (list R) * R)) :
  0 <= rho <= 1 ->
  Adadelta.accumulators_ok
    (Adadelta.run epsilon rho calls (Adadelta.adadelta params)).
Proof.
  intros Hrho. unfold Adadelta.run.
  generalize (accumulators_ok_init params).
  generalize (Adadelta.adadelta params).
  induction calls as [|[grads lr] calls IH]; simpl; intros st Hst; [done|].
  by apply IH, accumulators_ok_step.
Qed.

Lemma entry_zip3 (f : R -> R -> R -> R) a b c k j x y z :
  Rmsprop.entry a k j = Some x -> Rmsprop.entry b k j = Some y ->
  Rmsprop.entry c k j = Some z ->
  Rmsprop.entry
    (zip_with (fun a '(b, c) =>
       zip_with (fun a '(b, c) => f a b c) a (zip b c)) a (zip b c)) k j
  = Some (f x y z).
Proof.
  unfold Rmsprop.entry. intros Ha Hb Hc. rewrite !lookup_zip_with.
  destruct (a !! k) as [ta|]; [|discriminate].
  destruct (b !! k) as [tb|]; [|discriminate].
  destruct (c !! k) as [tc|]; [|discriminate]. simpl.
  by rewrite !lookup_zip_with, Ha, Hb, Hc.
Qed.

(** X16. An [adadelta] update adds
    [- sqrt(running_up2 + epsilon) / sqrt(running_grads2 + epsilon) * g] to
    every parameter entry; with accumulators that are not negative this
    step never has the sign of the stored gradient; and the learning rate
    passed to [f_update] has no effect. *)
Theorem adadelta_update (epsilon rho lr : R) (st : Adadelta.state)
    (k j : nat) (p zg ru2 rg2 : R) :
  0 < epsilon -> 0 <= ru2 -> 0 <= rg2 ->
  Rmsprop.entry (Adadelta.tparams st) k j = Some p ->
  Rmsprop.entry (Adadelta.zipped_grads st) k j = Some zg ->
  Rmsprop.entry (Adadelta.running_up2 st) k j = Some ru2 ->
  Rmsprop.entry (Adadelta.running_grads2 st) k j = Some rg2 ->
  Rmsprop.entry (Adadelta.tparams (Adadelta.f_update epsilon rho lr st)) k j
    = Some (p - sqrt (ru2 + epsilon) / sqrt (rg2 + epsilon) * zg) /\
  - sqrt (ru2 + epsilon) / sqrt (rg2 + epsilon) * zg * zg <= 0 /\
  (forall lr',
     Adadelta.f_update epsilon rho lr' st = Adadelta.f_update epsilon rho lr st).
Proof.
  intros He Hu Hg Hp Hzg Hru2 Hrg2.
  pose proof (entry_zip3 (Adadelta.ud epsilon) _ _ _ k j _ _ _ Hzg Hru2 Hrg2)
    as Hud.
  split; [|split; [|done]].
  - unfold Adadelta.f_update; simpl. fold (Adadelta.updir epsilon st) in Hud.
    rewrite (RmspropSpec.entry_map2 Rplus _ _ k j _ _ Hp Hud).
    f_equal. unfold Adadelta.ud. lra.
  - pose proof (sqrt_pos (ru2 + epsilon)) as HA.
    assert (0 < sqrt (rg2 + epsilon)) as HB by (apply sqrt_lt_R0; lra).
    set (A := sqrt (ru2 + epsilon)) in *. set (B := sqrt (rg2 + epsilon)) in *.
    assert (0 <= A / B) as Hq by (apply Rle_mult_inv_pos; lra).
    replace (- A / B * zg * zg) with (- (A / B * (zg * zg))) by (field; lra).
    pose proof (Rle_0_sqr zg) as Hsq. unfold Rsqr in Hsq. nra.
Qed.

(** One entry, in the state that follows the first [f_grad_shared]. *)
Lemma adadelta_update_witness :
  let st := {| Adadelta.tparams := [[1]]; Adadelta.zipped_grads := [[2]];
               Adadelta.running_up2 := [[0]];
               Adadelta.running_grads2 := [[0.2]] |} in
  Rmsprop.entry (Adadelta.tparams (Adadelta.f_update 1e-6 0.95 0.01 st)) 0 0
    = Some (1 - sqrt (0 + 1e-6) / sqrt (0.2 + 1e-6) * 2) /\
  - sqrt (0 + 1e-6) / sqrt (0.2 + 1e-6) * 2 * 2 <= 0 /\
  (forall lr',
     Adadelta.f_update 1e-6 0.95 lr' st = Adadelta.f_update 1e-6 0.95 0.01 st).
Proof.
  apply (adadelta_update 1e-6 0.95 0.01
           {| Adadelta.tparams := [[1]]; Adadelta.zipped_grads := [[2]];
              Adadelta.running_up2 := [[0]];
              Adadelta.running_grads2 := [[0.2]] |} 0 0 1 2 0 0.2);
    try reflexivity; lra.
Defined.

(** A run of [adadelta] of one update. *)
Lemma adadelta_accumulators_witness :
  Adadelta.accumulators_ok
    (Adadelta.run 1e-6 0.95 [([[2]], 0.01)] (Adadelta.adadelta [[1]])).
Proof. apply (adadelta_accumulators 1e-6 0.95 [[1]] [([[2]], 0.01)]). lra. Defined.

(** *** adam *)

Lemma entry_zip4 (f : R -> R -> R -> R -> R) a b c d k j x y z w :
  Rmsprop.entry a k j = Some x -> Rmsprop.entry b k j = Some y ->
  Rmsprop.entry c k j = Some z -> Rmsprop.entry d k j = Some w ->
  Rmsprop.entry
    (zip_with (fun a '(b, (c, d)) =>
       zip_with (fun a '(b, (c, d)) => f a b c d) a (zip b (zip c d)))
       a (zip b (zip c d))) k j
  = Some (f x y z w).
Proof.
  unfold Rmsprop.entry. intros Ha Hb Hc Hd. rewrite !lookup_zip_with.
  destruct (a !! k) as [ta|]; [|discriminate].
  destruct (b !! k) as [tb|]; [|discriminate].
  destruct (c !! k) as [tc|]; [|discriminate].
  destruct (d !! k) as [td|]; [|discriminate]. simpl.
  by rewrite !lookup_zip_with, Ha, Hb, Hc, Hd.
Qed.

Lemma adam_first_step (beta1 beta2 e lr g : R) :
  0 < beta1 < 1 -> 0 < beta2 < 1 -> 0 < e -> 0 < lr ->
  let step :=
    Adam.lr_t beta1 beta2 lr 1 * Adam.m_t beta1 0 g
    / (sqrt (Adam.v_t beta2 0 g) + e) in
  - lr < step < lr /\ 0 <= step * g.
Proof.
  intros Hb1 Hb2 He Hlr step.
  assert (0 < sqrt (1 - beta2)) as Hs by (apply sqrt_lt_R0; lra).
  assert (sqrt (Adam.v_t beta2 0 g) = sqrt (1 - beta2) * Rabs g) as Hv.
  { unfold Adam.v_t.
    replace (beta2 * 0 + (1 - beta2) * g ^ 2) with ((1 - beta2) * Rsqr g)
      by (unfold Rsqr; ring).
    rewrite sqrt_mult; [|lra|apply Rle_0_sqr]. by rewrite sqrt_Rsqr_abs. }
  set (s := sqrt (1 - beta2)) in *.
  pose proof (Rabs_pos g) as Hg.
  assert (0 < s * Rabs g + e) as HD by nra.
  assert (step = lr * (s * g / (s * Rabs g + e))) as ->.
  { unfold step, Adam.lr_t, Adam.m_t. rewrite Hv. simpl.
    rewrite !Rmult_1_r. fold s. field. split; lra. }
  set (D := s * Rabs g + e) in *.
  set (q := s * g / D).
  assert (q * D = s * g) as HqD by (unfold q; field; lra).
  assert (- D < s * g < D) as Hsg.
  { unfold D. destruct (Rcase_abs g) as [Hneg|Hpos].
    - rewrite (Rabs_left g Hneg). nra.
    - rewrite (Rabs_right g Hpos). nra. }
  assert (- 1 < q < 1) as Hq by (split; nra).
  assert (0 <= q * g) as Hqg.
  { pose proof (Rle_0_sqr g) as Hsq. unfold Rsqr in Hsq.
    assert (q * g * D = s * (g * g)) as H by (rewrite <- (Rmult_assoc s), <- HqD; ring).
    assert (0 <= s * (g * g)) by nra. nra. }
  split; [split; nra | nra].
Qed.

(** X17. The first [adam] update, from zero moment estimates, moves every
    parameter entry by less than the learning rate, whatever the size of
    the gradient, and never in the direction of the gradient. *)
Theorem adam_first_update (beta1 beta2 e lr : R) (st : Adam.state)
    (k j : nat) (p g : R) :
  0 < beta1 < 1 -> 0 < beta2 < 1 -> 0 < e -> 0 < lr ->
  Adam.t_prev st = 0%nat ->
  Rmsprop.entry (Adam.tparams st) k j = Some p ->
  Rmsprop.entry (Adam.gshared st) k j = Some g ->
  Rmsprop.entry (Adam.m st) k j = Some 0 ->
  Rmsprop.entry (Adam.v st) k j = Some 0 ->
  exists p',
    Rmsprop.entry (Adam.tparams (Adam.f_update beta1 beta2 e lr st)) k j
      = Some p' /\
    Rabs (p' - p) < lr /\ (p' - p) * g <= 0.
Proof.
  intros Hb1 Hb2 He Hlr Ht Hp Hg Hm Hv.
  destruct (adam_first_step beta1 beta2 e lr g Hb1 Hb2 He Hlr) as [Hlt Hsign].
  eexists. split.
  - unfold Adam.f_update; simpl. rewrite Ht.
    exact (entry_zip4 _ _ _ _ _ k j _ _ _ _ Hp Hg Hm Hv).
  - unfold Adam.p_t.
    set (step := Adam.lr_t beta1 beta2 lr 1 * Adam.m_t beta1 0 g
                 / (sqrt (Adam.v_t beta2 0 g) + e)) in *.
    replace (p - step - p) with (- step) by lra.
    split; [apply Rabs_def1; lra | lra].
Qed.

(** The default hyper-parameters, one entry with gradient 1000. *)
Lemma adam_first_update_witness :
  exists p',
    Rmsprop.entry
      (Adam.tparams
         (Adam.f_update 0.9 0.999 1e-8 0.01
            {| Adam.tparams := [[1]]; Adam.gshared := [[1000]];
               Adam.m := [[0]]; Adam.v := [[0]]; Adam.t_prev := 0 |})) 0 0
      = Some p' /\
    Rabs (p' - 1) < 0.01 /\ (p' - 1) * 1000 <= 0.
Proof.
  apply (adam_first_update 0.9 0.999 1e-8 0.01
           {| Adam.tparams := [[1]]; Adam.gshared := [[1000]];
              Adam.m := [[0]]; Adam.v := [[0]]; Adam.t_prev := 0 |}
           0 0 1 1000); try reflexivity; lra.
Defined.

Lemma pow_lt_1 (b : R) (n : nat) : 0 <= b < 1 -> 0 <= b ^ n <= 1 /\ b ^ S n < 1.
Proof.
  intros Hb. induction n as [|n [IH1 IH2]]; simpl in *; [lra|].
  split; [nra|]. nra.
Qed.

Lemma adam_run_inv beta1 beta2 e calls : 0 <= beta2 <= 1 -> forall st,
  all_entries (fun r => 0 <= r) (Adam.v st) ->
  all_entries (fun r => 0 <= r) (Adam.v (Adam.run beta1 beta2 e calls st)) /\
  Adam.t_prev (Adam.run beta1 beta2 e calls st)
    = (Adam.t_prev st + length calls)%nat.
Proof.
  intros Hb2. unfold Adam.run.
  induction calls as [|[grads lr] calls IH]; simpl; intros st Hst;
    [split; [done | lia]|].
  destruct (IH (Adam.f_update beta1 beta2 e lr (Adam.f_grad_shared grads st)))
    as [Hv Ht].
  - simpl. apply all_entries_map2; [|done]. intros x y Hx. unfold Adam.v_t.
    pose proof (pow2_ge_0 y). nra.
  - split; [done|]. rewrite Ht. simpl. lia.
Qed.

(** X18. Throughout a run of [adam] from its initial shared variables, with
    decay rates in [0, 1), the second-moment estimate holds no negative
    entry, the step counter equals the number of updates made, and the
    bias correction [1 - beta1 ** t] of the next update is positive. *)
Theorem adam_run (beta1 beta2 e : R) (params : list (list R))
    (calls : list (list (list R) * R)) :
  0 <= beta1 < 1 -> 0 <= beta2 < 1 ->
  let st := Adam.run beta1 beta2 e calls (Adam.adam params) in
  all_entries (fun r => 0 <= r) (Adam.v st) /\
  Adam.t_prev st = length calls /\
  0 < 1 - beta1 ^ S (Adam.t_prev st) /\ 0 <= 1 - beta2 ^ S (Adam.t_prev st).
Proof.
  intros Hb1 Hb2 st.
  destruct (adam_run_inv beta1 beta2 e calls ltac:(lra) (Adam.adam params))
    as [Hv Ht].
  { simpl. apply all_entries_zeros_like. lra. }
  fold st in Hv, Ht. simpl in Ht.
  split; [done|]. split; [done|].
  destruct (pow_lt_1 beta1 (Adam.t_prev st) Hb1) as [_ H1].
  destruct (pow_lt_1 beta2 (Adam.t_prev st) Hb2) as [_ H2].
  split; lra.
Qed.

(** A run of [adam] of one update with the default hyper-parameters. *)
Lemma adam_run_witness :
  let st := Adam.run 0.9 0.999 1e-8 [([[2]], 0.01)] (Adam.adam [[1]]) in
  all_entries (fun r => 0 <= r) (Adam.v st) /\
  Adam.t_prev st = 1%nat /\
  0 < 1 - 0.9 ^ S (Adam.t_prev st) /\ 0 <= 1 - 0.999 ^ S (Adam.t_prev st).
Proof.
  apply (adam_run 0.9 0.999 1e-8 [[1]] [([[2]], 0.01)]); lra.
Defined.

End OptimizerSpec.

(** ** The recurrent layer across the scan *)

Module LstmMore.
Import Tensor Lstm LstmSpec.
Local Open Scope R_scope.

Lemma sigmoid_bounds x : 0 < sigmoid x < 1.
Proof.
  unfold sigmoid. pose proof (exp_pos (- x)) as He.
  split.
  - apply Rdiv_lt_0_compat; lra.
  - apply (Rmult_lt_reg_r (1 + exp (- x))); [lra|].
    replace (1 / (1 + exp (- x)) * (1 + exp (- x))) with 1 by (field; lra).
    lra.
Qed.

Lemma tanh_bounds x : - 1 < tanh x < 1.
Proof.
  unfold tanh, sinh, cosh.
  pose proof (exp_pos x) as Ha. pose proof (exp_pos (- x)) as Hb.
  set (a := exp x) in *. set (b := exp (- x)) in *.
  replace ((a - b) / 2 / ((a + b) / 2)) with ((a - b) / (a + b))
    by (field; lra).
  split.
  - apply (Rmult_lt_reg_r (a + b)); [lra|].
    replace ((a - b) / (a + b) * (a + b)) with (a - b) by (field; lra). lra.
  - apply (Rmult_lt_reg_r (a + b)); [lra|].
    replace ((a - b) / (a + b) * (a + b)) with (a - b) by (field; lra). lra.
Qed.

Lemma scan_S dim U mask sb t :
  scan dim U mask sb (S t)
  = (out_h (_step dim U (mask t) (sb t)
              (scan dim U mask sb t).1 (scan dim U mask sb t).2),
     out_c (_step dim U (mask t) (sb t)
              (scan dim U mask sb t).1 (scan dim U mask sb t).2)).
Proof. simpl. by destruct (scan dim U mask sb t). Qed.

Lemma scan_hidden_bounded dim U mask sb :
  (forall t s, 0 <= mask t s <= 1) ->
  forall t s j, - 1 < (scan dim U mask sb t).1 s j < 1.
Proof.
  intros Hmask t. induction t as [|t IH]; intros s j; [simpl; lra|].
  rewrite scan_S. cbn [fst].
  set (h_ := (scan dim U mask sb t).1) in *.
  set (c_ := (scan dim U mask sb t).2).
  cbn [_step out_h].
  match goal with
  | |- context [sigmoid ?a * tanh ?c] =>
      pose proof (sigmoid_bounds a) as Ho; pose proof (tanh_bounds c) as Hc;
      set (o := sigmoid a) in *; set (th := tanh c) in *
  end.
  specialize (IH s j). specialize (Hmask t s).
  assert (- 1 < o * th < 1) as Hot by (split; nra).
  set (m := mask t s) in *. set (x := o * th) in *. set (y := h_ s j) in *.
  clearbody m x y. clear -Hmask IH Hot.
  assert (0 <= m * (1 - x)) by nra. assert (0 <= (1 - m) * (1 - y)) by nra.
  assert (0 <= m * (1 + x)) by nra. assert (0 <= (1 - m) * (1 + y)) by nra.
  destruct (Rle_lt_dec m (1 / 2)) as [Hle|Hgt].
  - assert (0 < (1 - m) * (1 - y)) by nra.
    assert (0 < (1 - m) * (1 + y)) by nra. split; lra.
  - assert (0 < m * (1 - x)) by nra.
    assert (0 < m * (1 + x)) by nra. split; lra.
Qed.

(** X19. With mask entries between 0 and 1 (or no mask), every hidden
    state that [lstm_layer] emits lies strictly between -1 and 1, for every
    input, weight matrix and step. *)
Theorem lstm_hidden_bounded (dim : nat) (U W : nat -> nat -> R) (b : nat -> R)
    (nin : nat) (state_below : nat -> nat -> nat -> R)
    (mask : option (nat -> nat -> R)) (t s j : nat) :
  (forall m, mask = Some m -> forall t s, 0 <= m t s <= 1) ->
  - 1 < (lstm_layer dim U W b nin state_below mask t).1 s j < 1.
Proof.
  intros Hmask. unfold lstm_layer. apply scan_hidden_bounded.
  destruct mask as [m|]; [by apply Hmask | intros; lra].
Qed.

(** A layer of one unit on a mask of ones. *)
Lemma lstm_hidden_bounded_witness :
  - 1 < (lstm_layer 1 (fun _ _ => 1) (fun _ _ => 1) (fun _ => 0) 1
           (fun _ _ _ => 2) (Some (fun _ _ => 1)) 3).1 0%nat 0%nat < 1.
Proof.
  apply (lstm_hidden_bounded 1 (fun _ _ => 1) (fun _ _ => 1) (fun _ => 0) 1
           (fun _ _ _ => 2) (Some (fun _ _ => 1)) 3 0 0).
  intros m [= <-] t s. lra.
Defined.

Lemma scan_masked_run dim U mask sb s j k : forall n,
  (forall t, (k <= t < k + n)%nat -> mask t s = 0) ->
  (scan dim U mask sb (k + n)).1 s j = (scan dim U mask sb k).1 s j /\
  (scan dim U mask sb (k + n)).2 s j = (scan dim U mask sb k).2 s j.
Proof.
  induction n as [|n IH]; intros Hm.
  - by replace (k + 0)%nat with k by lia.
  - replace (k + S n)%nat with (S (k + n)) by lia. rewrite scan_S. cbn [fst snd].
    destruct (step_masked_out dim U (mask (k + n)%nat) (sb (k + n)%nat)
                (scan dim U mask sb (k + n)).1 (scan dim U mask sb (k + n)).2 s j)
      as [-> ->]; [apply Hm; lia|].
    apply IH. intros t Ht. apply Hm. lia.
Qed.

(** X20. Padding does not move the state of [lstm_layer]: after a run of
    steps whose mask entry is 0 for an example, the hidden and the cell
    state of that example are those of the last step before the run; and
    while every step so far is masked out (the leading padding of a
    reversed sequence) both are zero. *)
Theorem lstm_layer_padding (dim : nat) (U W : nat -> nat -> R) (b : nat -> R)
    (nin : nat) (state_below : nat -> nat -> nat -> R)
    (mask : nat -> nat -> R) (s j t n : nat) :
  let layer := lstm_layer dim U W b nin state_below (Some mask) in
  ((forall t', (t < t' <= t + n)%nat -> mask t' s = 0) ->
   (layer (t + n)%nat).1 s j = (layer t).1 s j /\
   (layer (t + n)%nat).2 s j = (layer t).2 s j) /\
  ((forall t', (t' <= t)%nat -> mask t' s = 0) ->
   (layer t).1 s j = 0 /\ (layer t).2 s j = 0).
Proof.
  intros layer. unfold layer, lstm_layer.
  set (sb := fun t s j => dot (state_below t) W nin s j + b j).
  split; intros Hm.
  - replace (S (t + n)) with (S t + n)%nat by lia.
    apply scan_masked_run. intros t' Ht'. apply Hm. lia.
  - replace (S t) with (0 + S t)%nat by lia.
    destruct (scan_masked_run dim U mask sb s j 0 (S t)) as [-> ->]; [|done].
    intros t' Ht'. apply Hm. lia.
Qed.

(** A mask that is zero everywhere: the states stay zero. *)
Lemma lstm_layer_padding_witness :
  (lstm_layer 1 (fun _ _ => 1) (fun _ _ => 1) (fun _ => 0) 1
     (fun _ _ _ => 2) (Some (fun _ _ => 0)) 3).1 0%nat 0%nat = 0 /\
  (lstm_layer 1 (fun _ _ => 1) (fun _ _ => 1) (fun _ => 0) 1
     (fun _ _ _ => 2) (Some (fun _ _ => 0)) 3).2 0%nat 0%nat = 0.
Proof.
  apply (proj2 (lstm_layer_padding 1 (fun _ _ => 1) (fun _ _ => 1)
                  (fun _ => 0) 1 (fun _ _ _ => 2) (fun _ _ => 0) 0 0 3 0)).
  reflexivity.
Defined.

End LstmMore.

(** ** Attention weights, attended contexts and pooling *)

Module ModelSpec.
Import Tensor Attention AttentionSpec Model.
Local Open Scope R_scope.

Lemma rsum_le n (f g : nat -> R) :
  (forall k, (k < n)%nat -> f k <= g k) -> rsum n f <= rsum n g.
Proof.
  induction n as [|n IH]; simpl; intros Hfg; [lra|].
  assert (rsum n f <= rsum n g) by (apply IH; intros; apply Hfg; lia).
  assert (f n <= g n) by (apply Hfg; lia). lra.
Qed.

Lemma rsum_scal n (f : nat -> R) (c : R) :
  rsum n (fun k => c * f k) = c * rsum n f.
Proof. induction n as [|n IH]; simpl; [lra | rewrite IH; lra]. Qed.

Lemma rsum_term_le n (f : nat -> R) k :
  (forall k, (k < n)%nat -> 0 <= f k) -> (k < n)%nat -> f k <= rsum n f.
Proof.
  induction n as [|n IH]; simpl; intros Hf Hk; [lia|].
  assert (0 <= rsum n f) by (apply rsum_nonneg; intros; apply Hf; lia).
  assert (0 <= f n) by (apply Hf; lia).
  destruct (decide (k = n)) as [->|Hne]; [lra|].
  assert (f k <= rsum n f) by (apply IH; [intros; apply Hf; lia | lia]).
  lra.
Qed.

(** *** A masked softmax along one axis *)

Section softmax.
Context (n : nat) (score mask : nat -> R) (shift : R) (k0 : nat).
Hypothesis Hmask : is_mask mask.
Hypothesis Hk0 : (k0 < n)%nat.
Hypothesis Hvalid : mask k0 = 1.

Let w := fun k => exp (score k - shift) * mask k.

Lemma softmax_weight_nonneg k : 0 <= w k.
Proof.
  unfold w. pose proof (exp_pos (score k - shift)).
  destruct (Hmask k) as [-> | ->]; lra.
Qed.

Lemma softmax_total_pos : 0 < rsum n w.
Proof.
  apply (rsum_pos n w k0); [intros; apply softmax_weight_nonneg | done |].
  unfold w. rewrite Hvalid. pose proof (exp_pos (score k0 - shift)). lra.
Qed.

Lemma softmax_bounds k : (k < n)%nat -> 0 <= w k / rsum n w <= 1.
Proof.
  intros Hk. pose proof softmax_total_pos as Hpos.
  pose proof (softmax_weight_nonneg k) as Hw.
  pose proof (rsum_term_le n w k (fun k _ => softmax_weight_nonneg k) Hk) as Hle.
  split.
  - apply Rle_mult_inv_pos; lra.
  - apply (Rmult_le_reg_r (rsum n w)); [lra|].
    replace (w k / rsum n w * rsum n w) with (w k) by (field; lra). lra.
Qed.

Lemma softmax_masked k : mask k = 0 -> w k / rsum n w = 0.
Proof. intros Hz. unfold w at 1. rewrite Hz. lra. Qed.

Lemma softmax_shift k :
  w k / rsum n w
  = exp (score k) * mask k / rsum n (fun k' => exp (score k') * mask k').
Proof.
  pose proof softmax_total_pos as Hpos.
  pose proof (exp_pos (- shift)) as He.
  assert (forall k', w k' = exp (- shift) * (exp (score k') * mask k')) as Hw.
  { intros k'. unfold w. unfold Rminus. rewrite exp_plus. lra. }
  assert (rsum n w = exp (- shift) * rsum n (fun k' => exp (score k') * mask k'))
    as Hsum.
  { rewrite <- rsum_scal. apply rsum_ext. intros k' _. apply Hw. }
  assert (0 < rsum n (fun k' => exp (score k') * mask k')) as Hpos'.
  { rewrite Hsum in Hpos. nra. }
  rewrite Hsum, Hw. field. split; lra.
Qed.

Lemma softmax_total : rsum n (fun k => w k / rsum n w) = 1.
Proof. rewrite rsum_div. field. pose proof softmax_total_pos. lra. Qed.

End softmax.

(** X21. For an example with a valid premise and a valid hypothesis
    position, every attention weight [alpha[p, h]] and [beta[p, h]] lies
    between 0 and 1, [alpha] is 0 at every padded premise position and
    [beta] at every padded hypothesis position. *)
Theorem attention_weights (n_timesteps_x1 n_timesteps_x2 dimctx : nat)
    (ctx1 ctx2 : nat -> nat -> nat -> R) (x1_mask x2_mask : nat -> nat -> R)
    (kb_att : nat -> nat -> nat -> R) (attention_lambda : R) (i p0 h0 : nat) :
  is_mask (fun p => x1_mask p i) -> is_mask (fun h => x2_mask h i) ->
  (p0 < n_timesteps_x1)%nat -> x1_mask p0 i = 1 ->
  (h0 < n_timesteps_x2)%nat -> x2_mask h0 i = 1 ->
  let a := alpha n_timesteps_x1 dimctx ctx1 ctx2 x1_mask kb_att attention_lambda in
  let b := beta n_timesteps_x2 dimctx ctx1 ctx2 x2_mask kb_att attention_lambda in
  (forall p h, (p < n_timesteps_x1)%nat -> 0 <= a p h i <= 1) /\
  (forall p h, x1_mask p i = 0 -> a p h i = 0) /\
  (forall p h, (h < n_timesteps_x2)%nat -> 0 <= b p h i <= 1) /\
  (forall p h, x2_mask h i = 0 -> b p h i = 0).
Proof.
  intros Hm1 Hm2 Hp0 Hv1 Hh0 Hv2 a b.
  set (wm := weight_matrix dimctx ctx1 ctx2 kb_att attention_lambda).
  split; [|split; [|split]].
  - intros p h Hp.
    exact (softmax_bounds n_timesteps_x1 (fun p => wm i p h)
             (fun p => x1_mask p i)
             (rmax n_timesteps_x1 (fun p' => wm i p' h)) p0 Hm1 Hp0 Hv1 p Hp).
  - intros p h Hz.
    exact (softmax_masked n_timesteps_x1 (fun p => wm i p h)
             (fun p => x1_mask p i)
             (rmax n_timesteps_x1 (fun p' => wm i p' h)) p Hz).
  - intros p h Hh.
    exact (softmax_bounds n_timesteps_x2 (fun h => wm i p h)
             (fun h => x2_mask h i)
             (rmax n_timesteps_x2 (fun h' => wm i p h')) h0 Hm2 Hh0 Hv2 h Hh).
  - intros p h Hz.
    exact (softmax_masked n_timesteps_x2 (fun h => wm i p h)
             (fun h => x2_mask h i)
             (rmax n_timesteps_x2 (fun h' => wm i p h')) h Hz).
Qed.

(** The sample input: one premise step, two hypothesis steps, all valid. *)
Lemma attention_weights_witness :
  let a := alpha 1 0 sample_ctx sample_ctx sample_mask sample_ctx 0 in
  let b := beta 2 0 sample_ctx sample_ctx sample_mask sample_ctx 0 in
  (forall p h, (p < 1)%nat -> 0 <= a p h 0%nat <= 1) /\
  (forall p h, (h < 2)%nat -> 0 <= b p h 0%nat <= 1).
Proof.
  destruct (attention_weights 1 2 0 sample_ctx sample_ctx sample_mask
              sample_mask sample_ctx 0 0 0 0) as (Ha & _ & Hb & _).
  - intros k. by right.
  - intros k. by right.
  - lia.
  - reflexivity.
  - lia.
  - reflexivity.
  - split; [exact Ha | exact Hb].
Defined.

(** X22. Subtracting the maximum before the exponential does not change
    the attention weights: [alpha] and [beta] are the masked softmax of the
    scores themselves. *)
Theorem attention_shift_invariant (n_timesteps_x1 n_timesteps_x2 dimctx : nat)
    (ctx1 ctx2 : nat -> nat -> nat -> R) (x1_mask x2_mask : nat -> nat -> R)
    (kb_att : nat -> nat -> nat -> R) (attention_lambda : R) (i p0 h0 : nat) :
  is_mask (fun p => x1_mask p i) -> is_mask (fun h => x2_mask h i) ->
  (p0 < n_timesteps_x1)%nat -> x1_mask p0 i = 1 ->
  (h0 < n_timesteps_x2)%nat -> x2_mask h0 i = 1 ->
  let wm := weight_matrix dimctx ctx1 ctx2 kb_att attention_lambda in
  let a := alpha n_timesteps_x1 dimctx ctx1 ctx2 x1_mask kb_att attention_lambda in
  let b := beta n_timesteps_x2 dimctx ctx1 ctx2 x2_mask kb_att attention_lambda in
  (forall p h, a p h i
     = exp (wm i p h) * x1_mask p i
       / rsum n_timesteps_x1 (fun p' => exp (wm i p' h) * x1_mask p' i)) /\
  (forall p h, b p h i
     = exp (wm i p h) * x2_mask h i
       / rsum n_timesteps_x2 (fun h' => exp (wm i p h') * x2_mask h' i)).
Proof.
  intros Hm1 Hm2 Hp0 Hv1 Hh0 Hv2 wm a b. split; intros p h.
  - exact (softmax_shift n_timesteps_x1 (fun p => wm i p h)
             (fun p => x1_mask p i)
             (rmax n_timesteps_x1 (fun p' => wm i p' h)) p0 Hm1 Hp0 Hv1 p).
  - exact (softmax_shift n_timesteps_x2 (fun h => wm i p h)
             (fun h => x2_mask h i)
             (rmax n_timesteps_x2 (fun h' => wm i p h')) h0 Hm2 Hh0 Hv2 h).
Qed.

(** The sample input. *)
Lemma attention_shift_invariant_witness :
  let wm := weight_matrix 0 sample_ctx sample_ctx sample_ctx 0 in
  let a := alpha 1 0 sample_ctx sample_ctx sample_mask sample_ctx 0 in
  let b := beta 2 0 sample_ctx sample_ctx sample_mask sample_ctx 0 in
  (forall p h, a p h 0%nat
     = exp (wm 0%nat p h) * sample_mask p 0%nat
       / rsum 1 (fun p' => exp (wm 0%nat p' h) * sample_mask p' 0%nat)) /\
  (forall p h, b p h 0%nat
     = exp (wm 0%nat p h) * sample_mask h 0%nat
       / rsum 2 (fun h' => exp (wm 0%nat p h') * sample_mask h' 0%nat)).
Proof.
  apply (attention_shift_invariant 1 2 0 sample_ctx sample_ctx sample_mask
           sample_mask sample_ctx 0 0 0 0).
  - intros k. by right.
  - intros k. by right.
  - lia.
  - reflexivity.
  - lia.
  - reflexivity.
Defined.

(** *** Weighted means *)

Lemma weighted_mean_bound n (f w : nat -> R) (B : R) :
  (forall k, (k < n)%nat -> 0 <= w k) -> 0 < rsum n w ->
  (forall k, (k < n)%nat -> w k = 0 \/ - B <= f k <= B) ->
  - B <= rsum n (fun k => f k * w k) / rsum n w <= B.
Proof.
  intros Hw Hpos Hf.
  assert (forall k, (k < n)%nat -> - B * w k <= f k * w k <= B * w k) as Hterm.
  { intros k Hk. specialize (Hw k Hk).
    destruct (Hf k Hk) as [-> | Hb]; [lra | nra]. }
  assert (- B * rsum n w <= rsum n (fun k => f k * w k)) as Hlo.
  { rewrite <- rsum_scal. apply rsum_le. intros k Hk. by apply Hterm. }
  assert (rsum n (fun k => f k * w k) <= B * rsum n w) as Hhi.
  { rewrite <- rsum_scal. apply rsum_le. intros k Hk. by apply Hterm. }
  split.
  - apply (Rmult_le_reg_r (rsum n w)); [lra|].
    replace (rsum n (fun k => f k * w k) / rsum n w * rsum n w)
      with (rsum n (fun k => f k * w k)) by (field; lra). lra.
  - apply (Rmult_le_reg_r (rsum n w)); [lra|].
    replace (rsum n (fun k => f k * w k) / rsum n w * rsum n w)
      with (rsum n (fun k => f k * w k)) by (field; lra). lra.
Qed.

Lemma softmax_mean_bound n (score mask f : nat -> R) (shift B : R) k0 :
  is_mask mask -> (k0 < n)%nat -> mask k0 = 1 ->
  (forall k, (k < n)%nat -> mask k = 1 -> - B <= f k <= B) ->
  - B <= rsum n (fun k =>
           f k * (exp (score k - shift) * mask k
                  / rsum n (fun k' => exp (score k' - shift) * mask k')))
      <= B.
Proof.
  intros Hmask Hk0 Hvalid Hf.
  set (w := fun k => exp (score k - shift) * mask k).
  assert (rsum n (fun k => f k * (exp (score k - shift) * mask k / rsum n w))
          = rsum n (fun k => f k * w k) / rsum n w) as ->.
  { rewrite <- rsum_div. apply rsum_ext. intros k _. unfold w. lra. }
  apply weighted_mean_bound.
  - intros k _. by apply softmax_weight_nonneg.
  - by apply (softmax_total_pos n score mask shift k0).
  - intros k Hk. destruct (Hmask k) as [Hz|Ho].
    + left. unfold w. rewrite Hz. lra.
    + right. by apply Hf.
Qed.

(** X23. The attended contexts are convex combinations: when every valid
    entry of [ctx1] (of [ctx2]) lies within [-B, B], so does every entry of
    [ctx2_] (of [ctx1_]), whatever the scores. *)
Theorem attended_context_bounded (n_timesteps_x1 n_timesteps_x2 dimctx : nat)
    (ctx1 ctx2 : nat -> nat -> nat -> R) (x1_mask x2_mask : nat -> nat -> R)
    (kb_att : nat -> nat -> nat -> R) (attention_lambda B : R) (i p0 h0 : nat) :
  is_mask (fun p => x1_mask p i) -> is_mask (fun h => x2_mask h i) ->
  (p0 < n_timesteps_x1)%nat -> x1_mask p0 i = 1 ->
  (h0 < n_timesteps_x2)%nat -> x2_mask h0 i = 1 ->
  (forall p d, (p < n_timesteps_x1)%nat -> x1_mask p i = 1 ->
     - B <= ctx1 p i d <= B) ->
  (forall h d, (h < n_timesteps_x2)%nat -> x2_mask h i = 1 ->
     - B <= ctx2 h i d <= B) ->
  let a := alpha n_timesteps_x1 dimctx ctx1 ctx2 x1_mask kb_att attention_lambda in
  let b := beta n_timesteps_x2 dimctx ctx1 ctx2 x2_mask kb_att attention_lambda in
  (forall h d, - B <= ctx2_ n_timesteps_x1 ctx1 a h i d <= B) /\
  (forall p d, - B <= ctx1_ n_timesteps_x2 ctx2 b p i d <= B).
Proof.
  intros Hm1 Hm2 Hp0 Hv1 Hh0 Hv2 Hc1 Hc2 a b.
  set (wm := weight_matrix dimctx ctx1 ctx2 kb_att attention_lambda).
  split.
  - intros h d.
    exact (softmax_mean_bound n_timesteps_x1 (fun p => wm i p h)
             (fun p => x1_mask p i) (fun p => ctx1 p i d)
             (rmax n_timesteps_x1 (fun p' => wm i p' h)) B p0 Hm1 Hp0 Hv1
             (fun p Hp Hv => Hc1 p d Hp Hv)).
  - intros p d.
    exact (softmax_mean_bound n_timesteps_x2 (fun h => wm i p h)
             (fun h => x2_mask h i) (fun h => ctx2 h i d)
             (rmax n_timesteps_x2 (fun h' => wm i p h')) B h0 Hm2 Hh0 Hv2
             (fun h Hh Hv => Hc2 h d Hh Hv)).
Qed.

(** The sample input, whose contexts are zero. *)
Lemma attended_context_bounded_witness :
  let a := alpha 1 0 sample_ctx sample_ctx sample_mask sample_ctx 0 in
  let b := beta 2 0 sample_ctx sample_ctx sample_mask sample_ctx 0 in
  (forall h d, - 1 <= ctx2_ 1 sample_ctx a h 0%nat d <= 1) /\
  (forall p d, - 1 <= ctx1_ 2 sample_ctx b p 0%nat d <= 1).
Proof.
  apply (attended_context_bounded 1 2 0 sample_ctx sample_ctx sample_mask
           sample_mask sample_ctx 0 1 0 0 0).
  - intros k. by right.
  - intros k. by right.
  - lia.
  - reflexivity.
  - lia.
  - reflexivity.
  - intros p d _ _. unfold sample_ctx. lra.
  - intros h d _ _. unfold sample_ctx. lra.
Defined.

(** *** Pooling *)

Lemma rmax_S n (f : nat -> R) :
  rmax (S (S n)) f = Rmax (rmax (S n) f) (f (S n)).
Proof. done. Qed.

Lemma rmax_ge n (f : nat -> R) k : (k < n)%nat -> f k <= rmax n f.
Proof.
  destruct n as [|n]; [lia|]. induction n as [|n IH]; intros Hk.
  - replace k with 0%nat by lia. simpl. lra.
  - rewrite rmax_S. destruct (decide (k = S n)) as [->|Hne].
    + apply Rmax_r.
    + etransitivity; [apply IH; lia | apply Rmax_l].
Qed.

Lemma rmax_le n (f : nat -> R) c :
  (0 < n)%nat -> (forall k, (k < n)%nat -> f k <= c) -> rmax n f <= c.
Proof.
  destruct n as [|n]; [lia|]. intros _. induction n as [|n IH]; intros Hf.
  - simpl. apply Hf. lia.
  - rewrite rmax_S. apply Rmax_lub; [apply IH; intros; apply Hf; lia|].
    apply Hf. lia.
Qed.

(** X24. Max pooling runs over the padded steps too: every masked product
    is at most the pooled value, so an example with a padded step pools to
    at least 0, and to exactly 0 when none of its valid entries is
    positive. *)
Theorem max_pool_padding (n : nat) (ctx : nat -> nat -> nat -> R)
    (mask : nat -> nat -> R) (i d t0 : nat) :
  (t0 < n)%nat -> mask t0 i = 0 ->
  (forall t, (t < n)%nat -> ctx t i d * mask t i <= max_pool n ctx mask i d) /\
  0 <= max_pool n ctx mask i d /\
  (is_mask (fun t => mask t i) ->
   (forall t, (t < n)%nat -> mask t i = 1 -> ctx t i d <= 0) ->
   max_pool n ctx mask i d = 0).
Proof.
  intros Ht0 Hz. unfold max_pool.
  assert (0 <= rmax n (fun t => ctx t i d * mask t i)) as Hge.
  { etransitivity; [|apply (rmax_ge n _ t0 Ht0)]. simpl. rewrite Hz. lra. }
  split; [intros t Ht; by apply (rmax_ge n (fun t => ctx t i d * mask t i))|].
  split; [done|].
  intros Hmask Hneg. apply Rle_antisym; [|done].
  apply rmax_le; [lia|]. intros k Hk.
  destruct (Hmask k) as [Hm|Hm]; simpl in Hm; rewrite Hm; [lra|].
  specialize (Hneg k Hk Hm). lra.
Qed.

(** Two steps, the second one padded; the only valid entry is -3. *)
Lemma max_pool_padding_witness :
  max_pool 2 (fun _ _ _ => -3)
    (fun t _ => match t with O => 1 | _ => 0 end) 0 0 = 0.
Proof.
  apply (proj2 (proj2 (max_pool_padding 2 (fun _ _ _ => -3)
           (fun t _ => match t with O => 1 | _ => 0 end) 0 0 1
           ltac:(lia) eq_refl))).
  - intros [|t]; [by right | by left].
  - intros t _ _. lra.
Defined.

(** X25. Mean pooling and gated pooling are weighted means over the valid
    steps: when every valid entry of the context lies within [-B, B], so
    do both pooled values, whatever the gate scores. *)
Theorem pooled_means_bounded (n : nat) (ctx : nat -> nat -> nat -> R)
    (gate mask : nat -> nat -> R) (B : R) (i d t0 : nat) :
  is_mask (fun t => mask t i) -> (t0 < n)%nat -> mask t0 i = 1 ->
  (forall t, (t < n)%nat -> mask t i = 1 -> - B <= ctx t i d <= B) ->
  - B <= mean_pool n ctx mask i d <= B /\
  - B <= gate_pool n ctx gate mask i d <= B.
Proof.
  intros Hmask Ht0 Hvalid Hctx. split.
  - unfold mean_pool. apply weighted_mean_bound.
    + intros k _. destruct (Hmask k) as [Hm|Hm]; simpl in Hm; lra.
    + apply (rsum_pos n _ t0); [|done|lra].
      intros k _. destruct (Hmask k) as [Hm|Hm]; simpl in Hm; lra.
    + intros k Hk. destruct (Hmask k) as [Hm|Hm]; simpl in Hm;
        [by left | right; by apply Hctx].
  - unfold gate_pool.
    assert (forall k, 0 <= gate_kb n gate k i * mask k i) as Hw.
    { intros k. unfold gate_kb. pose proof (exp_pos (gate k i - rmax n (fun t' => gate t' i))).
      destruct (Hmask k) as [Hm|Hm]; simpl in Hm; rewrite Hm; lra. }
    rewrite (rsum_ext n (fun t => ctx t i d * gate_kb n gate t i * mask t i)
               (fun t => ctx t i d * (gate_kb n gate t i * mask t i)))
      by (intros; lra).
    apply (weighted_mean_bound n (fun t => ctx t i d)
             (fun t => gate_kb n gate t i * mask t i)).
    + intros k _. apply Hw.
    + apply (rsum_pos n _ t0); [intros; apply Hw | done |].
      rewrite Hvalid. unfold gate_kb.
      pose proof (exp_pos (gate t0 i - rmax n (fun t' => gate t' i))). lra.
    + intros k Hk. destruct (Hmask k) as [Hm|Hm]; simpl in Hm.
      * left. rewrite Hm. lra.
      * right. by apply Hctx.
Qed.

(** Two steps, the second one padded, with an entry outside the bound at
    the padded step. *)
Lemma pooled_means_bounded_witness :
  - 1 <= mean_pool 2 (fun t _ _ => match t with O => 1 | _ => 5 end)
           (fun t _ => match t with O => 1 | _ => 0 end) 0 0 <= 1 /\
  - 1 <= gate_pool 2 (fun t _ _ => match t with O => 1 | _ => 5 end)
           (fun _ _ => 0) (fun t _ => match t with O => 1 | _ => 0 end) 0 0
      <= 1.
Proof.
  apply (pooled_means_bounded 2 (fun t _ _ => match t with O => 1 | _ => 5 end)
           (fun _ _ => 0) (fun t _ => match t with O => 1 | _ => 0 end)
           1 0 0 0).
  - intros [|t]; [by right | by left].
  - lia.
  - reflexivity.
  - intros [|t] _ Hm; [lra|]. lra.
Defined.

End ModelSpec.

(** ** The errors that [prepare_data] can raise *)

Module BatchErrors.
Import Batch ArrayError.

Lemma bind_inl {A B} (m : py A) (k : A -> py B) (e : exn) :
  bind m k = inl e -> m = inl e \/ exists a, m = inr a /\ k a = inl e.
Proof. destruct m as [e'|a]; simpl; [intros [= ->]; by left | eauto]. Qed.

Lemma for_each_inl {A St} (body : A -> St -> py St) (P : exn -> Prop) :
  forall (xs : list A) (s : St) (e : exn),
    (forall a t e, a ∈ xs -> body a t = inl e -> P e) ->
    for_each body xs s = inl e -> P e.
Proof.
  induction xs as [|a xs IH]; simpl; intros s e Hbody Hrun;
    [discriminate Hrun|].
  apply bind_inl in Hrun as [Ha | (t & _ & Hrest)].
  - apply (Hbody a s e); [apply elem_of_cons; by left | done].
  - apply (IH t e); [|done]. intros b u e' Hb. apply Hbody.
    apply elem_of_cons. by right.
Qed.

Lemma upd_error {A} (xs : list A) i f e :
  upd xs i f = inl e -> (forall a e, f a = inl e -> array_error e) ->
  array_error e.
Proof.
  unfold upd. destruct (xs !! i) as [a|]; [|intros [= <-]; by left].
  intros H Hf. apply bind_inl in H as [H | (a' & _ & H)]; [by eapply Hf|].
  discriminate.
Qed.

Lemma set2_error {A} (m : list (list A)) r c v e :
  set2 m r c v = inl e -> array_error e.
Proof.
  unfold set2. intros H. apply (upd_error _ _ _ _ H).
  intros row e' H'. apply (upd_error _ _ _ _ H'). discriminate.
Qed.

Lemma upd3_error {A} (t : list (list (list A))) a b c f e :
  upd3 t a b c f = inl e -> (forall v e, f v = inl e -> array_error e) ->
  array_error e.
Proof.
  unfold upd3. intros H Hf. apply (upd_error _ _ _ _ H).
  intros m e1 H1. apply (upd_error _ _ _ _ H1).
  intros row e2 H2. by apply (upd_error _ _ _ _ H2).
Qed.

Lemma assign_row_error {A} (v row : list A) e :
  assign_row v row = inl e -> array_error e.
Proof.
  unfold assign_row. destruct (decide _); [discriminate|].
  destruct v as [|a [|? ?]]; try discriminate; intros [= <-]; by right.
Qed.

Lemma assign_col_prefix_error {A} (m : list (list A)) n c vals e :
  assign_col_prefix m n c vals = inl e -> array_error e.
Proof.
  unfold assign_col_prefix. destruct (decide _); [|intros [= <-]; by right].
  apply for_each_inl. intros [r v] t e' _. apply set2_error.
Qed.

Lemma fill_col_prefix_error {A} (m : list (list A)) n c v e :
  fill_col_prefix m n c v = inl e -> array_error e.
Proof.
  unfold fill_col_prefix. apply for_each_inl. intros r t e' _. apply set2_error.
Qed.

Lemma fill_kb_x_error kb_dict idx s_xl s_yl st e :
  fill_kb_x kb_dict idx s_xl s_yl st = inl e -> array_error e.
Proof.
  unfold fill_kb_x. apply for_each_inl. intros [sid s] t e1 _.
  apply for_each_inl. intros [tid t0] [kx ka] e2 _.
  destruct (kb_dict !! s) as [row|]; [|discriminate].
  destruct (row !! t0) as [v|]; [|discriminate].
  intros H. apply bind_inl in H as [H | (kx' & _ & H)].
  - apply (upd3_error _ _ _ _ _ _ H). intros ? ?. apply assign_row_error.
  - apply bind_inl in H as [H | (ka' & _ & H)]; [|discriminate].
    apply (upd3_error _ _ _ _ _ _ H). discriminate.
Qed.

Lemma fill_kb_y_error kb_dict idx s_xl s_yl kb e :
  fill_kb_y kb_dict idx s_xl s_yl kb = inl e -> array_error e.
Proof.
  unfold fill_kb_y. apply for_each_inl. intros [sid s] t e1 _.
  apply for_each_inl. intros [tid t0] ky e2 _.
  destruct (kb_dict !! s) as [row|]; [|discriminate].
  destruct (row !! t0) as [v|]; [|discriminate].
  intros H. apply (upd3_error _ _ _ _ _ _ H). intros ? ?. apply assign_row_error.
Qed.

Lemma fill_example_error kb_dict lengths_x lengths_y ex b e :
  fill_example kb_dict lengths_x lengths_y ex b = inl e -> array_error e.
Proof.
  destruct ex as (i & s_x & s_y & s_xl & s_yl & ll).
  unfold fill_example, index. intros H.
  destruct (lengths_x !! i) as [len_x|]; [|injection H as <-; by left].
  apply bind_inl in H as [H | (? & _ & H)]; [discriminate|].
  apply bind_inl in H as [H | (? & _ & H)];
    [by eapply assign_col_prefix_error|].
  apply bind_inl in H as [H | (? & _ & H)];
    [by eapply fill_col_prefix_error|].
  destruct (lengths_y !! i) as [len_y|]; [|injection H as <-; by left].
  apply bind_inl in H as [H | (? & _ & H)]; [discriminate|].
  apply bind_inl in H as [H | (? & _ & H)];
    [by eapply assign_col_prefix_error|].
  apply bind_inl in H as [H | (? & _ & H)];
    [by eapply fill_col_prefix_error|].
  apply bind_inl in H as [H | (? & _ & H)].
  { apply (upd_error _ _ _ _ H). discriminate. }
  apply bind_inl in H as [H | ([kx ka] & _ & H)];
    [by eapply fill_kb_x_error|].
  apply bind_inl in H as [H | (? & _ & H)];
    [by eapply fill_kb_y_error | discriminate].
Qed.

Lemma numpy_max_error ls e : numpy_max ls = inl e -> array_error e.
Proof. destruct ls; [intros [= <-]; by right | discriminate]. Qed.

Lemma build_batch_error seqs_x seqs_y seqs_x_lemma seqs_y_lemma labels options
    kb_dict lengths_x lengths_y e :
  build_batch seqs_x seqs_y seqs_x_lemma seqs_y_lemma labels options kb_dict
    lengths_x lengths_y = inl e -> array_error e.
Proof.
  unfold build_batch. intros H.
  apply bind_inl in H as [H | (? & _ & H)]; [by eapply numpy_max_error|].
  apply bind_inl in H as [H | (? & _ & H)]; [by eapply numpy_max_error|].
  revert H. apply for_each_inl. intros ex t e' _. apply fill_example_error.
Qed.

Lemma prepare_data_error seqs_x seqs_y seqs_x_lemma seqs_y_lemma labels options
    kb_dict maxlen e :
  prepare_data seqs_x seqs_y seqs_x_lemma seqs_y_lemma labels options kb_dict
    maxlen = inl e -> array_error e.
Proof.
  unfold prepare_data. destruct maxlen as [m|].
  - destruct (filter_loop _ _ _) as [[[kx lx] ky] ly].
    destruct (_ || _); [discriminate|].
    intros H. apply bind_inl in H as [H | (? & _ & H)]; [|discriminate].
    by eapply build_batch_error.
  - intros H. apply bind_inl in H as [H | (? & _ & H)]; [|discriminate].
    by eapply build_batch_error.
Qed.

(** X8. The only exceptions that [prepare_data] raises are [IndexError]
    and [ValueError]; without a [maxlen], a mini-batch with no premise or
    no hypothesis raises [ValueError], the maximum of an empty list of
    lengths. *)
Theorem prepare_data_errors seqs_x seqs_y seqs_x_lemma seqs_y_lemma labels
    options kb_dict :
  (forall maxlen e,
     prepare_data seqs_x seqs_y seqs_x_lemma seqs_y_lemma labels options
       kb_dict maxlen = inl e -> e = IndexError \/ e = ValueError) /\
  prepare_data [] seqs_y seqs_x_lemma seqs_y_lemma labels options kb_dict None
    = inl ValueError /\
  prepare_data seqs_x [] seqs_x_lemma seqs_y_lemma labels options kb_dict None
    = inl ValueError.
Proof.
  split; [intros maxlen e; apply prepare_data_error|].
  split; [done|]. unfold prepare_data, build_batch. by destruct seqs_x.
Qed.

(** Lemma sequences that are longer than the longest premise. *)
Lemma prepare_data_errors_witness :
  prepare_data [[1]]%Z [[2]]%Z [[7; 7]]%Z [[9]]%Z [0%Z] sample_options
    sample_kb_dict None = inl IndexError /\
  (IndexError = IndexError \/ IndexError = ValueError).
Proof.
  assert (prepare_data [[1]]%Z [[2]]%Z [[7; 7]]%Z [[9]]%Z [0%Z] sample_options
            sample_kb_dict None = inl IndexError) as Hrun
    by (vm_compute; reflexivity).
  split; [exact Hrun|].
  exact (proj1 (prepare_data_errors _ _ _ _ _ _ _) None IndexError Hrun).
Defined.

End BatchErrors.

(** ** The control loop of [train]: accounting, budgets, the snapshot *)

Module TrainMore.
Import Batch ArrayError BatchErrors Train TrainSpec TrainTrace TrainAbort.

Lemma updates_app tr1 tr2 : updates (tr1 ++ tr2) = updates tr1 + updates tr2.
Proof. unfold updates. by rewrite List.filter_app, length_app. Qed.

Lemma halvings_app tr1 tr2 : halvings (tr1 ++ tr2) = halvings tr1 + halvings tr2.
Proof. unfold halvings. by rewrite List.filter_app, length_app. Qed.

Ltac count :=
  unfold updates, halvings in *;
  rewrite ?List.filter_app, ?length_app in *; simpl in *; lia.

Section loop.
Context {M params : Type}.
Context (f_grad_shared : list pyval -> M -> float * M).
Context (f_update : Q -> M -> M).
Context (use_noise : Q -> M -> M).
Context (unzip : M -> params).
Context (zipp : params -> M -> M).
Context (pred_acc : M -> float).
Implicit Types (st : @tstate M params) (f : @flow M params).

Lemma accounts_refl st : accounts [] st st.
Proof.
  unfold accounts, updates, halvings. simpl. rewrite app_nil_r.
  split_and!; try done; try lia. exists []. by rewrite app_nil_r.
Qed.

Lemma accounts_trans tr1 tr2 st1 st2 st3 :
  accounts tr1 st1 st2 -> accounts tr2 st2 st3 ->
  accounts (tr1 ++ tr2) st1 st3.
Proof.
  intros (Ht1 & Hu1 & Hb1 & Hl1 & l1 & Hc1 & Hn1)
         (Ht2 & Hu2 & Hb2 & Hl2 & l2 & Hc2 & Hn2).
  unfold accounts. rewrite updates_app, halvings_app.
  split; [by rewrite Ht2, Ht1, app_assoc|].
  split; [lia|]. split; [lia|].
  split.
  - rewrite Hl2, Hl1, Nat.add_comm. by rewrite Nat.iter_add.
  - exists (l1 ++ l2). rewrite Hc2, Hc1, length_app, app_assoc. split; [done|lia].
Qed.

(** A step that touches none of the accounted fields and logs [tr]. *)
Lemma accounts_frame tr st st' :
  updates tr = 0 -> halvings tr = 0 ->
  trace st' = trace st ++ tr -> uidx st' = uidx st ->
  bad_counter st' = bad_counter st -> lrate st' = lrate st ->
  lr_change_list st' = lr_change_list st ->
  accounts tr st st'.
Proof.
  intros Hu Hh Ht Hui Hb Hl Hc. unfold accounts. rewrite Hu, Hh. simpl.
  split_and!; try done; try lia. exists []. by rewrite app_nil_r.
Qed.

Lemma record_result_frame eidx valid_err st st' :
  record_result unzip eidx valid_err st = inr st' ->
  trace st' = trace st /\ uidx st' = uidx st /\
  bad_counter st' = bad_counter st /\ lrate st' = lrate st /\
  lr_change_list st' = lr_change_list st /\
  history_errs st' = history_errs st.
Proof.
  unfold record_result. intros H.
  apply bind_inr in H as (m & _ & H).
  apply bind_inr in H as (m' & _ & [= <-]).
  destruct (bool_decide (uidx st = 0%Z) || fle valid_err m);
    destruct (fgt valid_err m'); done.
Qed.

Lemma decay_accounts eidx st st' :
  decay zipp eidx st = inr st' ->
  (st' = st /\ (wait_counter st < wait_N)%Z) \/
  (accounts [EvHalve] st st' /\ history_errs st' = history_errs st /\
   best_p st' = best_p st /\ is_Some (best_p st) /\ wait_counter st' = 0%Z).
Proof.
  unfold decay. case_bool_decide as Hw.
  - destruct (best_p st) as [bp|] eqn:Hbp; [|discriminate].
    intros [= <-]. right. simpl. split; [|by split_and!].
    unfold accounts, updates, halvings. simpl. split_and!; try done; try lia.
    by exists [eidx].
  - intros [= <-]. left. split; [done | lia].
Qed.

(** One validation: the events it leaves and the flag it returns. *)
Lemma validate_accounts cfg eidx valid_acc st st' estop :
  validate unzip zipp cfg eidx valid_acc st = inr (st', estop) ->
  exists tr, accounts tr st st' /\ updates tr = 0 /\ halvings tr <= 1 /\
    estop = bool_decide (bad_counter st' > patience cfg)%Z.
Proof.
  unfold validate. intros H.
  apply bind_inr in H as (st1 & Hrec & H).
  apply bind_inr in H as (st2 & Hdec & H).
  apply record_result_frame in Hrec as (Ht1 & Hu1 & Hb1 & Hl1 & Hc1 & _).
  simpl in Ht1, Hu1, Hb1, Hl1, Hc1.
  assert (accounts [EvValid (one_minus valid_acc)] st st1) as H01
    by by apply accounts_frame.
  assert (exists tr2, accounts tr2 st1 st2 /\ updates tr2 = 0 /\ halvings tr2 <= 1)
    as (tr2 & H12 & Hu2 & Hh2).
  { apply decay_accounts in Hdec as [[-> _] | (Hacc & _)].
    - exists []. split; [apply accounts_refl|].
      split; [done | unfold halvings; simpl; lia].
    - exists [EvHalve]. split; [done|].
      split; [done | unfold halvings; simpl; lia]. }
  pose proof (accounts_trans _ _ _ _ _ H01 H12) as H02.
  case_bool_decide as Hbad.
  - injection H as <- <-. eexists. split; [exact H02|].
    split_and!; [count | count |]. by rewrite bool_decide_eq_true_2.
  - injection H as <- <-.
    destruct (isnan (one_minus valid_acc)).
    + exists (([EvValid (one_minus valid_acc)] ++ tr2) ++ [EvDebugger]).
      split; [|split_and!; [count | count |]; simpl;
               by rewrite bool_decide_eq_false_2].
      eapply accounts_trans; [exact H02|]. by apply accounts_frame.
    + eexists. split; [exact H02|].
      split_and!; [count | count |]. by rewrite bool_decide_eq_false_2.
Qed.

Lemma after_update_accounts cfg eidx st f :
  after_update use_noise unzip zipp pred_acc cfg eidx st = inr f ->
  (exists tr, accounts tr st (final f) /\ updates tr = 0 /\ halvings tr <= 1) /\
  ((uidx st <= finish_after cfg)%Z -> (bad_counter st <= patience cfg)%Z ->
   flow_budget cfg f) /\
  (forall st', f <> Return st').
Proof.
  unfold after_update. intros H.
  assert (exists st0 tr0,
            (if bool_decide (numpy_mod (uidx st) (saveFreq cfg) = 0%Z)
             then log EvSave st else st) = st0 /\
            accounts tr0 st st0 /\ updates tr0 = 0 /\ halvings tr0 = 0 /\
            uidx st0 = uidx st /\ bad_counter st0 = bad_counter st)
    as (st0 & tr0 & Hst0 & H0 & Hu0 & Hh0 & Hui0 & Hbc0).
  { destruct (bool_decide (numpy_mod (uidx st) (saveFreq cfg) = 0%Z)).
    - exists (log EvSave st), [EvSave].
      split_and!; try done. by apply accounts_frame.
    - exists st, []. split_and!; try done. apply accounts_refl. }
  rewrite Hst0 in H. clear Hst0.
  apply bind_inr in H as ([st1 estop] & Hval & H).
  assert (exists tr1, accounts tr1 st0 st1 /\ updates tr1 = 0 /\ halvings tr1 <= 1
            /\ (estop = true -> (bad_counter st1 > patience cfg)%Z)
            /\ (estop = false ->
                (bad_counter st1 <= patience cfg)%Z \/
                bad_counter st1 = bad_counter st0))
    as (tr1 & H1 & Hu1 & Hh1 & Hstop & Hgo).
  { destruct (bool_decide (numpy_mod (uidx st0) (validFreq cfg) = 0%Z)).
    - apply validate_accounts in Hval as (tr1 & Hacc & Hu & Hh & ->).
      exists tr1.
      assert (accounts tr1 st0 st1) as Hacc'.
      { destruct Hacc as (Ht & Hu' & Hb' & Hl' & Hc'). by split_and!. }
      split_and!; try done.
      + by intros ?%bool_decide_eq_true_1.
      + intros ?%bool_decide_eq_false_1. left. lia.
    - injection Hval as <- <-. exists [].
      split_and!; [apply accounts_refl | done | count | done | by right]. }
  pose proof (accounts_trans _ _ _ _ _ H0 H1) as H01.
  assert (uidx st1 = uidx st) as Hui1.
  { destruct H01 as (_ & -> & _). count. }
  assert ((bad_counter st1 <= bad_counter st + 1)%Z) as Hbc1.
  { destruct H01 as (_ & _ & -> & _). count. }
  assert (exists tr, accounts tr st st1 /\ updates tr = 0 /\ halvings tr <= 1)
    as Hacc.
  { exists (tr0 ++ tr1). split_and!; [done | count | count]. }
  destruct estop.
  - injection H as <-. simpl. split_and!; [done | | done].
    intros Hu Hb. unfold budget_kept. lia.
  - destruct (bool_decide (uidx st1 >= finish_after cfg)%Z) eqn:Hfin;
      injection H as <-; simpl; (split_and!; [done | | done]).
    + intros Hu Hb. unfold budget_kept. lia.
    + apply bool_decide_eq_false_1 in Hfin.
      intros Hu Hb. unfold within_budget.
      destruct (Hgo eq_refl) as [?|?]; lia.
Qed.

(** One pass through the body of the loop. *)
Lemma body_accounts cfg eidx mb st f :
  body f_grad_shared f_update use_noise unzip zipp pred_acc cfg eidx mb st
    = inr f ->
  (exists tr, accounts tr st (final f) /\ updates tr <= 1 /\ halvings tr <= 1) /\
  (within_budget cfg st -> flow_budget cfg f).
Proof.
  destruct mb as [[[[x1 x2] x1_lemma] x2_lemma] y]. unfold body.
  destruct (prepare_data _ _ _ _ _ _ _ _) as [e|prepared]; [discriminate|].
  cbn [bind].
  destruct prepared as [|v1 [|v2 [|v3 [|v4 [|v5 [|v6 [|v7 [|v8 [|v9 tl]]]]]]]]];
    try discriminate.
  set (st1 := set_machine _ (set_uidx _ (set_n_samples _ st))).
  assert (forall w,
            (let '(cost, m) := f_grad_shared [w; v2; v3; v4; v5; v6; v7; v8]
                                 (machine st1) in
             let st := log (EvUpdate (lrate st1))
                         (set_machine (f_update (lrate st1) m) st1) in
             if isnan cost || isinf cost then ret (Return (log EvNaN st))
             else after_update use_noise unzip zipp pred_acc cfg eidx st)
            = inr f ->
            (exists tr, accounts tr st (final f) /\ updates tr <= 1 /\
                        halvings tr <= 1) /\
            (within_budget cfg st -> flow_budget cfg f)) as Hupd.
  { intros w. destruct (f_grad_shared _ _) as [cost m].
    set (st2 := log (EvUpdate (lrate st1)) (set_machine _ st1)).
    assert (accounts [EvUpdate (lrate st1)] st st2) as H02.
    { unfold accounts, updates, halvings. simpl.
      split_and!; try done; try lia. exists []. by rewrite app_nil_r. }
    destruct (isnan cost || isinf cost).
    - intros [= <-]. simpl. split.
      + exists ([EvUpdate (lrate st1)] ++ [EvNaN]).
        split_and!; [|count|count].
        eapply accounts_trans; [exact H02|]. by apply accounts_frame.
      + intros [Hu Hb]. unfold budget_kept. simpl. lia.
    - intros Hrun.
      apply after_update_accounts in Hrun as ((tr & Hacc & Hu & Hh) & Hbud & _).
      split.
      + exists ([EvUpdate (lrate st1)] ++ tr).
        split_and!; [by eapply accounts_trans | count | count].
      + intros [Hu' Hb']. apply Hbud; simpl; lia. }
  destruct v1; try apply Hupd.
  intros [= <-]. simpl. split.
  - exists [EvSkip]. split_and!; [|count|count].
    apply accounts_frame; simpl; try done. lia.
  - intros [Hu Hb]. unfold within_budget. simpl. lia.
Qed.

Lemma batches_accounts cfg eidx mbs : forall st f,
  batches f_grad_shared f_update use_noise unzip zipp pred_acc cfg eidx mbs st
    = inr f ->
  (exists tr, accounts tr st (final f)) /\
  (within_budget cfg st -> flow_budget cfg f).
Proof.
  induction mbs as [|mb rest IH]; simpl; intros st f H.
  - injection H as <-. split; [exists []; apply accounts_refl | done].
  - apply bind_inr in H as (f1 & Hbody & H).
    apply body_accounts in Hbody as ((tr1 & H1 & _) & Hb1).
    destruct f1 as [st1|st1|st1]; [|injection H as <-; eauto..].
    apply IH in H as ((tr2 & H2) & Hb2). split.
    + exists (tr1 ++ tr2). by eapply accounts_trans.
    + intros Hb. apply Hb2. by apply Hb1.
Qed.

Lemma epochs_accounts cfg train_data eidxs : forall st f,
  epochs f_grad_shared f_update use_noise unzip zipp pred_acc cfg train_data
    eidxs st = inr f ->
  (exists tr, accounts tr st (final f)) /\
  (within_budget cfg st -> flow_budget cfg f).
Proof.
  induction eidxs as [|eidx rest IH]; simpl; intros st f H.
  - injection H as <-. split; [exists []; apply accounts_refl | done].
  - apply bind_inr in H as (f1 & Hb & H).
    apply batches_accounts in Hb as ((tr1 & H1) & Hb1).
    assert (accounts tr1 st (final f1)) as H1'.
    { destruct H1 as (Ht & Hu & Hb' & Hl & Hc). by split_and!. }
    destruct f1 as [st1|st1|st1]; [|injection H as <-; eauto..].
    apply IH in H as ((tr2 & H2) & Hb2). split.
    + exists (tr1 ++ tr2). by eapply accounts_trans.
    + intros Hb. apply Hb2. by apply Hb1.
Qed.

Lemma train_accounts cfg train_data st v st' :
  train f_grad_shared f_update use_noise unzip zipp pred_acc cfg train_data st
    = inr (v, st') ->
  v = PyNone /\ (exists tr, accounts tr st st') /\
  (within_budget cfg st -> budget_kept cfg st').
Proof.
  unfold train. intros H. apply bind_inr in H as (f & Hep & H).
  apply epochs_accounts in Hep as ((tr & Hacc) & Hbud).
  assert (forall st1, final f = st1 -> is_Some (best_p st1) ->
            match best_p st1 with
            | Some bp =>
                ret (PyNone, log EvSave (set_machine (zipp bp (machine st1)) st1))
            | None => raise TypeError
            end = inr (v, st') ->
            (within_budget cfg st -> budget_kept cfg st1) ->
            v = PyNone /\ (exists tr, accounts tr st st') /\
            (within_budget cfg st -> budget_kept cfg st')) as Hend.
  { intros st1 Hf [bp Hbp]. rewrite Hbp. intros [= <- <-] Hk. subst st1.
    split; [done|]. split; [|done].
    exists (tr ++ [EvSave]). eapply accounts_trans; [exact Hacc|].
    by apply accounts_frame. }
  destruct f as [st1|st1|st1]; simpl in *.
  - destruct (best_p st1) as [bp|] eqn:Hbp; [|discriminate].
    apply (Hend st1 eq_refl); [by eexists | by rewrite Hbp|].
    intros Hb. destruct (Hbud Hb). unfold budget_kept. lia.
  - destruct (best_p st1) as [bp|] eqn:Hbp; [|discriminate].
    apply (Hend st1 eq_refl); [by eexists | by rewrite Hbp | done].
  - injection H as <- <-. split; [done|]. split; [by exists tr | done].
Qed.

(** *** The snapshot that a halving restores *)

Lemma fle_refl a : isnan a = false -> fle a a = true.
Proof.
  destruct a as [q|[]|]; simpl; try done. intros _.
  apply Qle_bool_iff, Qle_refl.
Qed.

Lemma fgt_nan a : fgt a NaN = false.
Proof. by destruct a as [q|[]|]. Qed.

Lemma array_min_snoc_nan hist v :
  array_min hist = inr NaN -> array_min (hist ++ [v]) = inr NaN.
Proof.
  destruct hist as [|a rest]; [discriminate|]. simpl. unfold ret.
  intros [= H]. by rewrite foldl_app, H.
Qed.

Lemma record_result_fresh eidx err st :
  fresh st ->
  exists st2,
    record_result unzip eidx err
      (log (EvValid err) (set_history_errs (history_errs st ++ [err]) st))
      = inr st2 /\
    history_errs st2 = history_errs st ++ [err] /\
    (best_p st2 = None ->
     (wait_counter st2 < wait_N)%Z /\
     array_min (history_errs st ++ [err]) = inr NaN).
Proof.
  intros [Hw Hb]. unfold record_result.
  destruct (array_min_snoc (history_errs st) err) as [m Hm].
  cbn [history_errs log set_history_errs]. rewrite Hm. cbn [bind].
  destruct (bool_decide
              (uidx (log (EvValid err)
                 (set_history_errs (history_errs st ++ [err]) st)) = 0%Z)
            || fle err m) eqn:Hbest.
  - cbn [history_errs snapshot_best log set_history_errs]. rewrite Hm.
    cbn [bind]. eexists. split; [done|].
    destruct (fgt err m); by split.
  - cbn [history_errs log set_history_errs]. rewrite Hm. cbn [bind].
    apply orb_false_iff in Hbest as [_ Hfle].
    destruct (best_p st) as [bp|] eqn:Hbp.
    + eexists. split; [done|]. destruct (fgt err m); simpl; rewrite Hbp; by split.
    + assert (m = NaN) as ->.
      { destruct (Hb eq_refl) as [Hnil | Hnan].
        - rewrite Hnil in Hm. simpl in Hm. injection Hm as <-.
          destruct (isnan err) eqn:Hn; [by destruct err|].
          by rewrite fle_refl in Hfle.
        - rewrite (array_min_snoc_nan _ _ Hnan) in Hm. by injection Hm as <-. }
      rewrite fgt_nan. eexists. split; [done|]. by split.
Qed.

(** Under [fresh], a validation returns, and leaves a state that is
    [fresh]. *)
Lemma validate_fresh cfg eidx valid_acc st :
  fresh st ->
  exists st' estop,
    validate unzip zipp cfg eidx valid_acc st = inr (st', estop) /\ fresh st'.
Proof.
  intros Hst. unfold validate.
  destruct (record_result_fresh eidx (one_minus valid_acc) st Hst)
    as (st2 & -> & Hh2 & Hb2). cbn [bind].
  assert (exists st3, decay zipp eidx st2 = inr st3 /\ fresh st3)
    as (st3 & -> & Hst3).
  { unfold decay. case_bool_decide as Hw.
    - destruct (best_p st2) as [bp|] eqn:Hbp.
      + eexists. split; [done|]. split; simpl; [unfold wait_N; lia|].
        discriminate.
      + destruct (Hb2 eq_refl) as [Hw' _]. lia.
    - eexists. split; [done|]. split; [lia|].
      intros Hnone. right. rewrite Hh2. by apply Hb2. }
  cbn [bind]. case_bool_decide; [by eexists _, _|].
  eexists _, _. split; [done|]. by destruct (isnan _).
Qed.

Lemma after_update_fresh cfg eidx st :
  fresh st ->
  exists f,
    after_update use_noise unzip zipp pred_acc cfg eidx st = inr f /\
    fresh (final f).
Proof.
  intros Hst. unfold after_update.
  set (st0 := if bool_decide (numpy_mod (uidx st) (saveFreq cfg) = 0%Z)
              then log EvSave st else st).
  assert (fresh st0) as Hst0 by (unfold st0; by destruct (bool_decide _)).
  clearbody st0.
  assert (exists st1 estop,
            (if bool_decide (numpy_mod (uidx st0) (validFreq cfg) = 0%Z)
             then
               validate unzip zipp cfg eidx
                 (pred_acc (machine (set_machine (use_noise 0%Q (machine st0)) st0)))
                 (set_machine (use_noise 0%Q (machine st0)) st0)
             else ret (st0, false)) = inr (st1, estop) /\ fresh st1)
    as (st1 & estop & -> & Hst1).
  { destruct (bool_decide _).
    - by apply validate_fresh.
    - by eexists _, _. }
  cbn [bind]. destruct estop; [by eexists|].
  destruct (bool_decide _); by eexists.
Qed.

Lemma body_fresh cfg eidx mb st :
  fresh st ->
  (forall e,
     body f_grad_shared f_update use_noise unzip zipp pred_acc cfg eidx mb st
       = inl e -> array_error e) /\
  (forall f,
     body f_grad_shared f_update use_noise unzip zipp pred_acc cfg eidx mb st
       = inr f -> fresh (final f)).
Proof.
  intros Hst. destruct mb as [[[[x1 x2] x1_lemma] x2_lemma] y]. unfold body.
  destruct (prepare_data _ _ _ _ _ _ _ _) as [e0|prepared] eqn:Hprep.
  { split; [|discriminate]. intros e [= <-]. by eapply prepare_data_error. }
  cbn [bind].
  set (st1 := set_machine _ (set_uidx _ (set_n_samples _ st))).
  assert (fresh st1) as Hst1 by done. clearbody st1.
  assert (forall w rest,
            (forall e,
               (let '(cost, m) := f_grad_shared (w :: rest) (machine st1) in
                let st := log (EvUpdate (lrate st1))
                            (set_machine (f_update (lrate st1) m) st1) in
                if isnan cost || isinf cost then ret (Return (log EvNaN st))
                else after_update use_noise unzip zipp pred_acc cfg eidx st)
               = inl e -> array_error e) /\
            (forall f,
               (let '(cost, m) := f_grad_shared (w :: rest) (machine st1) in
                let st := log (EvUpdate (lrate st1))
                            (set_machine (f_update (lrate st1) m) st1) in
                if isnan cost || isinf cost then ret (Return (log EvNaN st))
                else after_update use_noise unzip zipp pred_acc cfg eidx st)
               = inr f -> fresh (final f))) as Hupd.
  { intros w rest. destruct (f_grad_shared _ _) as [cost m]. cbv zeta.
    destruct (isnan cost || isinf cost).
    - split; [discriminate|]. by intros f [= <-].
    - destruct (after_update_fresh cfg eidx
                  (log (EvUpdate (lrate st1))
                     (set_machine (f_update (lrate st1) m) st1)))
        as (f0 & -> & Hf0); [done|].
      split; [discriminate|]. by intros f [= <-]. }
  destruct prepared as [|v1 [|v2 [|v3 [|v4 [|v5 [|v6 [|v7 [|v8 [|v9 tl]]]]]]]]];
    try (split; [intros e [= <-]; by right | discriminate]).
  destruct v1; try apply Hupd.
  split; [discriminate|]. by intros f [= <-].
Qed.

Lemma batches_fresh cfg eidx mbs : forall st,
  fresh st ->
  (forall e,
     batches f_grad_shared f_update use_noise unzip zipp pred_acc cfg eidx mbs
       st = inl e -> array_error e) /\
  (forall f,
     batches f_grad_shared f_update use_noise unzip zipp pred_acc cfg eidx mbs
       st = inr f -> fresh (final f)).
Proof.
  induction mbs as [|mb rest IH]; simpl; intros st Hst.
  - split; [discriminate|]. by intros f [= <-].
  - destruct (body_fresh cfg eidx mb st Hst) as [Herr Hok].
    destruct (body _ _ _ _ _ _ _ _ _ _) as [e0|f0]; simpl.
    + split; [|discriminate]. intros e [= <-]. by apply Herr.
    + specialize (Hok f0 eq_refl).
      destruct f0 as [st1|st1|st1];
        [by apply IH | split; [discriminate | by intros f [= <-]]..].
Qed.

Lemma epochs_fresh cfg train_data eidxs : forall st,
  fresh st ->
  (forall e,
     epochs f_grad_shared f_update use_noise unzip zipp pred_acc cfg train_data
       eidxs st = inl e -> array_error e) /\
  (forall f,
     epochs f_grad_shared f_update use_noise unzip zipp pred_acc cfg train_data
       eidxs st = inr f -> fresh (final f)).
Proof.
  induction eidxs as [|eidx rest IH]; simpl; intros st Hst.
  - split; [discriminate|]. by intros f [= <-].
  - destruct (batches_fresh cfg eidx (train_data eidx) (set_n_samples 0 st))
      as [Herr Hok]; [done|].
    destruct (batches _ _ _ _ _ _ _ _ _ _) as [e0|f0]; simpl.
    + split; [|discriminate]. intros e [= <-]. by apply Herr.
    + specialize (Hok f0 eq_refl).
      destruct f0 as [st1|st1|st1];
        [by apply IH | split; [discriminate | by intros f [= <-]]..].
Qed.

(** X28. From a fresh start (no halving pending, and a snapshot missing
    only while the history is empty or holds a NaN), the halving block
    always finds a snapshot to restore: every validation check, given an
    accuracy between 0 and 1, completes and leaves such a state again, and
    no run of the loops ends in the [AttributeError] of
    [zipp(best_p, tparams)] on a missing snapshot. *)
Theorem train_fresh_snapshot cfg train_data st :
  fresh st ->
  (forall eidx valid_acc, ratio valid_acc -> exists st' estop,
     validate unzip zipp cfg eidx valid_acc st = inr (st', estop) /\
     fresh st' /\
     (history_errs st' <> [] /\ (is_Some (best_p st') \/
        array_min (history_errs st') = inr NaN))) /\
  train f_grad_shared f_update use_noise unzip zipp pred_acc cfg train_data st
    <> inl AttributeError.
Proof.
  intros Hst. split.
  - intros eidx valid_acc _.
    destruct (validate_fresh cfg eidx valid_acc st Hst)
      as (st' & estop & Hrun & Hst').
    exists st', estop. split; [done|]. split; [done|].
    assert (history_errs st' = history_errs st ++ [one_minus valid_acc]) as Hh.
    { unfold validate in Hrun.
      apply bind_inr in Hrun as (st1 & Hrec & Hrun).
      apply bind_inr in Hrun as (st2 & Hdec & Hrun).
      apply record_result_frame in Hrec as (_ & _ & _ & _ & _ & Hh1).
      assert (history_errs st2 = history_errs st1) as Hh2.
      { apply decay_accounts in Hdec as [[-> _] | (_ & ? & _)]; done. }
      simpl in Hh1. rewrite <- Hh1, <- Hh2.
      case_bool_decide; injection Hrun as <- _; [done|].
      by destruct (isnan _). }
    split; [rewrite Hh; by destruct (history_errs st)|].
    destruct (best_p st') as [bp|] eqn:Hbp; [by left; eexists|].
    right. destruct Hst' as [_ [Hnil | Hnan]]; [done | | done].
    rewrite Hh in Hnil. by destruct (history_errs st).
  - unfold train.
    destruct (epochs_fresh cfg train_data (seq 0 (max_epochs cfg)) st Hst)
      as [Herr _].
    destruct (epochs _ _ _ _ _ _ _ _ _ _) as [e0|f0]; simpl.
    + intros [= ->]. by destruct (Herr AttributeError eq_refl).
    + destruct f0 as [st1|st1|st1]; try discriminate;
        (destruct (best_p st1); discriminate).
Qed.

(** X29. A validation that finds a worse error while no snapshot exists
    (a reloaded history, then a first check that is not a new best) raises
    [AttributeError]: the halving restores [best_p], which is [None]. *)
Theorem validate_without_snapshot cfg eidx valid_acc st m :
  best_p st = None -> uidx st <> 0%Z -> (0 <= wait_counter st)%Z ->
  array_min (history_errs st ++ [one_minus valid_acc]) = inr m ->
  fgt (one_minus valid_acc) m = true ->
  validate unzip zipp cfg eidx valid_acc st = inl AttributeError.
Proof.
  intros Hb Hu Hw Hmin Hgt. unfold validate.
  rewrite (record_result_worse _ _ _ _ m) by done. cbn [bind].
  unfold decay. rewrite bool_decide_eq_true_2 by (simpl; unfold wait_N; lia).
  simpl. by rewrite Hb.
Qed.

(** X26. Whenever [train] returns, it returns [None], and its counters
    account for what it did: the update counter has grown by the number of
    parameter updates made, the bad counter and the list of learning-rate
    changes by the number of halvings, and the learning rate is the
    initial one halved once for each of them. *)
Theorem train_accounting cfg train_data st v st' :
  train f_grad_shared f_update use_noise unzip zipp pred_acc cfg train_data st
    = inr (v, st') ->
  v = PyNone /\ exists tr, accounts tr st st'.
Proof.
  intros H. apply train_accounts in H as (Hv & Hacc & _). by split.
Qed.

(** X27. A run of [train] that starts within its budget makes at most
    [finish_after - uidx] parameter updates and halves the learning rate
    at most [patience + 1 - bad_counter] times. *)
Theorem train_budget cfg train_data st v st' :
  within_budget cfg st ->
  train f_grad_shared f_update use_noise unzip zipp pred_acc cfg train_data st
    = inr (v, st') ->
  exists tr,
    trace st' = trace st ++ tr /\
    (Z.of_nat (updates tr) <= finish_after cfg - uidx st)%Z /\
    (Z.of_nat (halvings tr) <= patience cfg + 1 - bad_counter st)%Z /\
    lrate st' = Nat.iter (halvings tr) (fun q => (q * 0.5)%Q) (lrate st).
Proof.
  intros Hb H. apply train_accounts in H as (_ & (tr & Hacc) & Hkept).
  destruct (Hkept Hb) as [Hu' Hb'].
  destruct Hacc as (Ht & Hu & Hbc & Hl & _).
  exists tr. split_and!; [done | lia | lia | done].
Qed.

End loop.

(** The first check of the sample run, from the state in which [train]
    enters its loops: it takes the snapshot. *)
Lemma train_fresh_snapshot_witness :
  (exists st' estop,
     validate sample_unzip sample_zipp sample_config 0 (Fin 0.5)
       (initial 0.01 0) = inr (st', estop) /\
     fresh st' /\
     (history_errs st' <> [] /\ (is_Some (best_p st') \/
        array_min (history_errs st') = inr NaN))) /\
  train sample_f_grad_shared sample_f_update sample_use_noise sample_unzip
    sample_zipp sample_pred_acc sample_config
    (fun _ => [short_minibatch; short_minibatch]) (initial 0.01 0)
    <> inl AttributeError.
Proof.
  pose proof (train_fresh_snapshot sample_f_grad_shared sample_f_update
                sample_use_noise sample_unzip sample_zipp sample_pred_acc
                sample_config (fun _ => [short_minibatch; short_minibatch])
                (initial 0.01 0)
                ltac:(split; [simpl; unfold wait_N; lia | intros _; by left]))
    as [Hcheck Hrun].
  split; [|exact Hrun].
  apply (Hcheck 0 (Fin 0.5)). exists 0.5%Q.
  split; [reflexivity|]. split; unfold Qle; simpl; lia.
Defined.

(** A reloaded history of one error 0.1, no snapshot, and a validation
    accuracy of 0.5. *)
Lemma validate_without_snapshot_witness :
  validate sample_unzip sample_zipp sample_config 0 (Fin 0.5)
    {| uidx := 5; lrate := 0.01; history_errs := [Fin 0.1]; best_p := None;
       bad_counter := 0; wait_counter := 0; best_epoch_num := 0;
       lr_change_list := []; n_samples := 80; machine := 9%nat; trace := [] |}
  = inl AttributeError.
Proof.
  apply (validate_without_snapshot (M := nat) sample_unzip sample_zipp
           sample_config 0 (Fin 0.5) _ (Fin 0.1));
    [reflexivity | simpl; lia | simpl; lia | reflexivity | reflexivity].
Defined.

(** The sample run of three mini-batches. *)
Lemma train_accounting_witness :
  exists st',
    train sample_f_grad_shared sample_f_update sample_use_noise sample_unzip
      sample_zipp sample_pred_acc sample_config
      (fun _ => [short_minibatch; short_minibatch; short_minibatch])
      (initial 0.01 0)
    = inr (PyNone, st') /\
    exists tr, accounts tr (initial 0.01 0) st'.
Proof.
  assert (exists st',
            train sample_f_grad_shared sample_f_update sample_use_noise
              sample_unzip sample_zipp sample_pred_acc sample_config
              (fun _ => [short_minibatch; short_minibatch; short_minibatch])
              (initial 0.01 0)
            = inr (PyNone, st')) as [st' Hrun]
    by (eexists; vm_compute; reflexivity).
  exists st'. split; [exact Hrun|].
  exact (proj2 (train_accounting _ _ _ _ _ _ _ _ _ _ _ Hrun)).
Defined.

Lemma train_budget_witness :
  exists st' tr,
    train sample_f_grad_shared sample_f_update sample_use_noise sample_unzip
      sample_zipp sample_pred_acc sample_config
      (fun _ => [short_minibatch; short_minibatch; short_minibatch])
      (initial 0.01 0)
    = inr (PyNone, st') /\
    trace st' = trace (initial 0.01 0) ++ tr /\
    (Z.of_nat (updates tr) <= 100 - 0)%Z /\
    (Z.of_nat (halvings tr) <= 1 + 1 - 0)%Z.
Proof.
  assert (exists st',
            train sample_f_grad_shared sample_f_update sample_use_noise
              sample_unzip sample_zipp sample_pred_acc sample_config
              (fun _ => [short_minibatch; short_minibatch; short_minibatch])
              (initial 0.01 0)
            = inr (PyNone, st')) as [st' Hrun]
    by (eexists; vm_compute; reflexivity).
  destruct (train_budget _ _ _ _ _ _ sample_config _ (initial 0.01 0) _ _
              ltac:(split; simpl; lia) Hrun) as (tr & Ht & Hu & Hh & _).
  exists st', tr. by split_and!.
Defined.

End TrainMore.

(** ** The accuracy that [pred_acc] returns *)

Module AccuracySpec.
Import Batch ArrayError BatchSpec ShapeSpec BatchShape BatchErrors Accuracy.

Lemma agreements_range preds y :
  (0 <= agreements preds y <= Z.of_nat (length y))%Z.
Proof.
  revert y. induction preds as [|p preds IH]; intros [|v y]; simpl; try lia.
  specialize (IH y). destruct (decide (p = v)); lia.
Qed.

Lemma prepare_data_labels x1 x2 x1_lemma x2_lemma y options kb_dict prepared :
  prepare_data x1 x2 x1_lemma x2_lemma y options kb_dict None = inr prepared ->
  exists b, prepared = tuple_of b /\ length (l b) = length x1.
Proof.
  unfold prepare_data. intros H. apply bind_inr in H as (b & Hb & [= <-]).
  exists b. split; [done|].
  apply build_batch_shape in Hb. apply Hb.
Qed.

Section pred_acc.
Context (f_pred : list pyval -> list Z).
Context (options : options) (kb_dict : gmap Z (gmap Z (list Q))).

Lemma pred_acc_body_counts mb acc acc' :
  (0 <= acc.1 <= acc.2)%Z ->
  pred_acc_body f_pred options kb_dict mb acc = inr acc' ->
  (0 <= acc'.1 <= acc'.2)%Z.
Proof.
  destruct mb as [[[[x1 x2] x1_lemma] x2_lemma] y], acc as [valid_acc n_done].
  unfold pred_acc_body. simpl. intros Hacc H.
  apply bind_inr in H as (prepared & Hprep & H).
  apply prepare_data_labels in Hprep as (b & -> & Hlen).
  simpl in H. injection H as <-. simpl.
  pose proof (agreements_range
                (f_pred [PyInt2 (x b); PyFloat2 (x_mask b); PyFloat4 (kb_x b);
                         PyInt2 (Batch.y b); PyFloat2 (y_mask b);
                         PyFloat4 (kb_y b); PyFloat3 (kb_att b)]) (l b)).
  lia.
Qed.

Lemma pred_acc_body_error mb acc e :
  pred_acc_body f_pred options kb_dict mb acc = inl e -> array_error e.
Proof.
  destruct mb as [[[[x1 x2] x1_lemma] x2_lemma] y], acc as [valid_acc n_done].
  unfold pred_acc_body. intros H.
  apply bind_inl in H as [H | (prepared & Hprep & H)];
    [by eapply prepare_data_error|].
  apply prepare_data_labels in Hprep as (b & -> & _). discriminate.
Qed.

(** X30. [pred_acc] raises [ZeroDivisionError] on an iterator without
    mini-batches; when it returns, the accuracy lies between 0 and 1; and
    the only other exceptions it raises are those of [prepare_data]. *)
Theorem pred_acc_range :
  pred_acc f_pred options kb_dict [] = inl ZeroDivisionError /\
  (forall iterator q,
     pred_acc f_pred options kb_dict iterator = inr q -> (0 <= q <= 1)%Q) /\
  (forall iterator e,
     pred_acc f_pred options kb_dict iterator = inl (Raised e) ->
     e = IndexError \/ e = ValueError).
Proof.
  split; [done|]. split.
  - intros iterator q. unfold pred_acc.
    destruct (for_each _ _ _) as [e|[valid_acc n_done]] eqn:Hrun; [discriminate|].
    assert (0 <= valid_acc <= n_done)%Z as Hacc.
    { revert Hrun.
      apply (for_each_inv _ (fun acc : Z * Z => (0 <= acc.1 <= acc.2)%Z));
        [|simpl; lia].
      intros mb t t' _. apply pred_acc_body_counts. }
    destruct (decide (n_done = 0%Z)); [discriminate|].
    intros [= <-]. unfold Qle. simpl.
    rewrite Z2Pos.id by lia. lia.
  - intros iterator e. unfold pred_acc.
    destruct (for_each _ _ _) as [e0|[valid_acc n_done]] eqn:Hrun.
    + intros [= <-]. revert Hrun. apply (for_each_inl _ array_error).
      intros mb t e' _. apply pred_acc_body_error.
    + by destruct (decide _).
Qed.

End pred_acc.

(** One mini-batch of one example, predicted right. *)
Lemma pred_acc_range_witness :
  pred_acc (fun _ => [1%Z]) sample_options sample_kb_dict
    [Train.short_minibatch] = inr (1 # 1)%Q /\
  (0 <= 1 # 1 <= 1)%Q.
Proof.
  assert (pred_acc (fun _ => [1%Z]) sample_options sample_kb_dict
            [Train.short_minibatch] = inr (1 # 1)%Q) as Hrun
    by (vm_compute; reflexivity).
  split; [exact Hrun|].
  exact (proj1 (proj2 (pred_acc_range (fun _ => [1%Z]) sample_options
                         sample_kb_dict)) [Train.short_minibatch] (1 # 1)%Q Hrun).
Defined.

End AccuracySpec.

(** ** Non-finite costs and validation errors *)

Module TrainAbortSpec.
Import Batch Train TrainSpec TrainTrace TrainMore TrainAbort.







Section loop.
Context {M params : Type}.
Context (f_grad_shared : list pyval -> M -> float * M).
Context (f_update : Q -> M -> M).
Context (use_noise : Q -> M -> M).
Context (unzip : M -> params).
Context (zipp : params -> M -> M).
Context (pred_acc : M -> float).
Implicit Types (st : @tstate M params) (f : @flow M params).







End loop.



End TrainAbortSpec.
